(** * ALLDJ export engine: a shallow embedding of the Rekordbox-to-USB exporters

    The development follows two scripts of the repository,
    [copy_rekordbox_playlists_to_usb.py] (class [RekordboxPlaylistCopier]) and
    [export_rekordbox_playlists_to_usb.py] (class [RekordboxUSBExporter]), with
    the helpers they share with [export_playlists_to_usb.py].

    Part I holds the embedding: Python strings, pathlib paths, a file system,
    the path resolvers, the playlist hierarchy walk, the atomic writers, the
    manifest builders and the two orchestrators.  Part II holds the theorems. *)

From Stdlib Require Import Ascii String.
From stdpp Require Import gmap strings list fin_maps.

Open Scope string_scope.
Open Scope nat_scope.
Open Scope list_scope.
Open Scope stdpp_scope.
Set Warnings "-clear-no-such-hyp".

(* ===================================================================== *)
(** * Part I.  The embedding                                              *)
(* ===================================================================== *)

(** ** Python [str] operations

    A Python [str] is modelled as a [string] of bytes (its UTF-8 encoding).
    Every function below is the byte-level reading of the [str] method of the
    same name. *)
Module PyStr.

(** [str.isspace] on one character, ASCII range: TAB..CR, FS..US and SPACE. *)
Definition is_space (c : ascii) : bool :=
  let n := nat_of_ascii c in
  ((9 <=? n) && (n <=? 13)) || ((28 <=? n) && (n <=? 32)).

Definition is_empty (s : string) : bool :=
  match s with EmptyString => true | String _ _ => false end.

Fixpoint lstrip (s : string) : string :=
  match s with
  | EmptyString => EmptyString
  | String c s' => if is_space c then lstrip s' else s
  end.

Fixpoint rstrip (s : string) : string :=
  match s with
  | EmptyString => EmptyString
  | String c s' =>
      match rstrip s' with
      | EmptyString => if is_space c then EmptyString else String c EmptyString
      | r => String c r
      end
  end.

(** [s.strip()] *)
Definition strip (s : string) : string := rstrip (lstrip s).

(** [s.rstrip(c)] for a one-character argument. *)
Fixpoint rstrip_char (c : ascii) (s : string) : string :=
  match s with
  | EmptyString => EmptyString
  | String a s' =>
      match rstrip_char c s' with
      | EmptyString => if Ascii.eqb a c then EmptyString else String a EmptyString
      | r => String a r
      end
  end.

(** [s.startswith(p)] *)
Definition startswith (s p : string) : bool := String.prefix p s.

(** [s.endswith(suf)]: some suffix of [s] is [suf]. *)
Fixpoint endswith (s suf : string) : bool :=
  String.eqb s suf ||
  match s with
  | EmptyString => false
  | String _ s' => endswith s' suf
  end.

(** [sub in s] *)
Fixpoint contains (sub s : string) : bool :=
  String.prefix sub s ||
  match s with
  | EmptyString => false
  | String _ s' => contains sub s'
  end.

(** [s[n:]] *)
Fixpoint drop (n : nat) (s : string) : string :=
  match n, s with
  | O, _ => s
  | S _, EmptyString => EmptyString
  | S k, String _ s' => drop k s'
  end.

(** [s[:n]] *)
Fixpoint take (n : nat) (s : string) : string :=
  match n, s with
  | O, _ => EmptyString
  | S _, EmptyString => EmptyString
  | S k, String c s' => String c (take k s')
  end.

(** [s.split(sep)] for a non-empty [sep]: the scan goes left to right and
    occurrences do not overlap.  [skip] counts the characters of a matched
    separator still to be passed over, [cur] is the piece being read. *)
Fixpoint split_go (sep s : string) (skip : nat) (cur : string) : list string :=
  match s with
  | EmptyString => [cur]
  | String c s' =>
      match skip with
      | S k => split_go sep s' k cur
      | O =>
          if String.prefix sep s
          then cur :: split_go sep s' (String.length sep - 1) EmptyString
          else split_go sep s' 0 (cur +:+ String c EmptyString)
      end
  end.

Definition split (sep s : string) : list string := split_go sep s 0 EmptyString.

(** [s.replace(old, new)] for a non-empty [old]. *)
Fixpoint replace_go (old new s : string) (skip : nat) : string :=
  match s with
  | EmptyString => EmptyString
  | String c s' =>
      match skip with
      | S k => replace_go old new s' k
      | O =>
          if String.prefix old s
          then new +:+ replace_go old new s' (String.length old - 1)
          else String c (replace_go old new s' 0)
      end
  end.

Definition replace (old new s : string) : string := replace_go old new s 0.

(** [s.lower()], ASCII range *)
Definition lower_char (c : ascii) : ascii :=
  let n := nat_of_ascii c in
  if (65 <=? n) && (n <=? 90) then ascii_of_nat (n + 32) else c.

Fixpoint lower (s : string) : string :=
  match s with
  | EmptyString => EmptyString
  | String c s' => String (lower_char c) (lower s')
  end.

(** [sep.join(parts)] *)
Fixpoint join (sep : string) (parts : list string) : string :=
  match parts with
  | [] => EmptyString
  | [p] => p
  | p :: ps => p +:+ sep +:+ join sep ps
  end.

Definition hexval (c : ascii) : option nat :=
  let n := nat_of_ascii c in
  if (48 <=? n) && (n <=? 57) then Some (n - 48)
  else if (65 <=? n) && (n <=? 70) then Some (n - 55)
  else if (97 <=? n) && (n <=? 102) then Some (n - 87)
  else None.

(** [urllib.parse.unquote]: every [%XX] with two hexadecimal digits becomes
    the byte [XX]; a [%] not followed by two hexadecimal digits stays.  The
    decoded bytes are kept as they are (CPython then reads them as UTF-8 and
    replaces invalid sequences, which changes no valid text). *)
Fixpoint unquote (s : string) : string :=
  match s with
  | EmptyString => EmptyString
  | String c s' =>
      if Ascii.eqb c "%"%char then
        match s' with
        | String h (String l r) =>
            match hexval h, hexval l with
            | Some a, Some b => String (ascii_of_nat (16 * a + b)) (unquote r)
            | _, _ => String c (unquote s')
            end
        | _ => String c (unquote s')
        end
      else String c (unquote s')
  end.

(** [c in s] for one character [c] *)
Fixpoint has_char (c : ascii) (s : string) : bool :=
  match s with
  | EmptyString => false
  | String a s' => Ascii.eqb a c || has_char c s'
  end.

(** [s[-1:]]: the last character, if any *)
Fixpoint last_char (s : string) : option ascii :=
  match s with
  | EmptyString => None
  | String a EmptyString => Some a
  | String _ s' => last_char s'
  end.

(** [str.isascii]: for such a string the bytes are the characters, so
    lengths, slices and [strip] are Python's. *)
Fixpoint is_ascii (s : string) : bool :=
  match s with
  | EmptyString => true
  | String a s' => (nat_of_ascii a <? 128) && is_ascii s'
  end.

End PyStr.

(** ** Python values, exceptions and dictionaries *)
Module Py.

(** The exception classes the scripts can meet. *)
Inductive exn : Type :=
| ValueError
| TypeError
| AttributeError
| FileExistsError
| FileNotFoundError
| IsADirectoryError
| NotADirectoryError
| PermissionError
| JSONDecodeError
| SystemExit
| Exception_ (msg : string).

Definition exn_str (e : exn) : string :=
  match e with
  | ValueError => "ValueError"
  | TypeError => "TypeError"
  | AttributeError => "AttributeError"
  | FileExistsError => "FileExistsError"
  | FileNotFoundError => "FileNotFoundError"
  | IsADirectoryError => "IsADirectoryError"
  | NotADirectoryError => "NotADirectoryError"
  | PermissionError => "PermissionError"
  | JSONDecodeError => "JSONDecodeError"
  | SystemExit => "SystemExit"
  | Exception_ msg => msg
  end.

Inductive outcome (A : Type) : Type :=
| Ok (a : A)
| Raise (e : exn).
Arguments Ok {A} a.
Arguments Raise {A} e.

Definition is_ok {A} (o : outcome A) : bool :=
  match o with Ok _ => true | Raise _ => false end.

Definition obind {A B} (o : outcome A) (k : A -> outcome B) : outcome B :=
  match o with Ok a => k a | Raise e => Raise e end.

(** The values [json.loads] can return (numbers are integers here; a dict
    keeps its insertion order, as a Python dict does). *)
#[warnings="-register-all"]
Inductive pyval : Type :=
| VNone
| VBool (b : bool)
| VInt (z : Z)
| VStr (s : string)
| VList (l : list pyval)
| VDict (d : list (string * pyval)).

(** [bool(v)] *)
Definition truthy (v : pyval) : bool :=
  match v with
  | VNone => false
  | VBool b => b
  | VInt z => negb (Z.eqb z 0)
  | VStr s => negb (PyStr.is_empty s)
  | VList l => match l with [] => false | _ => true end
  | VDict d => match d with [] => false | _ => true end
  end.

Fixpoint assoc_get (d : list (string * pyval)) (k : string) : option pyval :=
  match d with
  | [] => None
  | (k', v) :: d' => if String.eqb k' k then Some v else assoc_get d' k
  end.

(** [d[k] = v] on the items of a dict: an existing key keeps its place. *)
Fixpoint assoc_set (d : list (string * pyval)) (k : string) (v : pyval)
  : list (string * pyval) :=
  match d with
  | [] => [(k, v)]
  | (k', v') :: d' =>
      if String.eqb k' k then (k, v) :: d' else (k', v') :: assoc_set d' k v
  end.

(** [o.get(k, default)]: only a dict has the method. *)
Definition py_get (o : pyval) (k : string) (default : pyval) : outcome pyval :=
  match o with
  | VDict d => Ok (match assoc_get d k with Some v => v | None => default end)
  | _ => Raise AttributeError
  end.

(** [o.setdefault(k, {})[k2] = v], as one step: it returns the new [o]. *)
Definition py_setdefault_setitem (o : pyval) (k k2 : string) (v : pyval)
  : outcome pyval :=
  match o with
  | VDict d =>
      match assoc_get d k with
      | None => Ok (VDict (assoc_set d k (VDict [(k2, v)])))
      | Some (VDict inner) => Ok (VDict (assoc_set d k (VDict (assoc_set inner k2 v))))
      | Some (VList _) => Raise TypeError
      | Some _ => Raise TypeError
      end
  | _ => Raise AttributeError
  end.

(** [state.get("playlists", {}).get(playlist_id, {}).get("completed")], the
    test both orchestrators make before they touch a playlist. *)
Definition completed_flag (state : pyval) (playlist_id : string) : outcome pyval :=
  obind (py_get state "playlists" (VDict [])) (fun playlists =>
  obind (py_get playlists playlist_id (VDict [])) (fun status =>
  py_get status "completed" VNone)).

(** [state] holds a truthy [completed] flag for [playlist_id]. *)
Definition is_completed (state : pyval) (playlist_id : string) : bool :=
  match completed_flag state playlist_id with
  | Ok v => truthy v
  | Raise _ => false
  end.

(** A later state knows at least the playlists an earlier one knew, and
    has every playlist completed that the earlier one had. *)
Definition flag_le (s s' : pyval) : Prop :=
  forall pid v, completed_flag s pid = Ok v ->
  exists v', completed_flag s' pid = Ok v' /\ (truthy v = true -> truthy v' = true).

(** [o[k] = v] *)
Definition py_setitem (o : pyval) (k : string) (v : pyval) : outcome pyval :=
  match o with
  | VDict d => Ok (VDict (assoc_set d k v))
  | _ => Raise TypeError
  end.

(** [x + n] for an integer [n]: defined on numbers only. *)
Definition py_add (x : pyval) (n : Z) : outcome pyval :=
  match x with
  | VInt z => Ok (VInt (z + n))
  | VBool b => Ok (VInt ((if b then 1 else 0) + n))
  | _ => Raise TypeError
  end.

(** State passing with exceptions: a computation reads and writes the
    object it runs on; what it wrote before raising stays written. *)
Definition M (S A : Type) : Type := S -> outcome A * S.

Definition ret {S A} (a : A) : M S A := fun s => (Ok a, s).
Definition raise {S A} (e : exn) : M S A := fun s => (Raise e, s).
Definition bind {S A B} (m : M S A) (k : A -> M S B) : M S B :=
  fun s => match m s with
           | (Ok a, s') => k a s'
           | (Raise e, s') => (Raise e, s')
           end.
(** [try: m  except Exception as e: h e] *)
Definition try_except {S A} (m : M S A) (h : exn -> M S A) : M S A :=
  fun s => match m s with
           | (Ok a, s') => (Ok a, s')
           | (Raise e, s') => h e s'
           end.
Definition get {S} : M S S := fun s => (Ok s, s).
Definition modify {S} (f : S -> S) : M S unit := fun s => (Ok tt, f s).
Definition lift {S A} (o : outcome A) : M S A := fun s => (o, s).

(** From a state in [P], [m] returns [a] in a state in [R a] or raises in
    a state in [E]. *)
Definition triple {S A} (P : S -> Prop) (m : M S A) (R : A -> S -> Prop)
  (E : S -> Prop) : Prop :=
  forall s, P s ->
  match fst (m s) with
  | Ok a => R a (snd (m s))
  | Raise _ => E (snd (m s))
  end.

(** [I] holds after [m] whenever it held before, whether [m] returns or
    raises. *)
Definition inv {S A} (I : S -> Prop) (m : M S A) : Prop :=
  forall s, I s -> I (snd (m s)).

End Py.

Notation "x <- m ;; k" := (Py.bind m (fun x => k))
  (at level 100, m at next level, right associativity).
Notation "m ;;; k" := (Py.bind m (fun _ => k))
  (at level 100, right associativity).

(** ** pathlib on POSIX *)
Module PyPath.

(** A [PurePosixPath]: its root ([""], ["/"] or ["//"]) and its segments. *)
Record Path : Type := mkPath { root : string; segs : list string }.

#[global] Instance Path_eq_dec : EqDecision Path.
Proof. solve_decision. Defined.

Definition slash : ascii := "/"%char.

(** [posixpath.splitroot]: exactly two leading slashes are a root of their
    own, one or three and more are the root ["/"]. *)
Definition split_root (s : string) : string * string :=
  match s with
  | String a r1 =>
      if Ascii.eqb a slash then
        match r1 with
        | String b r2 =>
            if Ascii.eqb b slash then
              match r2 with
              | String c _ => if Ascii.eqb c slash then ("/", r2) else ("//", r2)
              | EmptyString => ("//", r2)
              end
            else ("/", r1)
        | EmptyString => ("/", r1)
        end
      else ("", s)
  | EmptyString => ("", s)
  end.

Definition keep_seg (x : string) : bool :=
  negb (PyStr.is_empty x) && negb (String.eqb x ".").

(** [Path(s)] *)
Definition of_str (s : string) : Path :=
  let '(r, rel) := split_root s in
  mkPath r (List.filter keep_seg (PyStr.split "/" rel)).

(** [p / q] *)
Definition joinpath (p q : Path) : Path :=
  if PyStr.is_empty (root q) then mkPath (root p) (segs p ++ segs q) else q.

(** [Path( *args )] *)
Definition of_parts (args : list string) : Path :=
  fold_left (fun acc a => joinpath acc (of_str a)) args (mkPath "" []).

(** [str(p)] *)
Definition to_str (p : Path) : string :=
  match root p, segs p with
  | EmptyString, [] => "."
  | r, l => r +:+ PyStr.join "/" l
  end.

(** [p.parent] *)
Definition parent (p : Path) : Path := mkPath (root p) (removelast (segs p)).

(** [p.name] *)
Definition name (p : Path) : string := List.last (segs p) "".

(** [p.parts] *)
Definition parts (p : Path) : list string :=
  (if PyStr.is_empty (root p) then [] else [root p]) ++ segs p.

Definition is_absolute (p : Path) : bool := negb (PyStr.is_empty (root p)).

(** A string without a slash. *)
Fixpoint slash_free (s : string) : bool :=
  match s with
  | EmptyString => true
  | String c s' => negb (Ascii.eqb c slash) && slash_free s'
  end.

(** What a segment of a parsed path is: not empty, without a slash, and not
    the dot; and what a segment of a normalised path is: also not [..]. *)
Definition seg_ok (x : string) : bool :=
  negb (PyStr.is_empty x) && slash_free x && negb (String.eqb x ".").
Definition name_ok (x : string) : bool := seg_ok x && negb (String.eqb x "..").

(** Collapsing [..] against the segments read so far; above the root it
    stays at the root. [stack] is reversed. *)
Fixpoint norm_go (stack l : list string) : list string :=
  match l with
  | [] => rev stack
  | x :: l' =>
      if String.eqb x ".." then norm_go (tail stack) l'
      else norm_go (x :: stack) l'
  end.

(** The file a path names, seen from the working directory [cwd]: its
    segments from the root (symbolic links are not modelled). *)
Definition key (cwd : list string) (p : Path) : list string :=
  norm_go [] ((if is_absolute p then [] else cwd) ++ segs p).

(** [p.resolve()] on a file system without symbolic links. *)
Definition resolve (cwd : list string) (p : Path) : Path :=
  mkPath (if String.eqb (root p) "//" then "//" else "/") (key cwd p).

(** [p.is_relative_to(base)] and [p.relative_to(base)] *)
Fixpoint strip_prefix (base l : list string) : option (list string) :=
  match base, l with
  | [], _ => Some l
  | b :: base', x :: l' => if String.eqb b x then strip_prefix base' l' else None
  | _ :: _, [] => None
  end.

Definition relative_to (p base : Path) : option Path :=
  if String.eqb (root p) (root base) then
    match strip_prefix (segs base) (segs p) with
    | Some l => Some (mkPath "" l)
    | None => None
    end
  else None.

End PyPath.

(** ** What the scripts take from their environment

    Library functions whose results the scripts only pass on are left as
    parameters: the theorems hold for every choice of them. *)
Record Env : Type := mkEnv {
  (** [urlparse(s).path] for a string that starts with [file://]; the call
      raises [ValueError] on some malformed network locations. *)
  urlparse_path : string -> Py.outcome string;
  (** [json.dumps(v, indent=2)] *)
  json_dumps : Py.pyval -> string;
  (** [st_size] of a directory *)
  dir_size : nat;
  (** [datetime.strftime] and [datetime.isoformat] of the clock's reading *)
  strftime : nat -> string;
  isoformat : nat -> string;
  (** [Path.home()] *)
  home : PyPath.Path
}.

(** ** The file system *)
Module FileSys.

(** What a regular file holds.  A file whose text is a JSON document is kept
    as the value [json.loads] reads from it ([JsonText v] stands for the text
    [json.dumps(v, indent=2)]); every other file is [Bytes]. *)
Inductive content : Type :=
| Bytes (data : string)
| JsonText (v : Py.pyval).

(** Regular files and directories by their segments from the root, the
    directories in which no file can be created (read-only or full), and
    the working directory.  [renames] is a journal the scripts never read:
    the final paths a temporary file was renamed onto, latest first. *)
Record FS : Type := mkFS {
  files : gmap (list string) content;
  dirs : gset (list string);
  denied : gset (list string);
  cwd : list string;
  renames : list (list string)
}.

Definition set_files (f : gmap (list string) content -> gmap (list string) content)
  (fs : FS) : FS :=
  mkFS (f (files fs)) (dirs fs) (denied fs) (cwd fs) (renames fs).
Definition set_dirs (f : gset (list string) -> gset (list string)) (fs : FS) : FS :=
  mkFS (files fs) (f (dirs fs)) (denied fs) (cwd fs) (renames fs).
(** A rename of a temporary file that holds [c] onto the file [k]. *)
Definition renamed_onto (k : list string) (c : content) (fs : FS) : FS :=
  mkFS (<[k := c]> (files fs)) (dirs fs) (denied fs) (cwd fs) (k :: renames fs).

Definition is_file (fs : FS) (k : list string) : bool :=
  bool_decide (is_Some (files fs !! k)).
Definition is_dir (fs : FS) (k : list string) : bool :=
  bool_decide (k ∈ dirs fs) || bool_decide (k = []).

(** The non-empty prefixes of a file name: its ancestors and itself. *)
Definition prefixes (k : list string) : list (list string) :=
  List.map (fun n => take n k) (seq 1 (length k)).

(** What every step of the scripts does to the file system: the working
    directory stays, and what exists keeps existing. *)
Definition grows (w w' : FS) : Prop :=
  cwd w' = cwd w /\
  (forall k, is_file w k = true -> is_file w' k = true) /\
  (forall k, is_dir w k = true -> is_dir w' k = true).

(** Every ancestor of a file or directory is a directory. *)
Definition wf (fs : FS) : Prop :=
  forall k, is_file fs k || is_dir fs k = true ->
  forall a, a ∈ prefixes (removelast k) -> a ∈ dirs fs.

(** From [w] to [w'] nothing was removed and no file was written in place:
    the working directory and the read-only directories are the same,
    every directory is still there, the journal grew by the paths [l] that a
    temporary file was renamed onto, each of them holds a file, and every
    other path holds what it held. *)
Definition only_renamed (w w' : FS) : Prop :=
  cwd w' = cwd w /\ denied w' = denied w /\ dirs w ⊆ dirs w' /\
  exists l, renames w' = l ++ renames w /\
    (forall k, k ∈ l -> is_Some (files w' !! k)) /\
    (forall k, k ∉ l -> files w' !! k = files w !! k).

(** The files and the journal after one write: as they were, or with the
    content [c] renamed onto the path [k]. *)
Definition unchanged (w w' : FS) : Prop :=
  files w' = files w /\ renames w' = renames w.
Definition written (k : list string) (c : content) (w w' : FS) : Prop :=
  files w' = <[k := c]> (files w) /\ renames w' = k :: renames w.

(** Every file of [w] at a path outside [but] is a file of [w'], with the
    content it had. *)
Definition files_kept (but : list (list string)) (w w' : FS) : Prop :=
  forall k c, k ∉ but -> files w !! k = Some c -> files w' !! k = Some c.

Section WithEnv.
Variable env : Env.

Definition text_of (c : content) : string :=
  match c with Bytes d => d | JsonText v => json_dumps env v end.
Definition content_size (c : content) : nat := String.length (text_of c).

(** [json.loads] of a file's text *)
Definition json_loads (c : content) : Py.outcome Py.pyval :=
  match c with JsonText v => Py.Ok v | Bytes _ => Py.Raise Py.JSONDecodeError end.

(** [p.exists()] *)
Definition exists_ (fs : FS) (p : PyPath.Path) : bool :=
  let k := PyPath.key (cwd fs) p in is_file fs k || is_dir fs k.

(** [p.stat().st_size] *)
Definition st_size (fs : FS) (p : PyPath.Path) : Py.outcome nat :=
  let k := PyPath.key (cwd fs) p in
  match files fs !! k with
  | Some c => Py.Ok (content_size c)
  | None => if is_dir fs k then Py.Ok (dir_size env) else Py.Raise Py.FileNotFoundError
  end.

(** [p.read_text()] / [p.open("rb")] then reading to the end *)
Definition read_file (fs : FS) (p : PyPath.Path) : Py.outcome content :=
  let k := PyPath.key (cwd fs) p in
  match files fs !! k with
  | Some c => Py.Ok c
  | None => if is_dir fs k then Py.Raise Py.IsADirectoryError
            else Py.Raise Py.FileNotFoundError
  end.

(** [p.mkdir(parents=True, exist_ok=True)] *)
Definition mkdir_p (p : PyPath.Path) : Py.M FS unit := fun fs =>
  let k := PyPath.key (cwd fs) p in
  if is_dir fs k then (Py.Ok tt, fs)
  else if is_file fs k then (Py.Raise Py.FileExistsError, fs)
  else if existsb (is_file fs) (prefixes k) then (Py.Raise Py.NotADirectoryError, fs)
  else (Py.Ok tt, set_dirs (fun d => d ∪ list_to_set (prefixes k)) fs).

(** [tempfile.NamedTemporaryFile(..., delete=False, dir=str(d))]: the file
    is created in [d]; its name is of no concern once it is renamed. *)
Definition open_temp_in (d : PyPath.Path) : Py.M FS unit := fun fs =>
  let k := PyPath.key (cwd fs) d in
  if negb (is_dir fs k) then (Py.Raise Py.FileNotFoundError, fs)
  else if bool_decide (k ∈ denied fs) then (Py.Raise Py.PermissionError, fs)
  else (Py.Ok tt, fs).

(** [tmp_path.replace(dest)] for a temporary file that holds [c] *)
Definition replace_onto (dest : PyPath.Path) (c : content) : Py.M FS unit := fun fs =>
  let k := PyPath.key (cwd fs) dest in
  if is_dir fs k then (Py.Raise Py.IsADirectoryError, fs)
  else (Py.Ok tt, renamed_onto k c fs).

(** [atomic_write_text(dest, content)] of the three scripts, taken as one
    step per system call; the temporary file is not shown (module [Atomic]
    below follows it write by write). *)
Definition atomic_write (dest : PyPath.Path) (c : content) : Py.M FS unit :=
  mkdir_p (PyPath.parent dest) ;;;
  open_temp_in (PyPath.parent dest) ;;;
  replace_onto dest c.

Definition atomic_write_text (dest : PyPath.Path) (text : string) : Py.M FS unit :=
  atomic_write dest (Bytes text).

(** [copy_file_atomic(src, dest)] of the two exporters *)
Definition copy_file_atomic (src dest : PyPath.Path) : Py.M FS unit :=
  mkdir_p (PyPath.parent dest) ;;;
  open_temp_in (PyPath.parent dest) ;;;
  fs <- Py.get ;;
  c <- Py.lift (read_file fs src) ;;
  replace_onto dest c.

(** [file_same_size(src, dest)] of the two exporters *)
Definition file_same_size (fs : FS) (src dest : PyPath.Path) : Py.outcome bool :=
  match st_size fs src with
  | Py.Ok a =>
      match st_size fs dest with
      | Py.Ok b => Py.Ok (a =? b)
      | Py.Raise Py.FileNotFoundError => Py.Ok false
      | Py.Raise e => Py.Raise e
      end
  | Py.Raise Py.FileNotFoundError => Py.Ok false
  | Py.Raise e => Py.Raise e
  end.

(** [atomic_copy_file(src, dest)] of the copier: [True] if copied, [False]
    if skipped. *)
Definition atomic_copy_file (src dest : PyPath.Path) : Py.M FS bool :=
  fs0 <- Py.get ;;
  if negb (exists_ fs0 src) then Py.ret false else
  mkdir_p (PyPath.parent dest) ;;;
  fs <- Py.get ;;
  same <- (if exists_ fs dest
           then a <- Py.lift (st_size fs src) ;;
                b <- Py.lift (st_size fs dest) ;;
                Py.ret (a =? b)
           else Py.ret false) ;;
  if (same : bool) then Py.ret false else
  open_temp_in (PyPath.parent dest) ;;;
  c <- Py.lift (read_file fs src) ;;
  replace_onto dest c ;;;
  Py.ret true.

End WithEnv.
End FileSys.

(** ** PathResolver: the two normalisers *)
Module Resolver.
Import PyStr.
Section WithEnv.
Variable env : Env.

Definition backslash : string := String (ascii_of_nat 92) EmptyString.

(** The folder part both normalisers start from: a [file://] URL gives its
    path (or, when that is empty, what follows the scheme), percent-decoded. *)
Definition folder_of_url (folder : string) : Py.outcome string :=
  Py.obind (urlparse_path env folder) (fun parsed_path =>
  let path_str := if is_empty parsed_path then drop 7 folder else parsed_path in
  Py.Ok (unquote path_str)).

(** The [if folder_path: ... else: ...] block of [normalize_rekordbox_path]. *)
Definition construct_full_path (folder_path filename : string) : string :=
  if negb (is_empty folder_path) then
    let folder_path :=
      if negb (endswith folder_path "/") then folder_path +:+ "/" else folder_path in
    if endswith folder_path ("/" +:+ filename) then
      rstrip_char PyPath.slash folder_path
    else if endswith folder_path (filename +:+ "/" +:+ filename) then
      rstrip_char PyPath.slash (replace ("/" +:+ filename) "" folder_path)
    else if contains ("/" +:+ filename +:+ "/") folder_path then
      let parts := split ("/" +:+ filename +:+ "/") folder_path in
      List.hd "" parts +:+ "/" +:+ filename
    else folder_path +:+ filename
  else filename.

(** The body of the [try] of [normalize_rekordbox_path]. *)
Definition normalize_try (fs : FileSys.FS) (folder filename : string)
  : Py.outcome (option PyPath.Path) :=
  let filename := unquote filename in
  Py.obind
    (if startswith folder "file://" then folder_of_url folder
     else Py.Ok (if negb (is_empty folder) then unquote folder else ""))
    (fun folder_path =>
  let full_path := construct_full_path folder_path filename in
  let path := PyPath.of_str full_path in
  let path :=
    if negb (FileSys.exists_ fs path) && contains backslash full_path
    then PyPath.of_str (replace backslash "/" full_path)
    else path in
  Py.Ok (Some (if FileSys.exists_ fs path
               then PyPath.resolve (FileSys.cwd fs) path else path))).

(** [normalize_rekordbox_path(folder, filename) -> Optional[Path]] of the
    copier.  [None] is Python's [None]. *)
Definition normalize_rekordbox_path (fs : FileSys.FS) (folder filename : string)
  : option PyPath.Path :=
  let folder := strip folder in
  let filename := strip filename in
  if is_empty filename then None
  else
    match normalize_try fs folder filename with
    | Py.Ok r => r
    | Py.Raise _ => None  (* except Exception: print a warning; return None *)
    end.

(** The string [full] that [_normalize_rb_path] hands to [Path]. *)
Definition rb_full (folder_path name : string) : string :=
  let folder_path :=
    if negb (is_empty folder_path) && negb (endswith folder_path "/")
    then folder_path +:+ "/" else folder_path in
  if endswith folder_path ("/" +:+ name) then folder_path
  else folder_path +:+ name.

(** [RekordboxUSBExporter._normalize_rb_path(folder, name) -> Path] of the
    exporter; [urlparse] is called outside any [try]. *)
Definition _normalize_rb_path (fs : FileSys.FS) (folder name : string)
  : Py.outcome PyPath.Path :=
  let folder := strip folder in
  let name := strip name in
  let name := unquote name in
  Py.obind
    (if startswith folder "file://" then folder_of_url folder
     else Py.Ok (unquote folder))
    (fun folder_path =>
  let full := rb_full folder_path name in
  Py.Ok (PyPath.resolve (FileSys.cwd fs) (PyPath.of_str full))).

End WithEnv.
End Resolver.

(** ** CollectionGraph: the hierarchy walks *)
Module Graph.
Import PyStr.

(** A row of [djmdPlaylist]: [PlaylistNode] of the exporter, and the
    [ID], [Name], [ParentID] the copier reads.  An absent parent is [None]. *)
Record PlaylistNode : Type := mkNode {
  id : string;
  name : string;
  parent_id : option string
}.

(** [{p.id: p for p in result}]: a later row replaces an earlier one. *)
Definition build_index (rows : list PlaylistNode) : gmap string PlaylistNode :=
  fold_left (fun m p => <[id p := p]> m) rows ∅.

(** [not cur.parent_id]: [None] and the empty string are falsy. *)
Definition parent_falsy (p : option string) : bool :=
  match p with None => true | Some s => is_empty s end.

(** [str(cur.parent_id)] *)
Definition parent_str (p : option string) : string :=
  match p with None => "None" | Some s => s end.

(** The [while] loop of [RekordboxUSBExporter.playlist_path]; one unit of
    [fuel] per test of the loop condition, [None] when it runs out. *)
Fixpoint path_walk (fuel : nat) (id_to_node : gmap string PlaylistNode)
  (cur : option PlaylistNode) (visited : gset string) (parts : list string)
  : option (list string) :=
  match fuel with
  | O => None
  | S fuel' =>
      match cur with
      | None => Some parts
      | Some c =>
          if bool_decide (id c ∈ visited) then Some parts
          else
            let visited := {[id c]} ∪ visited in
            let parts := parts ++ [name c] in
            if parent_falsy (parent_id c) || String.eqb (parent_str (parent_id c)) "root"
            then Some parts
            else path_walk fuel' id_to_node
                   (id_to_node !! parent_str (parent_id c)) visited parts
      end
  end.

(** The names from the node up to its top-most ancestor, as the loop of
    [playlist_path] collects them, for the index of [rows]. *)
Definition path_parts (rows : list PlaylistNode) (playlist_id : string)
  : option (list string) :=
  let id_to_node := build_index rows in
  path_walk (S (length rows)) id_to_node (id_to_node !! playlist_id) ∅ [].

(** [RekordboxUSBExporter.playlist_path]: the directory and the display
    name. *)
Definition playlist_path (rows : list PlaylistNode) (playlist_id : string)
  : PyPath.Path * string :=
  let parts := rev (default [] (path_parts rows playlist_id)) in
  match parts with
  | [] => (PyPath.of_str ".", playlist_id)
  | _ => (PyPath.of_parts (removelast parts), List.last parts "")
  end.

(** The [while] loop of [RekordboxPlaylistCopier.get_all_playlists]. *)
Fixpoint full_path_walk (fuel : nat) (id_to_node : gmap string PlaylistNode)
  (current_id : option string) (visited : gset string) (path_parts : list string)
  : option (list string) :=
  match fuel with
  | O => None
  | S fuel' =>
      match current_id with
      | None => Some path_parts
      | Some cid =>
          if is_empty cid || String.eqb cid "root" || bool_decide (cid ∈ visited)
          then Some path_parts
          else
            let visited := {[cid]} ∪ visited in
            match id_to_node !! cid with
            | Some current_node =>
                full_path_walk fuel' id_to_node
                  (if parent_falsy (parent_id current_node) then None
                   else Some (parent_str (parent_id current_node)))
                  visited (path_parts ++ [name current_node])
            | None => Some path_parts
            end
      end
  end.

Definition full_path_parts (rows : list PlaylistNode) (node_id : string)
  : option (list string) :=
  full_path_walk (S (length rows)) (build_index rows) (Some node_id) ∅ [].

(** [full_path] of the copier's [PlaylistInfo] for the row [node]. *)
Definition full_path (rows : list PlaylistNode) (node : PlaylistNode) : string :=
  let path_parts := rev (default [] (full_path_parts rows (id node))) in
  match path_parts with
  | [] => name node
  | _ => join " / " path_parts
  end.

(** Every row sits under its own id: what [build_index] guarantees. *)
Definition index_ok (m : gmap string PlaylistNode) : Prop :=
  forall k p, m !! k = Some p -> id p = k.

End Graph.

(** ** ManifestWriter: relative paths and the two M3U8 builders *)
Module Manifest.
Import PyStr.

Definition nl : string := String (ascii_of_nat 10) EmptyString.

(** [len(os.path.commonprefix([a, b]))] on two lists of segments *)
Fixpoint common_len (a b : list string) : nat :=
  match a, b with
  | x :: a', y :: b' => if String.eqb x y then S (common_len a' b') else 0
  | _, _ => 0
  end.

(** The list [rel_list] of [os.path.relpath(path, start)]: both arguments
    are made absolute and normalised, the common prefix is dropped and one
    [..] is put for every segment left of [start]. *)
Definition rel_list (cwd : list string) (path start : PyPath.Path) : list string :=
  let start_list := PyPath.key cwd start in
  let path_list := PyPath.key cwd path in
  let i := common_len start_list path_list in
  repeat ".." (length start_list - i) ++ List.skipn i path_list.

(** [os.path.relpath(path, start)] *)
Definition relpath (cwd : list string) (path start : PyPath.Path) : string :=
  match rel_list cwd path start with
  | [] => "."
  | l => join "/" l
  end.

(** [build_m3u8(playlist_name, tracks)] of the exporter: each path line is
    [str(abs_path)]. *)
Definition build_m3u8_lines (playlist_name : string)
  (tracks : list (string * PyPath.Path)) : list string :=
  ["#EXTM3U"; "# " +:+ playlist_name +:+ " - Exported from Rekordbox"] ++
  flat_map (fun '(title, abs_path) =>
              let safe_title := if negb (is_empty title) then title
                                else PyPath.name abs_path in
              ["#EXTINF:0," +:+ safe_title; PyPath.to_str abs_path]) tracks.

Definition build_m3u8 (playlist_name : string)
  (tracks : list (string * PyPath.Path)) : string :=
  join nl (build_m3u8_lines playlist_name tracks) +:+ nl.

End Manifest.

(** ** The catalog, as the scripts read it through pyrekordbox *)
Module Catalog.

(** A row of [DjmdSongPlaylist] joined with [DjmdContent]; an absent
    column is the empty string (the scripts read each as [x or ...]). *)
Record SongRow : Type := mkSong {
  Title : string;
  ArtistName : string;
  FileNameL : string;
  FileNameS : string;
  FolderPath : string
}.

Record DB : Type := mkDB {
  (** a database directory exists under [~/Library/Pioneer] and opens *)
  connects : bool;
  (** [db.get_playlist().all()] *)
  playlist_rows : list Graph.PlaylistNode;
  (** the [PlaylistID]s of [DjmdSmartList]; the query may raise *)
  smart_rows : Py.outcome (list string);
  (** the rows of a playlist, by [TrackNo]; [int(playlist_id)] or the query
      may raise *)
  song_rows : string -> Py.outcome (list SongRow)
}.

End Catalog.

(** ** The copier: [RekordboxPlaylistCopier] of
    [copy_rekordbox_playlists_to_usb.py] *)
Module Copier.
Import PyStr Py.

Record PlaylistInfo : Type := mkPlaylistInfo {
  id : string;
  name : string;
  parent_id : string;
  full_path : string;
  track_count : nat;
  is_smart : bool;
  is_folder : bool
}.

Record TrackInfo : Type := mkTrackInfo {
  title : string;
  artist : string;
  original_path : PyPath.Path;
  relative_path : string;
  file_size : nat;
  exists_ : bool
}.

(** The constructor's arguments. *)
Record Config : Type := mkConfig {
  usb_path : string;
  test_mode : bool;
  resume : bool
}.

(** The object's mutable attributes and the world it acts on.  [stats] is
    the attribute dictionary of the [CopyStats] instance; [log] is what
    [self.log] has printed and appended to [copy_log.txt]; [clock] is the
    reading [datetime.now()] returns next. *)
Record T : Type := mkT {
  state : pyval;
  stats : list (string * pyval);
  smart_playlist_ids : list string;
  fs : FileSys.FS;
  log : list string;
  clock : nat
}.

Definition set_state (v : pyval) (self : T) : T :=
  mkT v (stats self) (smart_playlist_ids self) (fs self) (log self) (clock self).
Definition set_stats (v : list (string * pyval)) (self : T) : T :=
  mkT (state self) v (smart_playlist_ids self) (fs self) (log self) (clock self).
Definition set_smart (v : list string) (self : T) : T :=
  mkT (state self) (stats self) v (fs self) (log self) (clock self).
Definition set_fs (v : FileSys.FS) (self : T) : T :=
  mkT (state self) (stats self) (smart_playlist_ids self) v (log self) (clock self).

(** [CopyStats()] *)
Definition CopyStats0 : list (string * pyval) :=
  [("playlists_total", VInt 0); ("playlists_completed", VInt 0);
   ("playlists_skipped", VInt 0); ("playlists_failed", VInt 0);
   ("tracks_total", VInt 0); ("tracks_copied", VInt 0);
   ("tracks_skipped", VInt 0); ("tracks_failed", VInt 0);
   ("bytes_copied", VInt 0)].

(** [self.state] as [__init__] leaves it *)
Definition state0 : pyval :=
  VDict [("version", VInt 1); ("playlists", VDict []); ("stats", VDict [])].

(** The counters are integers: what [CopyStats()] starts with, and what a
    state file written by the copier restores. *)
Definition stats_int (st : list (string * pyval)) : Prop :=
  forall k, k ∈ List.map fst CopyStats0 -> exists z, assoc_get st k = Some (VInt z).

(** The reading of an integer counter. *)
Definition counter (st : list (string * pyval)) (k : string) : Z :=
  match assoc_get st k with Some (VInt z) => z | _ => 0%Z end.

(** The status dictionary of a playlist in [self.state]. *)
Definition entry_of (state : pyval) (playlist_id : string) : outcome pyval :=
  obind (py_get state "playlists" (VDict [])) (fun playlists =>
  py_get playlists playlist_id (VDict [])).

(** A new copier in the world [(fs, log, clock)]. *)
Definition init (w : FileSys.FS) (lg : list string) (clk : nat) : T :=
  mkT state0 CopyStats0 [] w lg clk.

Definition dquote : string := String (ascii_of_nat 34) EmptyString.

(** [safe_filename(name)] *)
Definition safe_filename (name : string) : string :=
  let safe := replace ":" "-" (replace Resolver.backslash "_" (replace "/" "_" name)) in
  let safe := replace "|" "-" (replace ">" ")" (replace "<" "(" safe)) in
  let safe := replace dquote "'" (replace "*" "" (replace "?" "" safe)) in
  take 100 (strip safe).

(** What a stretch of the track loop adds to the four track counters; the
    playlist counters stay. *)
Definition counted (s s' : T) (total copied skipped failed : Z) : Prop :=
  counter (stats s') "tracks_total" = (counter (stats s) "tracks_total" + total)%Z /\
  counter (stats s') "tracks_copied" = (counter (stats s) "tracks_copied" + copied)%Z /\
  counter (stats s') "tracks_skipped" = (counter (stats s) "tracks_skipped" + skipped)%Z /\
  counter (stats s') "tracks_failed" = (counter (stats s) "tracks_failed" + failed)%Z /\
  (forall k, k ∈ ["playlists_total"; "playlists_completed"; "playlists_skipped";
                  "playlists_failed"] ->
     counter (stats s') k = counter (stats s) k).

(** Between [s] and [s'] only the log and the clock moved. *)
Definition same_but_log (s s' : T) : Prop :=
  state s' = state s /\ stats s' = stats s /\
  smart_playlist_ids s' = smart_playlist_ids s /\ fs s' = fs s.

(** The characters [safe_filename] replaces or removes. *)
Definition unsafe_chars : list ascii :=
  ["/"%char; ascii_of_nat 92; ":"%char; "<"%char; ">"%char; "|"%char; "?"%char;
   "*"%char; ascii_of_nat 34].

Section WithEnv.
Variable env : Env.
Variable db : Catalog.DB.
Variable cfg : Config.

(** The working directory never changes, so the paths of [__init__] are
    read off the file system the copier starts in. *)
Definition usb_root (w : FileSys.FS) : PyPath.Path :=
  PyPath.resolve (FileSys.cwd w) (PyPath.of_str (usb_path cfg)).
Definition music_root (w : FileSys.FS) : PyPath.Path :=
  PyPath.joinpath (usb_root w) (PyPath.of_str "ALLDJ_MUSIC").
Definition playlists_root (w : FileSys.FS) : PyPath.Path :=
  PyPath.joinpath (usb_root w) (PyPath.of_str "PLAYLISTS").
Definition state_file (w : FileSys.FS) : PyPath.Path :=
  PyPath.joinpath (usb_root w) (PyPath.of_str ".rekordbox_copy_state.json").
(** [self.log_file]: the file [self.log] appends to in place.  Its lines
    are the field [log] of the object, not a file of [fs], so a statement
    about the files of a run leaves this path out. *)
Definition log_file (w : FileSys.FS) : PyPath.Path :=
  PyPath.joinpath (usb_root w) (PyPath.of_str "copy_log.txt").

Definition base_paths : list PyPath.Path :=
  [PyPath.of_str "/Users/ethansarif-kattan/Music/ALLDJ";
   PyPath.of_str "/Users/ethansarif-kattan/Music";
   PyPath.of_str "/Volumes/T7";
   PyPath.of_str "/Volumes/T7 Shield";
   PyPath.joinpath (home env) (PyPath.of_str "Music");
   PyPath.joinpath (home env) (PyPath.of_str "Desktop");
   PyPath.of_str "/Users/ethansarif-kattan"].

(** [self.log(message, level)] *)
Definition log_ (message level : string) : M T unit :=
  modify (fun self =>
    mkT (state self) (stats self) (smart_playlist_ids self) (fs self)
        (log self ++ ["[" +:+ strftime env (clock self) +:+ "] " +:+ level
                      +:+ ": " +:+ message])
        (S (clock self))).

(** Running a file-system step on [self.fs]. *)
Definition on_fs {A} (m : M FileSys.FS A) : M T A := fun self =>
  let '(r, w) := m (fs self) in (r, set_fs w self).

(** [self.stats.<key> += n] *)
Definition stat_add (key : string) (n : Z) : M T unit := fun self =>
  match assoc_get (stats self) key with
  | None => (Raise AttributeError, self)
  | Some v =>
      match py_add v n with
      | Ok v' => (Ok tt, set_stats (assoc_set (stats self) key v') self)
      | Raise e => (Raise e, self)
      end
  end.

(** [for key, value in stored_stats.items(): if hasattr(self.stats, key):
    setattr(self.stats, key, value)] *)
Definition restore_stats (stored : list (string * pyval))
  (st : list (string * pyval)) : list (string * pyval) :=
  fold_left (fun acc '(k, v) =>
               match assoc_get acc k with
               | Some _ => assoc_set acc k v
               | None => acc
               end) stored st.

(** [load_state] *)
Definition load_state : M T unit :=
  self <- get ;;
  if resume cfg && FileSys.exists_ (fs self) (state_file (fs self)) then
    try_except
      (c <- lift (FileSys.read_file (fs self) (state_file (fs self))) ;;
       v <- lift (FileSys.json_loads c) ;;
       modify (set_state v) ;;;
       stored_stats <- lift (py_get v "stats" (VDict [])) ;;
       match stored_stats with
       | VDict items =>
           modify (fun self => set_stats (restore_stats items (stats self)) self) ;;;
           log_ "Loaded previous state for resuming" "INFO"
       | _ => raise AttributeError
       end)
      (fun e => log_ ("Warning: Could not load state file: " +:+ exn_str e) "WARN")
  else ret tt.

(** [save_state] *)
Definition save_state : M T unit :=
  if negb (resume cfg) then ret tt else
  self <- get ;;
  st1 <- lift (py_setitem (state self) "stats" (VDict (stats self))) ;;
  st2 <- lift (py_setitem st1 "timestamp" (VStr (isoformat env (clock self)))) ;;
  modify (fun self =>
    mkT st2 (stats self) (smart_playlist_ids self) (fs self) (log self)
        (S (clock self))) ;;;
  try_except
    (on_fs (FileSys.atomic_write (state_file (fs self)) (FileSys.JsonText st2)))
    (fun e => log_ ("Warning: Could not save state: " +:+ exn_str e) "WARN").

(** [detect_smart_playlists] *)
Definition detect_smart_playlists : M T unit :=
  match Catalog.smart_rows db with
  | Ok ids =>
      modify (set_smart ids) ;;;
      log_ "Detected smart playlists" "INFO"
  | Raise e =>
      log_ ("Warning: Could not detect smart playlists: " +:+ exn_str e) "WARN" ;;;
      modify (set_smart [])
  end.

(** [calculate_relative_path(source_path, base_paths)] *)
Definition calculate_relative_path (cwd : list string) (source_path : PyPath.Path)
  : string :=
  let source_resolved := PyPath.resolve cwd source_path in
  match
    List.find
      (fun base => bool_decide
         (is_Some (PyPath.relative_to source_resolved (PyPath.resolve cwd base))))
      base_paths
  with
  | Some base =>
      match PyPath.relative_to source_resolved (PyPath.resolve cwd base) with
      | Some rel_path => PyPath.to_str rel_path
      | None => PyPath.name source_resolved
      end
  | None =>
      let parts := PyPath.parts source_resolved in
      if 1 <? length parts then
        let volume := if startswith (List.nth 0 parts "") "/"
                      then List.nth 0 parts "" else List.nth 1 parts "" in
        let volume_safe := safe_filename (replace "/" "" volume) in
        volume_safe +:+ "/" +:+ PyPath.name source_resolved
      else PyPath.name source_resolved
  end.

Definition or_unknown (s : string) : string :=
  if negb (is_empty s) then s else "Unknown".

(** One turn of the [for sp, ct in rows] loop of [get_playlist_tracks]:
    [None] when the turn ends in [continue]. *)
Definition track_of_row (w : FileSys.FS) (ct : Catalog.SongRow) : option TrackInfo :=
  let title := strip (or_unknown (Catalog.Title ct)) in
  let artist := strip (or_unknown (Catalog.ArtistName ct)) in
  let filename :=
    strip (if negb (is_empty (Catalog.FileNameL ct)) then Catalog.FileNameL ct
           else Catalog.FileNameS ct) in
  let folder := strip (Catalog.FolderPath ct) in
  match Resolver.normalize_rekordbox_path env w folder filename with
  | None => None
  | Some original_path =>
      let rel_path := calculate_relative_path (FileSys.cwd w) original_path in
      let '(size, found) :=
        if FileSys.exists_ w original_path then
          match FileSys.st_size env w original_path with
          | Ok n => (n, true)
          | Raise _ => (0, false)
          end
        else (0, false) in
      Some (mkTrackInfo title artist original_path rel_path size found)
  end.

(** [get_playlist_tracks(playlist_id)] *)
Definition get_playlist_tracks (playlist_id : string) : M T (list TrackInfo) :=
  self <- get ;;
  match Catalog.song_rows db playlist_id with
  | Ok rows => ret (omap (track_of_row (fs self)) rows)
  | Raise e =>
      log_ ("Error getting tracks for playlist " +:+ playlist_id +:+ ": "
            +:+ exn_str e) "ERROR" ;;;
      ret []
  end.

(** The catalog lists at least one usable track for the row [node]. *)
Definition has_tracks (w : FileSys.FS) (node : Graph.PlaylistNode) : bool :=
  match Catalog.song_rows db (Graph.id node) with
  | Ok rows => 0 <? length (omap (track_of_row w) rows)
  | Raise _ => false
  end.

(** Every row with tracks has a truthy [completed] flag in [st]. *)
Definition all_completed (w : FileSys.FS) (st : pyval) : bool :=
  forallb (fun node => implb (has_tracks w node) (is_completed st (Graph.id node)))
          (Catalog.playlist_rows db).

(** The [PlaylistInfo] the loop of [get_all_playlists] builds for a row
    that is no smart playlist: the track count is what [get_playlist_tracks]
    returns, nothing when the query raises. *)
Definition info_for (w : FileSys.FS) (node : Graph.PlaylistNode) : PlaylistInfo :=
  let n := match Catalog.song_rows db (Graph.id node) with
           | Ok rows => length (omap (track_of_row w) rows)
           | Raise _ => 0
           end in
  mkPlaylistInfo (Graph.id node) (Graph.name node)
    (Graph.parent_str (Graph.parent_id node))
    (Graph.full_path (Catalog.playlist_rows db) node) n false (n =? 0).

(** One turn of the [for node in all_nodes] loop of [get_all_playlists]. *)
Definition playlist_info_of (node : Graph.PlaylistNode) : M T (option PlaylistInfo) :=
  self <- get ;;
  let node_id := Graph.id node in
  if bool_decide (node_id ∈ smart_playlist_ids self) then ret None else
  let full_path := Graph.full_path (Catalog.playlist_rows db) node in
  tracks <- get_playlist_tracks node_id ;;
  let track_count := length tracks in
  ret (Some (mkPlaylistInfo node_id (Graph.name node)
               (Graph.parent_str (Graph.parent_id node)) full_path track_count
               false (track_count =? 0))).

Fixpoint collect_infos (nodes : list Graph.PlaylistNode) : M T (list PlaylistInfo) :=
  match nodes with
  | [] => ret []
  | node :: rest =>
      o <- playlist_info_of node ;;
      infos <- collect_infos rest ;;
      ret (match o with Some i => i :: infos | None => infos end)
  end.

(** [get_all_playlists] *)
Definition get_all_playlists : M T (list PlaylistInfo) :=
  log_ "Scanning all playlists..." "INFO" ;;;
  playlists <- collect_infos (Catalog.playlist_rows db) ;;
  let actual_playlists :=
    List.filter (fun p => negb (is_folder p) && (0 <? track_count p)) playlists in
  log_ "Found actual playlists" "INFO" ;;;
  ret actual_playlists.

(** [create_m3u8_playlist(playlist, tracks, playlist_file)] *)
Definition m3u8_lines (cwd : list string) (now : nat) (playlist : PlaylistInfo)
  (tracks : list (TrackInfo * PyPath.Path)) (playlist_file : PyPath.Path)
  : list string :=
  ["#EXTM3U"; "# " +:+ name playlist;
   "# Exported from Rekordbox on " +:+ strftime env now;
   "# Original path: " +:+ full_path playlist; ""] ++
  flat_map (fun '(track, dest_path) =>
              ["#EXTINF:-1," +:+ artist track +:+ " - " +:+ title track;
               Manifest.relpath cwd dest_path (PyPath.parent playlist_file)])
           tracks.

Definition create_m3u8_playlist (playlist : PlaylistInfo)
  (tracks : list (TrackInfo * PyPath.Path)) (playlist_file : PyPath.Path)
  : M T unit :=
  self <- get ;;
  let lines := m3u8_lines (FileSys.cwd (fs self)) (clock self) playlist tracks
                 playlist_file in
  modify (fun self =>
    mkT (state self) (stats self) (smart_playlist_ids self) (fs self) (log self)
        (S (clock self))) ;;;
  on_fs (FileSys.atomic_write_text playlist_file
           (join Manifest.nl lines +:+ Manifest.nl)).

(** The three accumulators of the track loop of [copy_playlist]. *)
Record Acc : Type := mkAcc {
  copied_tracks : list (TrackInfo * PyPath.Path);
  tracks_copied_count : nat;
  tracks_failed_count : nat
}.

(** One turn of [for track in tracks] *)
Definition copy_track (acc : Acc) (track : TrackInfo) : M T Acc :=
  stat_add "tracks_total" 1 ;;;
  if negb (exists_ track) then
    log_ ("Missing file: " +:+ PyPath.to_str (original_path track)) "WARN" ;;;
    stat_add "tracks_failed" 1 ;;;
    ret (mkAcc (copied_tracks acc) (tracks_copied_count acc)
               (S (tracks_failed_count acc)))
  else
    self <- get ;;
    let dest_path :=
      PyPath.joinpath (music_root (fs self)) (PyPath.of_str (relative_path track)) in
    try_except
      (was_copied <- on_fs (FileSys.atomic_copy_file env (original_path track)
                              dest_path) ;;
       n <- (if (was_copied : bool) then
               log_ ("Copied: " +:+ title track) "INFO" ;;;
               stat_add "tracks_copied" 1 ;;;
               stat_add "bytes_copied" (Z.of_nat (file_size track)) ;;;
               ret (S (tracks_copied_count acc))
             else
               log_ ("Exists: " +:+ title track) "INFO" ;;;
               stat_add "tracks_skipped" 1 ;;;
               ret (tracks_copied_count acc)) ;;
       ret (mkAcc (copied_tracks acc ++ [(track, dest_path)]) n
                  (tracks_failed_count acc)))
      (fun e =>
         log_ ("Failed to copy " +:+ title track +:+ ": " +:+ exn_str e) "ERROR" ;;;
         stat_add "tracks_failed" 1 ;;;
         ret (mkAcc (copied_tracks acc) (tracks_copied_count acc)
                    (S (tracks_failed_count acc)))).

Fixpoint copy_tracks (acc : Acc) (tracks : list TrackInfo) : M T Acc :=
  match tracks with
  | [] => ret acc
  | track :: rest => acc' <- copy_track acc track ;; copy_tracks acc' rest
  end.

(** The file the manifest of [playlist] goes to. *)
Definition playlist_file_of (w : FileSys.FS) (playlist : PlaylistInfo) : PyPath.Path :=
  let safe_path :=
    PyPath.of_parts (List.map safe_filename (split " / " (full_path playlist))) in
  let playlist_dir :=
    if bool_decide (PyPath.parent safe_path <> PyPath.of_str ".")
    then PyPath.joinpath (playlists_root w) (PyPath.parent safe_path)
    else playlists_root w in
  PyPath.joinpath playlist_dir
    (PyPath.of_str (safe_filename (name playlist) +:+ ".m3u8")).

(** The record [copy_playlist] stores for a finished playlist. *)
Definition completed_record (playlist : PlaylistInfo) (n_tracks : nat) (acc : Acc)
  (playlist_file : PyPath.Path) : pyval :=
  VDict [("completed", VBool true); ("name", VStr (name playlist));
         ("tracks_total", VInt (Z.of_nat n_tracks));
         ("tracks_copied", VInt (Z.of_nat (tracks_copied_count acc)));
         ("tracks_failed", VInt (Z.of_nat (tracks_failed_count acc)));
         ("playlist_file", VStr (PyPath.to_str playlist_file))].

(** [self.state.setdefault("playlists", {})[playlist_id] = record] *)
Definition store_status (playlist_id : string) (record : pyval) : M T unit :=
  self <- get ;;
  st <- lift (py_setdefault_setitem (state self) "playlists" playlist_id record) ;;
  modify (set_state st).

(** [copy_playlist(playlist) -> bool] *)
Definition copy_playlist (playlist : PlaylistInfo) : M T bool :=
  log_ ("Processing playlist: " +:+ full_path playlist) "INFO" ;;;
  self <- get ;;
  completed <- lift (completed_flag (state self) (id playlist)) ;;
  if truthy completed then
    log_ "Already completed, skipping" "INFO" ;;;
    stat_add "playlists_skipped" 1 ;;;
    ret true
  else
  tracks <- get_playlist_tracks (id playlist) ;;
  match tracks with
  | [] =>
      log_ "No tracks found, skipping" "WARN" ;;;
      stat_add "playlists_skipped" 1 ;;;
      ret false
  | _ =>
      let playlist_file := playlist_file_of (fs self) playlist in
      acc <- copy_tracks (mkAcc [] 0 0) tracks ;;
      ok <- (match copied_tracks acc with
             | [] => ret true
             | _ =>
                 try_except
                   (create_m3u8_playlist playlist (copied_tracks acc) playlist_file ;;;
                    log_ ("Created playlist: " +:+ PyPath.name playlist_file) "INFO" ;;;
                    ret true)
                   (fun e =>
                      log_ ("Failed to create playlist file: " +:+ exn_str e) "ERROR" ;;;
                      ret false)
             end) ;;
      if negb ok then ret false else
      store_status (id playlist)
        (completed_record playlist (length tracks) acc playlist_file) ;;;
      stat_add "playlists_completed" 1 ;;;
      save_state ;;;
      ret true
  end.

(** [print_stats]: the only line that can fail formats
    [self.stats.bytes_copied / (1024**3)]. *)
Definition print_stats : M T unit :=
  self <- get ;;
  match assoc_get (stats self) "bytes_copied" with
  | Some (VInt _) | Some (VBool _) => ret tt
  | _ => raise TypeError
  end.

(** One turn of [for i, playlist in enumerate(playlists, 1)] of [run] *)
Definition run_one (n_playlists i : nat) (playlist : PlaylistInfo) : M T unit :=
  log_ ("Starting: " +:+ name playlist) "INFO" ;;;
  try_except
    (success <- copy_playlist playlist ;;
     if negb success then stat_add "playlists_failed" 1 else ret tt)
    (fun e =>
       log_ ("Failed to process playlist " +:+ name playlist +:+ ": "
             +:+ exn_str e) "ERROR" ;;;
       stat_add "playlists_failed" 1) ;;;
  if (i mod 10 =? 0) then print_stats else ret tt.

Fixpoint run_loop (n_playlists i : nat) (playlists : list PlaylistInfo) : M T unit :=
  match playlists with
  | [] => ret tt
  | playlist :: rest =>
      run_one n_playlists i playlist ;;;
      run_loop n_playlists (S i) rest
  end.

(** [run]: the body of the outer [try]; its [except] logs and re-raises. *)
Definition run_body : M T unit :=
  self <- get ;;
  (if negb (FileSys.exists_ (fs self) (usb_root (fs self)))
   then raise (Exception_ "USB path not found") else ret tt) ;;;
  on_fs (FileSys.mkdir_p (music_root (fs self))) ;;;
  on_fs (FileSys.mkdir_p (playlists_root (fs self))) ;;;
  load_state ;;;
  (if Catalog.connects db then log_ "Connected successfully" "INFO"
   else raise (Exception_ "No Rekordbox database found")) ;;;
  detect_smart_playlists ;;;
  playlists <- get_all_playlists ;;
  modify (fun self =>
    set_stats (assoc_set (stats self) "playlists_total"
                 (VInt (Z.of_nat (length playlists)))) self) ;;;
  let playlists := if test_mode cfg then List.firstn 5 playlists else playlists in
  (if test_mode cfg then log_ "TEST MODE: Processing first playlists" "INFO"
   else ret tt) ;;;
  log_ "Processing playlists..." "INFO" ;;;
  run_loop (length playlists) 1 playlists ;;;
  print_stats ;;;
  log_ "Copy operation completed!" "INFO".

Definition run : M T unit :=
  try_except run_body
    (fun e => log_ ("Fatal error: " +:+ exn_str e) "ERROR" ;;; raise e).

End WithEnv.
End Copier.

(** ** The exporter: [RekordboxUSBExporter] of
    [export_rekordbox_playlists_to_usb.py] *)
Module Exporter.
Import PyStr Py.

(** The constructor's arguments ([usb_root] is resolved by [main]). *)
Record Config : Type := mkConfig {
  usb_path : string;
  resume : bool
}.

Record T : Type := mkT {
  state : pyval;
  smart_playlist_ids : list string;
  fs : FileSys.FS
}.

Definition set_state (v : pyval) (self : T) : T :=
  mkT v (smart_playlist_ids self) (fs self).
Definition set_smart (v : list string) (self : T) : T :=
  mkT (state self) v (fs self).
Definition set_fs (v : FileSys.FS) (self : T) : T :=
  mkT (state self) (smart_playlist_ids self) v.

Definition state0 : pyval := VDict [("version", VInt 1); ("playlists", VDict [])].

(** A new exporter on the file system [w]. *)
Definition init (w : FileSys.FS) : T := mkT state0 [] w.

(** [map_src_to_usb_tree(music_root, src_abs)] *)
Definition map_src_to_usb_tree (music_root src_abs : PyPath.Path) : PyPath.Path :=
  let parts := List.filter (fun p => negb (is_empty p)) (PyPath.parts src_abs) in
  let rel :=
    match parts with
    | p0 :: rest => if String.eqb p0 "/" then PyPath.of_parts rest
                    else PyPath.of_parts parts
    | [] => PyPath.of_parts parts
    end in
  PyPath.joinpath music_root rel.

Section WithEnv.
Variable env : Env.
Variable db : Catalog.DB.
Variable cfg : Config.

Definition usb_root (w : FileSys.FS) : PyPath.Path :=
  PyPath.resolve (FileSys.cwd w) (PyPath.of_str (usb_path cfg)).
Definition music_dest_root (w : FileSys.FS) : PyPath.Path :=
  PyPath.joinpath (usb_root w) (PyPath.of_str "ALLDJ_MUSIC").
Definition playlists_root (w : FileSys.FS) : PyPath.Path :=
  PyPath.joinpath (usb_root w) (PyPath.of_str "PLAYLISTS").
Definition state_path (w : FileSys.FS) : PyPath.Path :=
  PyPath.joinpath (usb_root w) (PyPath.of_str ".alldj_export_state.json").

Definition on_fs {A} (m : M FileSys.FS A) : M T A := fun self =>
  let '(r, w) := m (fs self) in (r, set_fs w self).

(** The state file holds [self.state]. *)
Definition persisted (self : T) : Prop :=
  FileSys.files (fs self) !! PyPath.key (FileSys.cwd (fs self)) (state_path (fs self))
  = Some (FileSys.JsonText (state self)).

(** [load_state] *)
Definition load_state : M T unit :=
  self <- get ;;
  if resume cfg && FileSys.exists_ (fs self) (state_path (fs self)) then
    try_except
      (c <- lift (FileSys.read_file (fs self) (state_path (fs self))) ;;
       v <- lift (FileSys.json_loads c) ;;
       modify (set_state v))
      (fun _ => ret tt)
  else ret tt.

(** [save_state] *)
Definition save_state : M T unit :=
  if negb (resume cfg) then ret tt else
  self <- get ;;
  on_fs (FileSys.atomic_write (state_path (fs self)) (FileSys.JsonText (state self))).

(** [playlist_tracks(playlist_id)] *)
Definition track_of_row (w : FileSys.FS) (ct : Catalog.SongRow)
  : outcome (string * PyPath.Path) :=
  let name :=
    strip (if negb (is_empty (Catalog.FileNameL ct)) then Catalog.FileNameL ct
           else Catalog.FileNameS ct) in
  let title := if negb (is_empty (Catalog.Title ct)) then Catalog.Title ct else name in
  obind (Resolver._normalize_rb_path env w (Catalog.FolderPath ct) name)
    (fun src => Ok (title, src)).

Fixpoint tracks_of_rows (w : FileSys.FS) (rows : list Catalog.SongRow)
  : outcome (list (string * PyPath.Path)) :=
  match rows with
  | [] => Ok []
  | ct :: rest =>
      obind (track_of_row w ct) (fun t =>
      obind (tracks_of_rows w rest) (fun ts => Ok (t :: ts)))
  end.

Definition playlist_tracks (w : FileSys.FS) (playlist_id : string)
  : outcome (list (string * PyPath.Path)) :=
  obind (Catalog.song_rows db playlist_id) (tracks_of_rows w).

(** The status dictionaries [export] stores. *)
Definition progress_record (p : Graph.PlaylistNode) (total copied : nat) : pyval :=
  VDict [("completed", VBool false); ("tracks_total", VInt (Z.of_nat total));
         ("tracks_exported", VInt (Z.of_nat copied));
         ("name", VStr (Graph.name p))].

Definition completed_record (p : Graph.PlaylistNode) (total copied : nat)
  (m3u8_path : PyPath.Path) : pyval :=
  VDict [("completed", VBool true); ("tracks_total", VInt (Z.of_nat total));
         ("tracks_exported", VInt (Z.of_nat copied));
         ("m3u8_path", VStr (PyPath.to_str m3u8_path));
         ("name", VStr (Graph.name p))].

(** [self.state.setdefault("playlists", {})[p.id] = record] *)
Definition store_status (p : Graph.PlaylistNode) (record : pyval) : M T unit :=
  self <- get ;;
  st <- lift (py_setdefault_setitem (state self) "playlists" (Graph.id p) record) ;;
  modify (set_state st).

(** One turn of [for title, src_abs in tr]; the accumulator is
    [(exported, copied)]. *)
Definition export_track (p : Graph.PlaylistNode) (total : nat)
  (acc : list (string * PyPath.Path) * nat) (t : string * PyPath.Path)
  : M T (list (string * PyPath.Path) * nat) :=
  let '(exported, copied) := acc in
  let '(title, src_abs) := t in
  self <- get ;;
  let src_abs := PyPath.resolve (FileSys.cwd (fs self)) src_abs in
  let dest_abs := map_src_to_usb_tree (music_dest_root (fs self)) src_abs in
  acc' <- (if FileSys.exists_ (fs self) src_abs then
             same <- (if negb (FileSys.exists_ (fs self) dest_abs) then ret false
                      else lift (FileSys.file_same_size env (fs self) src_abs dest_abs)) ;;
             (if negb same then on_fs (FileSys.copy_file_atomic src_abs dest_abs)
              else ret tt) ;;;
             ret (exported ++ [(title, dest_abs)], S copied)
           else ret (exported, copied)) ;;
  (if (snd acc' mod 50 =? 0) then
     store_status p (progress_record p total (snd acc')) ;;; save_state
   else ret tt) ;;;
  ret acc'.

Fixpoint export_tracks (p : Graph.PlaylistNode) (total : nat)
  (acc : list (string * PyPath.Path) * nat) (tr : list (string * PyPath.Path))
  : M T (list (string * PyPath.Path) * nat) :=
  match tr with
  | [] => ret acc
  | t :: rest => acc' <- export_track p total acc t ;; export_tracks p total acc' rest
  end.

(** [if include_path_contains: ... if not any(f in full_rel ...): continue] *)
Definition path_filtered_out (include_path_contains : list string)
  (rel_dir : PyPath.Path) (display : string) : bool :=
  match include_path_contains with
  | [] => false
  | _ =>
      let full_rel := lower (PyPath.to_str (PyPath.joinpath rel_dir (PyPath.of_str display))) in
      negb (existsb (fun f => contains (lower f) full_rel) include_path_contains)
  end.

(** What one turn of [for p in eligible] does after [processed += 1]. *)
Definition export_playlist (include_path_contains : list string)
  (p : Graph.PlaylistNode) (tr : list (string * PyPath.Path)) : M T unit :=
  self <- get ;;
  completed <- lift (completed_flag (state self) (Graph.id p)) ;;
  if truthy completed then ret tt else
  let '(rel_dir, display) := Graph.playlist_path (Catalog.playlist_rows db) (Graph.id p) in
  let pl_dir := PyPath.resolve (FileSys.cwd (fs self))
                  (PyPath.joinpath (playlists_root (fs self)) rel_dir) in
  let m3u8_path := PyPath.joinpath pl_dir (PyPath.of_str (display +:+ ".m3u8")) in
  if path_filtered_out include_path_contains rel_dir display then ret tt else
  acc <- export_tracks p (length tr) ([], 0) tr ;;
  let '(exported, copied) := acc in
  (match exported with
   | [] => ret tt
   | _ => on_fs (FileSys.atomic_write_text m3u8_path (Manifest.build_m3u8 display exported))
   end) ;;;
  store_status p (completed_record p (length tr) copied m3u8_path) ;;;
  save_state.

(** [limit and processed >= limit] *)
Definition limit_reached (limit : option nat) (processed : nat) : bool :=
  match limit with
  | Some n => negb (n =? 0) && (n <=? processed)
  | None => false
  end.

(** [for p in eligible] *)
Fixpoint export_loop (limit : option nat) (include_path_contains : list string)
  (processed : nat) (eligible : list Graph.PlaylistNode) : M T unit :=
  match eligible with
  | [] => ret tt
  | p :: rest =>
      if limit_reached limit processed then ret tt else
      self <- get ;;
      tr <- lift (playlist_tracks (fs self) (Graph.id p)) ;;
      match tr with
      | [] => export_loop limit include_path_contains processed rest
      | _ =>
          export_playlist include_path_contains p tr ;;;
          export_loop limit include_path_contains (S processed) rest
      end
  end.

(** [fetch_playlists]: the rows, and the smart playlist ids as a side effect *)
Definition fetch_playlists : M T (list Graph.PlaylistNode) :=
  modify (set_smart (match Catalog.smart_rows db with
                     | Ok ids => ids
                     | Raise _ => []
                     end)) ;;;
  ret (Catalog.playlist_rows db).

(** [export(limit, include_path_contains)] *)
Definition export (limit : option nat) (include_path_contains : list string)
  : M T unit :=
  self <- get ;;
  (if negb (FileSys.exists_ (fs self) (usb_root (fs self)))
   then raise SystemExit else ret tt) ;;;
  on_fs (FileSys.mkdir_p (music_dest_root (fs self))) ;;;
  on_fs (FileSys.mkdir_p (playlists_root (fs self))) ;;;
  load_state ;;;
  (if Catalog.connects db then ret tt else raise SystemExit) ;;;
  playlists <- fetch_playlists ;;
  self <- get ;;
  let eligible :=
    List.filter (fun p => negb (bool_decide (Graph.id p ∈ smart_playlist_ids self)))
      playlists in
  export_loop limit include_path_contains 0 eligible.

End WithEnv.
End Exporter.

(** ** The tag exporter: [load_state] and [copy_track_if_needed] of
    [PlaylistExporter] in [export_playlists_to_usb.py] *)
Module TagExporter.
Import PyStr Py.

Record T : Type := mkT {
  state : pyval;
  fs : FileSys.FS
}.

(** [TrackMetadata], with the types the dataclass declares; the duration,
    which only the manifest's [#EXTINF] line reads, is left out. *)
Record TrackMetadata : Type := mkTrack {
  relative_path : string;
  filename : string;
  artist : option string;
  title : option string;
  assigned_tags : option (list string)
}.

(** [filter_tracks_by_tags_all(tags_all)] over [self.tracks] *)
Definition filter_tracks_by_tags_all (tracks : list TrackMetadata)
  (tags_all : list string) : list TrackMetadata :=
  let tags_all_set : gset string := list_to_set tags_all in
  List.filter
    (fun tr =>
       let track_tags : gset string := list_to_set (default [] (assigned_tags tr)) in
       bool_decide (tags_all_set ⊆ track_tags))
    tracks.

(** A track that carries every tag of [tags_all]; no [assigned_tags] counts
    as no tag. *)
Definition has_all_tags (tags_all : list string) (tr : TrackMetadata) : Prop :=
  forall t, t ∈ tags_all -> t ∈ default [] (assigned_tags tr).

Section WithEnv.
Variable env : Env.
Variable usb_root base_path : PyPath.Path.
Variable dry_run : bool.

Definition music_dest_root : PyPath.Path :=
  PyPath.joinpath usb_root (PyPath.of_str "ALLDJ_MUSIC").
Definition state_path : PyPath.Path :=
  PyPath.joinpath usb_root (PyPath.of_str ".alldj_export_state.json").

Definition state0 : pyval :=
  VDict [("version", VInt 1); ("base_path", VStr (PyPath.to_str base_path));
         ("files", VDict []); ("playlists", VDict [])].

(** [load_state] *)
Definition load_state : M T unit :=
  self <- get ;;
  if FileSys.exists_ (fs self) state_path then
    try_except
      (c <- lift (FileSys.read_file (fs self) state_path) ;;
       v <- lift (FileSys.json_loads c) ;;
       modify (fun self => mkT v (fs self)))
      (fun _ => ret tt)
  else ret tt.

(** [copy_track_if_needed(src_abs) -> Optional[Path]] *)
Definition copy_track_if_needed (src_abs : PyPath.Path) : M T (option PyPath.Path) :=
  let rel := match PyPath.relative_to src_abs base_path with
             | Some r => r
             | None => PyPath.of_str (PyPath.name src_abs)
             end in
  let dest_abs := PyPath.joinpath music_dest_root rel in
  self <- get ;;
  same <- (if FileSys.exists_ (fs self) dest_abs
           then lift (FileSys.file_same_size env (fs self) src_abs dest_abs)
           else ret false) ;;
  if (same : bool) then ret (Some dest_abs) else
  if negb (FileSys.exists_ (fs self) src_abs) then ret None else
  if dry_run then ret (Some dest_abs) else
  (fun self => let '(r, w) := FileSys.copy_file_atomic src_abs dest_abs (fs self) in
               (r, mkT (state self) w)) ;;;
  ret (Some dest_abs).

(** [dest_abs] of [copy_track_if_needed] *)
Definition dest_of (src_abs : PyPath.Path) : PyPath.Path :=
  PyPath.joinpath music_dest_root
    (match PyPath.relative_to src_abs base_path with
     | Some r => r
     | None => PyPath.of_str (PyPath.name src_abs)
     end).

(** [save_state] *)
Definition save_state : M T unit :=
  if dry_run then ret tt else
  self <- get ;;
  (fun self => let '(r, w) := FileSys.atomic_write state_path
                                (FileSys.JsonText (state self)) (fs self) in
               (r, mkT (state self) w)).

End WithEnv.
End TagExporter.

(** ** The atomic writers, system call by system call

    [FileSys.atomic_write] and [FileSys.copy_file_atomic] take a whole
    write as one step.  Here the same functions are followed call by call,
    with the temporary file in view, so that the states an interruption can
    leave behind are the states of a trace. *)
Module Atomic.
Import Py FileSys.

Inductive op : Type :=
| Mkdir (d : PyPath.Path)
    (** [d.mkdir(parents=True, exist_ok=True)] *)
| CreateTemp (tmp : PyPath.Path)
    (** [NamedTemporaryFile(delete=False, dir=...)] settles on the name [tmp]
        and creates the file, empty *)
| OpenRead (src : PyPath.Path)
    (** [src.open("rb")] *)
| WriteTemp (tmp : PyPath.Path) (c : content)
    (** after this [write], the temporary file holds [c] *)
| Replace (tmp dest : PyPath.Path).
    (** [tmp_path.replace(dest)] *)

Definition exec (o : op) (fs : FS) : outcome FS :=
  match o with
  | Mkdir d =>
      match mkdir_p d fs with
      | (Ok _, fs') => Ok fs'
      | (Raise e, _) => Raise e
      end
  | CreateTemp tmp =>
      let k := PyPath.key (cwd fs) tmp in
      let d := PyPath.key (cwd fs) (PyPath.parent tmp) in
      if negb (is_dir fs d) then Raise FileNotFoundError
      else if bool_decide (d ∈ denied fs) then Raise PermissionError
      else if is_file fs k || is_dir fs k then Raise FileExistsError
      else Ok (set_files (fun m => <[k := Bytes EmptyString]> m) fs)
  | OpenRead src =>
      match read_file fs src with
      | Ok _ => Ok fs
      | Raise e => Raise e
      end
  | WriteTemp tmp c =>
      let k := PyPath.key (cwd fs) tmp in
      if is_file fs k then Ok (set_files (fun m => <[k := c]> m) fs)
      else Raise FileNotFoundError
  | Replace tmp dest =>
      let k := PyPath.key (cwd fs) tmp in
      let kd := PyPath.key (cwd fs) dest in
      match files fs !! k with
      | Some c =>
          if is_dir fs kd then Raise IsADirectoryError
          else Ok (renamed_onto kd c (set_files (delete k) fs))
      | None => Raise FileNotFoundError
      end
  end.

(** The states a run of [ops] passes through: the first one, and the one
    after every call that returns.  A call that raises ends the run. *)
Fixpoint trace (ops : list op) (fs : FS) : list FS :=
  fs :: match ops with
        | [] => []
        | o :: rest =>
            match exec o fs with
            | Ok fs' => trace rest fs'
            | Raise _ => []
            end
        end.

(** The state a run of [ops] ends in when no call raises. *)
Fixpoint run_ops (ops : list op) (fs : FS) : outcome FS :=
  match ops with
  | [] => Ok fs
  | o :: rest => obind (exec o fs) (run_ops rest)
  end.

(** The calls that neither rename nor touch the file [kd]. *)
Definition leaves_alone (wd kd : list string) (o : op) : Prop :=
  match o with
  | Mkdir _ | OpenRead _ => True
  | CreateTemp t | WriteTemp t _ => PyPath.key wd t <> kd
  | Replace _ _ => False
  end.

(** The temporary file of [dest]: a file named [tmp_name] in [dest.parent]. *)
Definition temp_path (dest : PyPath.Path) (tmp_name : string) : PyPath.Path :=
  PyPath.mkPath (PyPath.root (PyPath.parent dest))
                (PyPath.segs (PyPath.parent dest) ++ [tmp_name]).

Section WithEnv.
Variable env : Env.

(** The writes that fill the temporary file with [c]: after the [n]-th one
    it holds the first [cuts !! n] bytes, after the last one all of [c]. *)
Definition fill (tmp : PyPath.Path) (c : content) (cuts : list nat) : list op :=
  List.map (fun n => WriteTemp tmp (Bytes (PyStr.take n (text_of env c)))) cuts
  ++ [WriteTemp tmp c].

(** [atomic_write_text(dest, content)] *)
Definition atomic_write_ops (dest : PyPath.Path) (c : content)
  (tmp_name : string) (cuts : list nat) : list op :=
  let tmp := temp_path dest tmp_name in
  [Mkdir (PyPath.parent dest); CreateTemp tmp] ++ fill tmp c cuts
  ++ [Replace tmp dest].

(** [copy_file_atomic(src, dest)], and [atomic_copy_file(src, dest)] once
    it has decided to copy: [c] is what [src] holds. *)
Definition copy_ops (src dest : PyPath.Path) (c : content)
  (tmp_name : string) (cuts : list nat) : list op :=
  let tmp := temp_path dest tmp_name in
  [Mkdir (PyPath.parent dest); CreateTemp tmp; OpenRead src] ++ fill tmp c cuts
  ++ [Replace tmp dest].

End WithEnv.
End Atomic.

(** ** Sample worlds, for the closed examples of Part II *)
Module Demo.

(** An environment whose [urlparse] gives back what follows [file://] and
    raises on a network location that opens a bracket. *)
Definition env : Env :=
  mkEnv (fun s => if PyStr.startswith s "file://[" then Py.Raise Py.ValueError
                  else Py.Ok (PyStr.drop 7 s))
        (fun _ => "{}") 64 (fun _ => "2025-01-01 00:00:00")
        (fun _ => "2025-01-01T00:00:00") (PyPath.of_str "/Users/dj").

(** The empty file system, seen from the root. *)
Definition empty_fs : FileSys.FS := FileSys.mkFS ∅ ∅ ∅ [] [].

(** Three rows: two that name each other as parent, one whose parent is
    not a row. *)
Definition cyc : list Graph.PlaylistNode :=
  [Graph.mkNode "1" "A" (Some "2"); Graph.mkNode "2" "B" (Some "1");
   Graph.mkNode "3" "C" (Some "9")].

(** A stick with one directory [/usb/ALLDJ_MUSIC] that holds [a.flac], and
    a source [/music/a.flac] of the same size but other bytes. *)
Definition usb_fs : FileSys.FS :=
  FileSys.mkFS
    {[ ["usb"; "ALLDJ_MUSIC"; "a.flac"] := FileSys.Bytes "old";
       ["music"; "a.flac"] := FileSys.Bytes "new" ]}
    {[ ["usb"]; ["usb"; "ALLDJ_MUSIC"]; ["music"] ]} ∅ [] [].

(** A catalog with a folder and one playlist [P] of two tracks, the second
    of which is not on disk. *)
Definition db : Catalog.DB :=
  Catalog.mkDB true
    [Graph.mkNode "1" "Folder" (Some "root"); Graph.mkNode "2" "P" (Some "1")]
    (Py.Ok [])
    (fun pid => if String.eqb pid "2"
                then Py.Ok [Catalog.mkSong "T" "Art" "a.flac" "" "/music/";
                            Catalog.mkSong "U" "" "gone.flac" "" "/music/"]
                else Py.Ok []).

(** An empty stick at [/usb] and the one source [/music/a.flac]. *)
Definition music_fs : FileSys.FS :=
  FileSys.mkFS {[ ["music"; "a.flac"] := FileSys.Bytes "new" ]}
    {[ ["usb"]; ["music"] ]} ∅ [] [].

Definition xcfg : Exporter.Config := Exporter.mkConfig "/usb" true.
Definition ccfg : Copier.Config := Copier.mkConfig "/usb" false true.

(** A catalog of two playlists [P] and [Q] of one track each, and a disk on
    which the track of [P] is a directory. *)
Definition db2 : Catalog.DB :=
  Catalog.mkDB true
    [Graph.mkNode "2" "P" None; Graph.mkNode "3" "Q" None]
    (Py.Ok [])
    (fun pid => if String.eqb pid "2"
                then Py.Ok [Catalog.mkSong "D" "Art" "d.flac" "" "/music/"]
                else if String.eqb pid "3"
                then Py.Ok [Catalog.mkSong "T" "Art" "a.flac" "" "/music/"]
                else Py.Ok []).

Definition dir_fs : FileSys.FS :=
  FileSys.mkFS {[ ["music"; "a.flac"] := FileSys.Bytes "new" ]}
    {[ ["usb"]; ["music"]; ["music"; "d.flac"] ]} ∅ [] [].

(** What the loop of [get_all_playlists] makes of the two rows. *)
Definition P : Copier.PlaylistInfo := Copier.mkPlaylistInfo "2" "P" "" "P" 1 false false.
Definition Q : Copier.PlaylistInfo := Copier.mkPlaylistInfo "3" "Q" "" "Q" 1 false false.

(** A state whose entry for [P] is a string, not a dictionary. *)
Definition bad_state : Py.pyval :=
  Py.VDict [("playlists", Py.VDict [("2", Py.VStr "done")])].

(** A stick whose two state files do not parse. *)
Definition corrupt_fs : FileSys.FS :=
  FileSys.mkFS {[ ["usb"; ".alldj_export_state.json"] := FileSys.Bytes "{not json";
                  ["usb"; ".rekordbox_copy_state.json"] := FileSys.Bytes "{not json" ]}
    {[ ["usb"] ]} ∅ [] [].

End Demo.

(* ===================================================================== *)
(** * Part II.  The theorems                                              *)
(* ===================================================================== *)

(** ** PathResolver *)
Section ResolverFacts.
Variable env : Env.
Variable fs : FileSys.FS.

(** Both normalisers on concrete strings: the string part is computed, the
    two [exists] tests are taken by cases. *)
Ltac resolver_compute :=
  unfold Resolver.normalize_rekordbox_path, Resolver.normalize_try;
  cbv -[FileSys.exists_ PyPath.resolve];
  repeat match goal with
         | |- context [FileSys.exists_ ?f ?p] => destruct (FileSys.exists_ f p)
         end;
  reflexivity.

(** Plain concatenation: the copier joins folder and file name. *)
Lemma normalize_plain :
  Resolver.normalize_rekordbox_path env fs "/music/" "Song.flac"
  = Some (PyPath.of_str "/music/Song.flac").
Proof. resolver_compute. Qed.

(** Folder that already ends in the file name: the copier does not append
    the name a second time. *)
Lemma normalize_folder_has_name :
  Resolver.normalize_rekordbox_path env fs "/music/Song.flac" "Song.flac"
  = Some (PyPath.of_str "/music/Song.flac").
Proof. resolver_compute. Qed.

(** Duplicated file name segment. *)
Lemma normalize_doubled_name :
  Resolver.normalize_rekordbox_path env fs "/music/Song.flac/Song.flac" "Song.flac"
  = Some (PyPath.of_str "/music/Song.flac").
Proof. resolver_compute. Qed.

(** File name as an interior segment. *)
Lemma normalize_interior_name :
  Resolver.normalize_rekordbox_path env fs "/music/Song.flac/cd1/extra" "Song.flac"
  = Some (PyPath.of_str "/music/Song.flac").
Proof. resolver_compute. Qed.

(** C1 (the exporter's normaliser at the claim's second example).
    [_normalize_rb_path("/music/Song.flac", "Song.flac")] is
    [/music/Song.flac/Song.flac]: the folder gets its trailing slash before
    the test [folder_path.endswith("/" + name)], so the guard against the
    double join never holds for a folder that ends in the file name. *)
Theorem rb_path_joins_name_twice :
  Resolver._normalize_rb_path env fs "/music/Song.flac" "Song.flac"
  = Py.Ok (PyPath.of_str "/music/Song.flac/Song.flac").
Proof. reflexivity. Qed.

Lemma is_empty_true (s : string) : PyStr.is_empty s = true <-> s = "".
Proof. destruct s; simpl; split; congruence. Qed.


End ResolverFacts.


(** ** CollectionGraph *)
Section GraphFacts.
Import Graph.

Lemma fold_index_ok (rows : list PlaylistNode) (m : gmap string PlaylistNode) :
  index_ok m -> index_ok (fold_left (fun m p => <[id p := p]> m) rows m).
Proof.
  revert m. induction rows as [|r rows IH]; intros m Hm; simpl; [done|].
  apply IH. intros k p. rewrite lookup_insert.
  case_decide; [intros [= <-]; done | apply Hm].
Qed.

Lemma fold_index_size (rows : list PlaylistNode) (m : gmap string PlaylistNode) :
  size (fold_left (fun m p => <[id p := p]> m) rows m) <= size m + length rows.
Proof.
  revert m. induction rows as [|r rows IH]; intros m; simpl; [lia|].
  etrans; [apply IH|].
  destruct (m !! id r) eqn:Hr.
  - rewrite map_size_insert_Some; [lia | eauto].
  - rewrite map_size_insert_None; [lia | done].
Qed.

Lemma build_index_ok (rows : list PlaylistNode) : index_ok (build_index rows).
Proof. apply fold_index_ok. intros k p. by rewrite lookup_empty. Qed.

Lemma build_index_size (rows : list PlaylistNode) :
  size (build_index rows) <= length rows.
Proof.
  unfold build_index. etrans; [apply fold_index_size|].
  rewrite map_size_empty. lia.
Qed.

(** Marking an unvisited key of the index leaves fewer keys to visit. *)
Lemma unvisited_shrinks (m : gmap string PlaylistNode) (visited : gset string)
  (k : string) :
  is_Some (m !! k) -> k ∉ visited ->
  size (dom m ∖ ({[k]} ∪ visited)) < size (dom m ∖ visited).
Proof.
  intros Hk Hv. apply subset_size. apply elem_of_dom in Hk.
  apply strict_spec_alt. split; [set_solver|].
  intros Heq. assert (Hin : k ∈ dom m ∖ visited) by set_solver.
  rewrite <- Heq in Hin. set_solver.
Qed.

Lemma path_walk_total (fuel : nat) (m : gmap string PlaylistNode)
  (cur : option PlaylistNode) (visited : gset string) (parts : list string) :
  index_ok m ->
  (forall c, cur = Some c -> m !! id c = Some c) ->
  size (dom m ∖ visited) < fuel ->
  exists r, path_walk fuel m cur visited parts = Some r /\
            length r <= length parts + size (dom m ∖ visited).
Proof.
  intros Hm. revert cur visited parts.
  induction fuel as [|fuel IH]; intros cur visited parts Hcur Hsz; [lia|].
  simpl. destruct cur as [c|]; [|exists parts; split; [done | lia]].
  case_bool_decide as Hv; [exists parts; split; [done | lia]|].
  assert (Hlt := unvisited_shrinks m visited (id c)
                   (ex_intro _ c (Hcur c eq_refl)) Hv).
  destruct (_ || _).
  - eexists; split; [done|]. rewrite length_app. simpl. lia.
  - destruct (IH (m !! parent_str (parent_id c)) ({[id c]} ∪ visited)
                (parts ++ [name c])) as (r & Hr & Hlen).
    + intros c' Hc'. rewrite (Hm _ _ Hc'). done.
    + lia.
    + exists r. split; [done|]. rewrite length_app in Hlen. simpl in Hlen. lia.
Qed.

Lemma full_path_walk_total (fuel : nat) (m : gmap string PlaylistNode)
  (current_id : option string) (visited : gset string) (parts : list string) :
  size (dom m ∖ visited) < fuel ->
  exists r, full_path_walk fuel m current_id visited parts = Some r /\
            length r <= length parts + size (dom m ∖ visited).
Proof.
  revert current_id visited parts.
  induction fuel as [|fuel IH]; intros cur visited parts Hsz; [lia|].
  simpl. destruct cur as [cid|]; [|exists parts; split; [done | lia]].
  destruct (PyStr.is_empty cid || (cid =? "root")%string) eqn:Hstop; simpl;
    [exists parts; split; [done | lia]|].
  case_bool_decide as Hv; simpl; [exists parts; split; [done | lia]|].
  destruct (m !! cid) as [node|] eqn:Hnode; [|exists parts; split; [done | lia]].
  assert (Hlt := unvisited_shrinks m visited cid (ex_intro _ node Hnode) Hv).
  destruct (IH (if parent_falsy (parent_id node) then None
                else Some (parent_str (parent_id node)))
              ({[cid]} ∪ visited) (parts ++ [name node])) as (r & Hr & Hlen);
    [lia|].
  exists r. split; [done|]. rewrite length_app in Hlen. simpl in Hlen. lia.
Qed.

(** C9.  For every list of collection rows, cyclic or not, both hierarchy
    walks return within the fuel [S (length rows)], and collect at most one
    name per row: the walk marks the ids it visits and stops on a marked
    one.  A node whose parent id is not among the rows gets the path of a
    top-level node: no directory and its own name. *)
Theorem hierarchy_walks_terminate (rows : list PlaylistNode) (node_id : string) :
  (exists parts, path_parts rows node_id = Some parts /\ length parts <= length rows) /\
  (exists parts, full_path_parts rows node_id = Some parts /\
                 length parts <= length rows) /\
  (forall c q, build_index rows !! node_id = Some c ->
     parent_id c = Some q -> build_index rows !! q = None ->
     playlist_path rows node_id = (PyPath.of_str ".", name c) /\
     full_path rows c = name c).
Proof.
  pose proof (build_index_size rows) as Hsz.
  assert (Hfuel : size (dom (build_index rows) ∖ (∅ : gset string)) < S (length rows)).
  { rewrite difference_empty_L, size_dom. lia. }
  split; [|split].
  - destruct (path_walk_total (S (length rows)) (build_index rows)
                (build_index rows !! node_id) ∅ []) as (r & Hr & Hlen).
    + apply build_index_ok.
    + intros c Hc. rewrite (build_index_ok rows _ _ Hc). done.
    + done.
    + exists r. split; [done|].
      rewrite difference_empty_L, size_dom in Hlen. simpl in Hlen. lia.
  - destruct (full_path_walk_total (S (length rows)) (build_index rows)
                (Some node_id) ∅ []) as (r & Hr & Hlen); [done|].
    exists r. split; [done|].
    rewrite difference_empty_L, size_dom in Hlen. simpl in Hlen. lia.
  - intros c q Hc Hq Hnone.
    assert (Hid : id c = node_id) by (eapply build_index_ok; done).
    destruct rows as [|r0 rows'].
    { unfold build_index in Hc. simpl in Hc. by rewrite lookup_empty in Hc. }
    remember (r0 :: rows') as rows eqn:Hrows.
    assert (Hlen : length rows = S (length rows')) by (subst rows; done).
    split.
    + unfold playlist_path, path_parts. rewrite Hlen. simpl.
      rewrite Hc, Hq. simpl.
      rewrite bool_decide_eq_false_2 by set_solver.
      destruct (PyStr.is_empty q || (q =? "root")%string); [done|].
      unfold parent_str. rewrite Hnone. done.
    + unfold full_path, full_path_parts. rewrite Hid, Hlen. simpl.
      destruct (PyStr.is_empty node_id || (node_id =? "root")%string); [done|].
      simpl. rewrite bool_decide_eq_false_2 by set_solver. simpl.
      rewrite Hc, Hq. simpl.
      destruct (PyStr.is_empty q) eqn:Hq0; [done|]. simpl. rewrite Hq0. simpl.
      destruct ((q =? "root")%string); [done|]. simpl.
      case_bool_decide; [done|]. simpl. rewrite Hnone. done.
Qed.

End GraphFacts.

(** On a cyclic pair of rows both walks stop after one round. *)
Example walk_on_cycle :
  Graph.playlist_path Demo.cyc "1" = (PyPath.of_str "B", "A") /\
  Graph.full_path Demo.cyc (Graph.mkNode "1" "A" (Some "2")) = "B / A".
Proof. split; vm_compute; reflexivity. Qed.

Lemma hierarchy_walks_terminate_witness :
  Graph.playlist_path Demo.cyc "3" = (PyPath.of_str ".", "C") /\
  Graph.full_path Demo.cyc (Graph.mkNode "3" "C" (Some "9")) = "C".
Proof.
  apply (proj2 (proj2 (hierarchy_walks_terminate Demo.cyc "3"))
           (Graph.mkNode "3" "C" (Some "9")) "9");
    vm_compute; reflexivity.
Defined.

(** ** TransferCoordinator: the size test *)
Section CopyFacts.
Import Py FileSys.
Variable env : Env.

Lemma st_size_exists (fs : FS) (p : PyPath.Path) (n : nat) :
  st_size env fs p = Ok n -> exists_ fs p = true.
Proof.
  unfold st_size, exists_, is_file.
  destruct (files fs !! PyPath.key (cwd fs) p) eqn:Hf.
  - intros _. rewrite bool_decide_eq_true_2 by eauto. done.
  - destruct (is_dir fs _); [intros _; apply orb_true_r | discriminate].
Qed.

Lemma mkdir_p_existing (fs : FS) (d : PyPath.Path) :
  is_dir fs (PyPath.key (cwd fs) d) = true -> mkdir_p d fs = (Ok tt, fs).
Proof. unfold mkdir_p. intros ->. done. Qed.

(** C4.  When the destination is a regular file of its directory and has
    the size of the source, [atomic_copy_file] returns [False] and the file
    system is what it was; the exporters' [file_same_size] returns [True],
    which is the case in which [export] does not call [copy_file_atomic];
    and [copy_track_if_needed] hands back the destination without a write.
    The sizes alone decide: the bytes are not compared. *)
Theorem same_size_is_not_copied (fs : FS) (src dest : PyPath.Path) (n : nat) :
  is_file fs (PyPath.key (cwd fs) dest) = true ->
  is_dir fs (PyPath.key (cwd fs) (PyPath.parent dest)) = true ->
  st_size env fs src = Ok n ->
  st_size env fs dest = Ok n ->
  atomic_copy_file env src dest fs = (Ok false, fs) /\
  file_same_size env fs src dest = Ok true /\
  (forall usb_root base_path dry_run st,
     dest = PyPath.joinpath (TagExporter.music_dest_root usb_root)
              (match PyPath.relative_to src base_path with
               | Some r => r
               | None => PyPath.of_str (PyPath.name src)
               end) ->
     TagExporter.copy_track_if_needed env usb_root base_path dry_run src
       (TagExporter.mkT st fs)
     = (Ok (Some dest), TagExporter.mkT st fs)).
Proof.
  intros Hfile Hdir Hsrc Hdest.
  assert (Hex : exists_ fs dest = true).
  { unfold exists_. rewrite Hfile. done. }
  split; [|split].
  - unfold atomic_copy_file, bind, get, ret, lift.
    rewrite (st_size_exists _ _ _ Hsrc). simpl.
    rewrite (mkdir_p_existing _ _ Hdir). rewrite Hex.
    rewrite Hsrc, Hdest, Nat.eqb_refl. done.
  - unfold file_same_size. rewrite Hsrc, Hdest, Nat.eqb_refl. done.
  - intros usb_root base_path dry_run st ->.
    unfold TagExporter.copy_track_if_needed, bind, get, ret, lift. simpl.
    rewrite Hex. unfold file_same_size. rewrite Hsrc, Hdest, Nat.eqb_refl. done.
Qed.

End CopyFacts.

Lemma same_size_is_not_copied_witness :
  FileSys.atomic_copy_file Demo.env (PyPath.of_str "/music/a.flac")
    (PyPath.of_str "/usb/ALLDJ_MUSIC/a.flac") Demo.usb_fs
  = (Py.Ok false, Demo.usb_fs).
Proof.
  apply (same_size_is_not_copied Demo.env Demo.usb_fs
           (PyPath.of_str "/music/a.flac")
           (PyPath.of_str "/usb/ALLDJ_MUSIC/a.flac") 3);
    vm_compute; reflexivity.
Defined.

(** ** TransferCoordinator: the atomic writers *)
Section AtomicFacts.
Import Py FileSys Atomic.
Variable env : Env.

Lemma exec_leaves_alone (kd : list string) (o : op) (fs fs' : FS) :
  leaves_alone (cwd fs) kd o -> exec o fs = Ok fs' ->
  cwd fs' = cwd fs /\ files fs' !! kd = files fs !! kd.
Proof.
  destruct o as [d|t|s|t c|t d]; simpl; intros Hl He.
  - unfold mkdir_p in He.
    repeat (destruct (_ : bool) in He; try discriminate);
      injection He as <-; done.
  - repeat (destruct (_ : bool) in He; try discriminate).
    injection He as <-. simpl. by rewrite lookup_insert_ne.
  - destruct (read_file fs s); [injection He as <- | discriminate]. done.
  - destruct (is_file fs _); [|discriminate].
    injection He as <-. simpl. by rewrite lookup_insert_ne.
  - done.
Qed.

Lemma trace_leaves_alone (kd : list string) (ops : list op) (fs : FS) :
  Forall (leaves_alone (cwd fs) kd) ops ->
  forall s, s ∈ trace ops fs ->
  cwd s = cwd fs /\ files s !! kd = files fs !! kd.
Proof.
  revert fs. induction ops as [|o ops IH]; intros fs Hall s Hs.
  - simpl in Hs. apply list_elem_of_singleton in Hs as ->. done.
  - simpl in Hs. apply elem_of_cons in Hs as [-> | Hs]; [done|].
    apply Forall_cons in Hall as [Ho Hall].
    destruct (exec o fs) as [fs'|] eqn:He; [|by apply elem_of_nil in Hs].
    destruct (exec_leaves_alone kd o fs fs' Ho He) as [Hc Hf].
    destruct (IH fs') with (s := s) as [Hc' Hf']; [by rewrite Hc | done|].
    split; congruence.
Qed.

Lemma run_leaves_alone (kd : list string) (ops : list op) (fs fs' : FS) :
  Forall (leaves_alone (cwd fs) kd) ops -> run_ops ops fs = Ok fs' ->
  cwd fs' = cwd fs /\ files fs' !! kd = files fs !! kd.
Proof.
  revert fs. induction ops as [|o ops IH]; intros fs Hall Hr; simpl in Hr.
  - by injection Hr as <-.
  - apply Forall_cons in Hall as [Ho Hall].
    destruct (exec o fs) as [fs1|] eqn:He; [|discriminate]. simpl in Hr.
    destruct (exec_leaves_alone kd o fs fs1 Ho He) as [Hc Hf].
    destruct (IH fs1) as [Hc' Hf']; [by rewrite Hc | done|].
    split; congruence.
Qed.

Lemma trace_app (pre post : list op) (fs : FS) (s : FS) :
  s ∈ trace (pre ++ post) fs ->
  s ∈ trace pre fs \/ exists fs', run_ops pre fs = Ok fs' /\ s ∈ trace post fs'.
Proof.
  revert fs. induction pre as [|o pre IH]; intros fs Hs.
  - right. exists fs. done.
  - simpl in Hs. apply elem_of_cons in Hs as [-> | Hs].
    + left. simpl. apply elem_of_cons. by left.
    + simpl. destruct (exec o fs) as [fs1|] eqn:He; [|by apply elem_of_nil in Hs].
      destruct (IH fs1 Hs) as [H | (fs' & Hr & H)].
      * left. apply elem_of_cons. by right.
      * right. exists fs'. done.
Qed.

Lemma run_ops_app (pre post : list op) (fs : FS) :
  run_ops (pre ++ post) fs = obind (run_ops pre fs) (run_ops post).
Proof.
  revert fs. induction pre as [|o pre IH]; intros fs; simpl; [done|].
  destruct (exec o fs); simpl; [apply IH | done].
Qed.

(** After the last write of [fill] the temporary file holds all of [c]. *)
Lemma fill_completes (pre : list op) (tmp : PyPath.Path) (c : content)
  (cuts : list nat) (fs fs' : FS) :
  run_ops (pre ++ fill env tmp c cuts) fs = Ok fs' ->
  files fs' !! PyPath.key (cwd fs') tmp = Some c.
Proof.
  unfold fill. rewrite app_assoc, run_ops_app.
  destruct (run_ops _ fs) as [fs1|]; [|discriminate]. simpl.
  destruct (is_file fs1 _); [|discriminate]. simpl.
  intros [= <-]. simpl. by rewrite lookup_insert_eq.
Qed.

Lemma fill_leaves_alone (wd kd : list string) (tmp : PyPath.Path) (c : content)
  (cuts : list nat) :
  PyPath.key wd tmp <> kd -> Forall (leaves_alone wd kd) (fill env tmp c cuts).
Proof.
  intros Hne. unfold fill. apply Forall_app. split.
  - apply Forall_forall. intros o Ho. apply list_elem_of_In in Ho.
    apply in_map_iff in Ho as (n & <- & _). done.
  - by constructor.
Qed.

(** The shape every atomic writer has: calls that leave the destination
    alone and end with the temporary file complete, then one rename. *)
Lemma write_then_rename (pre : list op) (tmp dest : PyPath.Path) (c : content)
  (cuts : list nat) (fs : FS) :
  Forall (leaves_alone (cwd fs) (PyPath.key (cwd fs) dest)) pre ->
  PyPath.key (cwd fs) tmp <> PyPath.key (cwd fs) dest ->
  (forall s, s ∈ trace ((pre ++ fill env tmp c cuts) ++ [Replace tmp dest]) fs ->
     files s !! PyPath.key (cwd fs) dest = files fs !! PyPath.key (cwd fs) dest \/
     files s !! PyPath.key (cwd fs) dest = Some c) /\
  (forall fs', run_ops ((pre ++ fill env tmp c cuts) ++ [Replace tmp dest]) fs = Ok fs' ->
     files fs' !! PyPath.key (cwd fs) dest = Some c).
Proof.
  intros Hpre Hne.
  assert (Hall : Forall (leaves_alone (cwd fs) (PyPath.key (cwd fs) dest))
                   (pre ++ fill env tmp c cuts)).
  { apply Forall_app. split; [done | by apply fill_leaves_alone]. }
  assert (Hlast : forall fs1 fs2, run_ops (pre ++ fill env tmp c cuts) fs = Ok fs1 ->
            exec (Replace tmp dest) fs1 = Ok fs2 ->
            files fs2 !! PyPath.key (cwd fs) dest = Some c).
  { intros fs1 fs2 Hr He.
    pose proof (fill_completes _ _ _ _ _ _ Hr) as Htmp.
    destruct (run_leaves_alone _ _ _ _ Hall Hr) as [Hc _].
    simpl in He. rewrite Htmp in He.
    destruct (is_dir fs1 _); [discriminate|]. injection He as <-. simpl.
    rewrite Hc. by rewrite lookup_insert_eq. }
  split.
  - intros s Hs. apply trace_app in Hs as [Hs | (fs1 & Hr & Hs)].
    + left. by apply (trace_leaves_alone _ _ _ Hall).
    + change (trace [Replace tmp dest] fs1)
        with (fs1 :: match exec (Replace tmp dest) fs1 with
                     | Ok fs' => [fs']
                     | Raise _ => []
                     end) in Hs.
      apply elem_of_cons in Hs as [-> | Hs].
      * left. by apply (run_leaves_alone _ _ _ _ Hall Hr).
      * destruct (exec (Replace tmp dest) fs1) as [fs2|] eqn:He;
          [|by apply elem_of_nil in Hs].
        apply list_elem_of_singleton in Hs as ->. right. by eapply Hlast.
  - intros fs'. rewrite run_ops_app.
    destruct (run_ops _ fs) as [fs1|] eqn:Hr; [|discriminate].
    cbn [obind run_ops].
    destruct (exec (Replace tmp dest) fs1) as [fs2|] eqn:He; [|discriminate].
    cbn [obind run_ops]. intros [= <-]. by eapply Hlast.
Qed.

Lemma fill_runs (tmp : PyPath.Path) (c x : content) (cuts : list nat) (fs : FS) :
  run_ops (fill env tmp c cuts)
    (set_files (fun m => <[PyPath.key (cwd fs) tmp := x]> m) fs)
  = Ok (set_files (fun m => <[PyPath.key (cwd fs) tmp := c]> m) fs).
Proof.
  assert (Hstep : forall y z,
    exec (WriteTemp tmp y) (set_files (fun m => <[PyPath.key (cwd fs) tmp := z]> m) fs)
    = Ok (set_files (fun m => <[PyPath.key (cwd fs) tmp := y]> m) fs)).
  { intros y z. simpl. unfold is_file. simpl.
    rewrite lookup_insert_eq, bool_decide_eq_true_2 by eauto.
    unfold set_files. simpl. by rewrite insert_insert_eq. }
  unfold fill. revert x. induction cuts as [|n cuts IH]; intros x.
  - cbn [List.map app run_ops obind]. rewrite Hstep. done.
  - cbn [List.map app run_ops]. rewrite Hstep. cbn [obind]. apply IH.
Qed.

(** The one-step writer of [FileSys] is the call-by-call run with the
    temporary file out of sight: when the name [mkstemp] settles on is a
    free one, a run in which every call returns ends in the state
    [FileSys.atomic_write] gives. *)
Lemma atomic_write_big_step (fs fs' : FS) (dest : PyPath.Path) (c : content)
  (tmp_name : string) (cuts : list nat) :
  files fs !! PyPath.key (cwd fs) (temp_path dest tmp_name) = None ->
  PyPath.key (cwd fs) (temp_path dest tmp_name) <> PyPath.key (cwd fs) dest ->
  run_ops (atomic_write_ops env dest c tmp_name cuts) fs = Ok fs' ->
  atomic_write dest c fs = (Ok tt, fs').
Proof.
  intros Hfree Hne. unfold atomic_write_ops, atomic_write, bind.
  cbn [app run_ops exec].
  destruct (mkdir_p (PyPath.parent dest) fs) as [[[]|e] fs1] eqn:Hmk;
    [|discriminate].
  assert (Hfs1 : cwd fs1 = cwd fs /\ files fs1 = files fs).
  { unfold mkdir_p in Hmk.
    repeat (destruct (_ : bool) in Hmk; try discriminate);
      injection Hmk as <-; done. }
  destruct Hfs1 as [Hc Hf]. cbn [obind exec].
  replace (PyPath.parent (temp_path dest tmp_name)) with (PyPath.parent dest)
    by (unfold temp_path, PyPath.parent; simpl; by rewrite removelast_last).
  unfold open_temp_in.
  destruct (negb (is_dir fs1 _)); [discriminate|].
  destruct (bool_decide _); [discriminate|].
  destruct (is_file fs1 _ || is_dir fs1 _); [discriminate|].
  cbn [obind]. rewrite run_ops_app, fill_runs. cbn [obind run_ops exec].
  unfold replace_onto. simpl. rewrite lookup_insert_eq.
  unfold is_dir. simpl. rewrite Hc.
  destruct (_ || _); [discriminate|]. cbn [obind].
  intros [= <-]. f_equal. unfold renamed_onto, set_files. simpl.
  rewrite delete_insert_id; [done|]. by rewrite Hf.
Qed.


End AtomicFacts.

(** A write of ["new"] over ["old"] in three pieces: the final path reads
    ["old"] in every state but the last. *)
Example atomic_write_trace :
  List.map (fun s => FileSys.files s !! ["usb"; "ALLDJ_MUSIC"; "a.flac"])
    (Atomic.trace
       (Atomic.atomic_write_ops Demo.env (PyPath.of_str "/usb/ALLDJ_MUSIC/a.flac")
          (FileSys.Bytes "new") "tmpk3x9" [1; 2])
       Demo.usb_fs)
  = [Some (FileSys.Bytes "old"); Some (FileSys.Bytes "old");
     Some (FileSys.Bytes "old"); Some (FileSys.Bytes "old");
     Some (FileSys.Bytes "old"); Some (FileSys.Bytes "old");
     Some (FileSys.Bytes "new")].
Proof. vm_compute. reflexivity. Qed.


(** ** Persisted state: loading *)
Section LoadFacts.
Import Py FileSys.
Variable env : Env.

(** C10.  A state file that exists and does not parse leaves each of the
    three loaders with the state [__init__] built: [load_state] returns
    without raising, [self.state] is the default state, in which no
    playlist is completed, and the file system, the corrupt file with it,
    is what it was.  (The copier's handler also logs one warning line.) *)
Theorem corrupt_state_is_ignored (w : FS) (data : string) :
  (forall cfg,
     files w !! PyPath.key (cwd w) (Exporter.state_path cfg w) = Some (Bytes data) ->
     Exporter.load_state cfg (Exporter.init w) = (Ok tt, Exporter.init w)) /\
  (forall cfg lg clk,
     files w !! PyPath.key (cwd w) (Copier.state_file cfg w) = Some (Bytes data) ->
     fst (Copier.load_state env cfg (Copier.init w lg clk)) = Ok tt /\
     Copier.state (snd (Copier.load_state env cfg (Copier.init w lg clk)))
     = Copier.state0 /\
     Copier.stats (snd (Copier.load_state env cfg (Copier.init w lg clk)))
     = Copier.CopyStats0 /\
     Copier.fs (snd (Copier.load_state env cfg (Copier.init w lg clk))) = w) /\
  (forall usb_root base_path st,
     files w !! PyPath.key (cwd w) (TagExporter.state_path usb_root) = Some (Bytes data) ->
     TagExporter.load_state usb_root (TagExporter.mkT st w)
     = (Ok tt, TagExporter.mkT st w) /\
     TagExporter.load_state usb_root
       (TagExporter.mkT (TagExporter.state0 base_path) w)
     = (Ok tt, TagExporter.mkT (TagExporter.state0 base_path) w)) /\
  (forall playlist_id,
     completed_flag Exporter.state0 playlist_id = Ok VNone /\
     completed_flag Copier.state0 playlist_id = Ok VNone).
Proof.
  split; [|split; [|split]].
  - intros cfg Hf.
    unfold Exporter.load_state, bind, get, try_except, lift, ret, read_file.
    simpl. unfold exists_, is_file. rewrite Hf. simpl.
    destruct (Exporter.resume cfg); done.
  - intros cfg lg clk Hf.
    unfold Copier.load_state, bind, get, try_except, lift, ret, read_file.
    simpl. unfold exists_, is_file. rewrite Hf. simpl.
    destruct (Copier.resume cfg); done.
  - intros usb_root base_path st Hf.
    unfold TagExporter.load_state, bind, get, try_except, lift, ret, read_file.
    simpl. unfold exists_, is_file. rewrite Hf. simpl. done.
  - intros playlist_id. split; reflexivity.
Qed.

End LoadFacts.

(** ** Reasoning about computations *)
Section MonadFacts.
Import Py.
Context {S : Type}.
Variable I : S -> Prop.

Lemma inv_ret {A} (a : A) : inv I (ret a).
Proof. intros s Hs. done. Qed.

Lemma inv_raise {A} (e : exn) : inv I (@raise S A e).
Proof. intros s Hs. done. Qed.

Lemma inv_get : inv I get.
Proof. intros s Hs. done. Qed.

Lemma inv_lift {A} (o : outcome A) : inv I (lift o).
Proof. intros s Hs. done. Qed.

Lemma inv_modify (f : S -> S) : (forall s, I s -> I (f s)) -> inv I (modify f).
Proof. intros Hf s Hs. by apply Hf. Qed.

Lemma inv_bind {A B} (m : M S A) (k : A -> M S B) :
  inv I m -> (forall a, inv I (k a)) -> inv I (bind m k).
Proof.
  intros Hm Hk s Hs. unfold bind. specialize (Hm s Hs).
  destruct (m s) as [[a|e] s']; simpl in *; [by apply Hk | done].
Qed.

Lemma inv_try {A} (m : M S A) (h : exn -> M S A) :
  inv I m -> (forall e, inv I (h e)) -> inv I (try_except m h).
Proof.
  intros Hm Hh s Hs. unfold try_except. specialize (Hm s Hs).
  destruct (m s) as [[a|e] s']; simpl in *; [done | by apply Hh].
Qed.

End MonadFacts.

Create HintDb inv_db.
#[export] Hint Resolve inv_ret inv_raise inv_get inv_lift : inv_db.

(** Splits a computation along its binds, handlers and case distinctions
    and closes the leaves with the hints of [inv_db]. *)
Ltac inv_auto :=
  repeat first
    [ progress (auto with inv_db)
    | apply inv_bind
    | apply inv_try
    | match goal with
      | |- forall _, Py.inv _ _ => intro
      | |- Py.inv _ (if ?b then _ else _) => destruct b
      | |- Py.inv _ (match ?x with _ => _ end) => destruct x
      end ].

Section CopierInvariants.
Import Py Copier.
Variable env : Env.
Variable db : Catalog.DB.
Variable cfg : Config.
(** An invariant of [self.state] and [self.stats] that the three ways the
    copier writes them respect, for the playlist [pid]. *)
Variable Q : pyval -> list (string * pyval) -> Prop.
Variable pid : string.
Hypothesis Q_stat : forall st sts k v n v',
  Q st sts -> assoc_get sts k = Some v -> py_add v n = Ok v' ->
  Q st (assoc_set sts k v').
Hypothesis Q_store : forall st sts record st',
  Q st sts -> py_setdefault_setitem st "playlists" pid record = Ok st' -> Q st' sts.
Hypothesis Q_save : forall st sts st1 st2 ts,
  Q st sts -> py_setitem st "stats" (VDict sts) = Ok st1 ->
  py_setitem st1 "timestamp" ts = Ok st2 -> Q st2 sts.

Let I (self : T) : Prop := Q (state self) (stats self).

Lemma inv_log_ (message level : string) : inv I (log_ env message level).
Proof. intros s Hs. done. Qed.

Lemma inv_on_fs {A} (m : M FileSys.FS A) : inv I (on_fs m).
Proof. intros s Hs. unfold on_fs. destruct (m (fs s)). done. Qed.

Lemma inv_stat_add (k : string) (n : Z) : inv I (stat_add k n).
Proof.
  intros s Hs. unfold stat_add.
  destruct (assoc_get (stats s) k) as [v|] eqn:Hk; [|done].
  destruct (py_add v n) as [v'|] eqn:Ha; [|done].
  simpl. by eapply Q_stat.
Qed.

Lemma inv_store_status (record : pyval) : inv I (store_status pid record).
Proof.
  intros s Hs. unfold store_status, bind, get, lift, modify.
  destruct (py_setdefault_setitem _ _ _ _) eqn:Hst; [|done].
  simpl. by eapply Q_store.
Qed.

Lemma inv_save_state : inv I (save_state env cfg).
Proof.
  intros s Hs. unfold save_state.
  destruct (negb (resume cfg)); [done|].
  unfold bind, get, lift, modify, try_except.
  destruct (py_setitem (state s) _ _) as [st1|] eqn:H1; [|done].
  destruct (py_setitem st1 _ _) as [st2|] eqn:H2; [|done].
  simpl. unfold on_fs. simpl.
  destruct (FileSys.atomic_write _ _ _) as [[[]|e] w]; simpl; by eapply Q_save.
Qed.

Hint Resolve inv_log_ inv_on_fs inv_stat_add inv_store_status inv_save_state : inv_db.

Lemma inv_get_playlist_tracks (playlist_id : string) :
  inv I (get_playlist_tracks env db playlist_id).
Proof. unfold get_playlist_tracks. inv_auto. Qed.

Lemma inv_create_m3u8 playlist tracks playlist_file :
  inv I (create_m3u8_playlist env playlist tracks playlist_file).
Proof. unfold create_m3u8_playlist. inv_auto. by apply inv_modify. Qed.

Hint Resolve inv_get_playlist_tracks inv_create_m3u8 : inv_db.

Lemma inv_copy_track acc track : inv I (copy_track env cfg acc track).
Proof. unfold copy_track. inv_auto. Qed.

Hint Resolve inv_copy_track : inv_db.

Lemma inv_copy_tracks acc tracks : inv I (copy_tracks env cfg acc tracks).
Proof.
  revert acc. induction tracks as [|t tracks IH]; intros acc; simpl; inv_auto.
Qed.

Hint Resolve inv_copy_tracks : inv_db.

Lemma inv_copy_playlist playlist :
  id playlist = pid -> inv I (copy_playlist env db cfg playlist).
Proof. intros Hid. unfold copy_playlist. rewrite Hid. inv_auto. Qed.

End CopierInvariants.

(** ** Dictionaries *)
Section DictFacts.
Import Py.

Lemma assoc_get_set_eq (d : list (string * pyval)) (k : string) (v : pyval) :
  assoc_get (assoc_set d k v) k = Some v.
Proof.
  induction d as [|[k' v'] d IH]; simpl.
  - by rewrite String.eqb_refl.
  - destruct (String.eqb k' k) eqn:He; simpl.
    + by rewrite String.eqb_refl.
    + by rewrite He.
Qed.

Lemma assoc_get_set_ne (d : list (string * pyval)) (k k' : string) (v : pyval) :
  k <> k' -> assoc_get (assoc_set d k v) k' = assoc_get d k'.
Proof.
  intros Hne. induction d as [|[k0 v0] d IH]; simpl.
  - destruct (String.eqb k k') eqn:He; [|done].
    apply String.eqb_eq in He. done.
  - destruct (String.eqb k0 k) eqn:He; simpl.
    + apply String.eqb_eq in He as ->.
      destruct (String.eqb k k') eqn:He'; [|done].
      apply String.eqb_eq in He'. done.
    + destruct (String.eqb k0 k'); [done | apply IH].
Qed.

Lemma py_add_int (v : pyval) (n : Z) (v' : pyval) :
  py_add v n = Ok v' -> exists z, v' = VInt z.
Proof. destruct v as [|b|z|s|l|d]; simpl; intros [= <-]; eauto. Qed.

(** Storing the status of one playlist leaves the status of every other
    playlist as it was. *)
Lemma store_keeps_other_entries (st st' : pyval) (pid other : string)
  (record : pyval) :
  other <> pid ->
  py_setdefault_setitem st "playlists" pid record = Ok st' ->
  Copier.entry_of st' other = Copier.entry_of st other.
Proof.
  intros Hne. unfold py_setdefault_setitem, Copier.entry_of.
  destruct st as [| | | | |d]; try discriminate.
  destruct (assoc_get d "playlists") as [inner|] eqn:Hp.
  - destruct inner as [| | | | |inner]; try discriminate.
    intros [= <-]. simpl. rewrite assoc_get_set_eq, Hp. simpl.
    rewrite assoc_get_set_ne by done. done.
  - intros [= <-]. simpl. rewrite assoc_get_set_eq, Hp. simpl.
    destruct (String.eqb pid other) eqn:He; [|done].
    apply String.eqb_eq in He. congruence.
Qed.

Lemma setitem_keeps_entries (st st' : pyval) (k other : string) (v : pyval) :
  k <> "playlists" ->
  py_setitem st k v = Ok st' ->
  Copier.entry_of st' other = Copier.entry_of st other.
Proof.
  intros Hne. unfold py_setitem, Copier.entry_of.
  destruct st as [| | | | |d]; try discriminate.
  intros [= <-]. simpl. by rewrite assoc_get_set_ne.
Qed.

End DictFacts.

(** ** The copier: counters and failures *)
Section CopierFacts.
Import Py Copier.
Variable env : Env.
Variable db : Catalog.DB.
Variable cfg : Config.

Lemma stats_int_set (sts : list (string * pyval)) (k : string) (z : Z) :
  stats_int sts -> stats_int (assoc_set sts k (VInt z)).
Proof.
  intros H k' Hk'. destruct (decide (k = k')) as [->|Hne].
  - exists z. apply assoc_get_set_eq.
  - rewrite assoc_get_set_ne by done. by apply H.
Qed.

Lemma stat_add_int (k : string) (n : Z) (self : T) :
  stats_int (stats self) -> k ∈ List.map fst CopyStats0 ->
  exists z, assoc_get (stats self) k = Some (VInt z) /\
            stat_add k n self
            = (Ok tt, set_stats (assoc_set (stats self) k (VInt (z + n))) self).
Proof.
  intros H Hk. destruct (H k Hk) as [z Hz]. exists z. split; [done|].
  unfold stat_add. rewrite Hz. done.
Qed.

(** Whatever [copy_playlist] does, integer counters stay integers. *)
Lemma copy_playlist_stats_int (playlist : PlaylistInfo) :
  inv (fun self => stats_int (stats self)) (copy_playlist env db cfg playlist).
Proof.
  apply (inv_copy_playlist env db cfg (fun _ sts => stats_int sts) (id playlist));
    [|done..].
  intros st sts k v n v' H Hk Ha.
  destruct (py_add_int _ _ _ Ha) as [z ->]. by apply stats_int_set.
Qed.

(** Whatever [copy_playlist] does, the status of every other playlist
    stays what it was. *)
Lemma copy_playlist_other_entries (playlist : PlaylistInfo) (other : string)
  (v : outcome pyval) :
  other <> id playlist ->
  inv (fun self => entry_of (state self) other = v)
      (copy_playlist env db cfg playlist).
Proof.
  intros Hne.
  apply (inv_copy_playlist env db cfg (fun st _ => entry_of st other = v)
           (id playlist)); [done| | |done].
  - intros st sts record st' H Hs.
    by rewrite (store_keeps_other_entries _ _ _ _ _ Hne Hs).
  - intros st sts st1 st2 ts H H1 H2.
    rewrite (setitem_keeps_entries st1 st2 "timestamp" other ts ltac:(done) H2).
    by rewrite (setitem_keeps_entries st st1 "stats" other _ ltac:(done) H1).
Qed.

Lemma log_run (message level : string) (self : T) :
  log_ env message level self
  = (Ok tt, mkT (state self) (stats self) (smart_playlist_ids self) (fs self)
              (log self ++ ["[" +:+ strftime env (clock self) +:+ "] " +:+ level
                            +:+ ": " +:+ message])
              (S (clock self))).
Proof. reflexivity. Qed.

Lemma print_stats_int (self : T) :
  stats_int (stats self) -> print_stats self = (Ok tt, self).
Proof.
  intros H. destruct (H "bytes_copied") as [z Hz].
  { repeat (first [apply list_elem_of_here | apply list_elem_of_further]). }
  unfold print_stats, bind, get. simpl. rewrite Hz. done.
Qed.

Lemma failed_is_counter : "playlists_failed" ∈ List.map fst CopyStats0.
Proof. repeat (first [apply list_elem_of_here | apply list_elem_of_further]). Qed.

(** What [run_one] comes to, by the three ways [copy_playlist] can end. *)
Lemma run_one_cases (n i : nat) (playlist : PlaylistInfo) (self : T) :
  stats_int (stats self) ->
  let s0 := snd (log_ env ("Starting: " +:+ name playlist) "INFO" self) in
  let r := copy_playlist env db cfg playlist s0 in
  stats_int (stats (snd r)) /\
  match fst r with
  | Ok true => run_one env db cfg n i playlist self = (Ok tt, snd r)
  | Ok false =>
      exists z, assoc_get (stats (snd r)) "playlists_failed" = Some (VInt z) /\
        run_one env db cfg n i playlist self
        = (Ok tt, set_stats (assoc_set (stats (snd r)) "playlists_failed"
                               (VInt (z + 1))) (snd r))
  | Raise e =>
      exists z line, assoc_get (stats (snd r)) "playlists_failed" = Some (VInt z) /\
        run_one env db cfg n i playlist self
        = (Ok tt,
           mkT (state (snd r))
               (assoc_set (stats (snd r)) "playlists_failed" (VInt (z + 1)))
               (smart_playlist_ids (snd r)) (fs (snd r))
               (log (snd r) ++ [line]) (S (clock (snd r))))
  end.
Proof.
  intros Hint s0 r.
  assert (H1 : stats_int (stats (snd r))).
  { apply copy_playlist_stats_int. done. }
  split; [done|].
  unfold run_one, bind, try_except.
  change (log_ env ("Starting: " +:+ name playlist) "INFO" self) with (Ok tt, s0).
  cbn [fst snd]. fold r. destruct r as [[b|e] s1] eqn:Hr; cbn [fst snd] in *.
  - destruct b; cbn [negb].
    + unfold ret. destruct (i mod 10 =? 0); [|done].
      by rewrite (print_stats_int s1 H1).
    + destruct (stat_add_int "playlists_failed" 1 s1 H1 failed_is_counter)
        as (z & Hz & ->).
      exists z. split; [done|].
      destruct (i mod 10 =? 0); [|done].
      rewrite print_stats_int by (by apply stats_int_set). done.
  - destruct (stat_add_int "playlists_failed" 1
                (snd (log_ env ("Failed to process playlist " +:+ name playlist
                                +:+ ": " +:+ exn_str e) "ERROR" s1)) H1
                failed_is_counter) as (z & Hz & Hadd).
    rewrite log_run in Hz, Hadd. cbn [fst snd stats] in Hz, Hadd.
    exists z. eexists. split; [exact Hz|].
    rewrite log_run, Hadd.
    destruct (i mod 10 =? 0); [|done].
    rewrite print_stats_int by (by apply stats_int_set). done.
Qed.

(** The loop of [run] goes through every playlist. *)
Lemma run_loop_returns (n i : nat) (playlists : list PlaylistInfo) (self : T) :
  stats_int (stats self) ->
  fst (run_loop env db cfg n i playlists self) = Ok tt /\
  stats_int (stats (snd (run_loop env db cfg n i playlists self))).
Proof.
  revert i self. induction playlists as [|p rest IH]; intros i self Hint; [done|].
  cbn [run_loop]. unfold bind.
  destruct (run_one_cases n i p self Hint) as [H1 Hcase].
  destruct (fst (copy_playlist env db cfg p _)) as [[|]|e].
  - rewrite Hcase. by apply IH.
  - destruct Hcase as (z & _ & ->). apply IH. by apply stats_int_set.
  - destruct Hcase as (z & line & _ & ->). apply IH. by apply stats_int_set.
Qed.


End CopierFacts.

(** ** The copier: missing sources and failed copies *)
Section TrackFacts.
Import Py Copier.
Variable env : Env.
Variable cfg : Config.

Lemma counter_set_eq (sts : list (string * pyval)) (k : string) (z : Z) :
  counter (assoc_set sts k (VInt z)) k = z.
Proof. unfold counter. by rewrite assoc_get_set_eq. Qed.

Lemma counter_set_ne (sts : list (string * pyval)) (k k' : string) (v : pyval) :
  k <> k' -> counter (assoc_set sts k v) k' = counter sts k'.
Proof. intros H. unfold counter. by rewrite assoc_get_set_ne. Qed.

(** [self.stats.<k> += n] on integer counters, as an equation. *)
Lemma stat_add_run (k : string) (n : Z) (self : T) :
  stats_int (stats self) -> k ∈ List.map fst CopyStats0 ->
  stat_add k n self
  = (Ok tt, set_stats (assoc_set (stats self) k (VInt (counter (stats self) k + n)))
              self).
Proof.
  intros H Hk. destruct (H k Hk) as [z Hz].
  unfold stat_add, counter. rewrite Hz. done.
Qed.

Ltac counter_key :=
  repeat (first [apply list_elem_of_here | apply list_elem_of_further]).

Ltac stat_step :=
  rewrite stat_add_run;
  [ | repeat apply stats_int_set; assumption | counter_key ].

(** One turn of the track loop, by the three ways it can go. *)
Lemma copy_track_cases (acc : Acc) (track : TrackInfo) (self : T) :
  stats_int (stats self) ->
  let dest_path :=
    PyPath.joinpath (music_root cfg (fs self))
      (PyPath.of_str (relative_path track)) in
  let r := copy_track env cfg acc track self in
  stats_int (stats (snd r)) /\ state (snd r) = state self /\
  if exists_ track then
    match FileSys.atomic_copy_file env (original_path track) dest_path (fs self) with
    | (Ok was_copied, w) =>
        fst r = Ok (mkAcc (copied_tracks acc ++ [(track, dest_path)])
                      (if was_copied then S (tracks_copied_count acc)
                       else tracks_copied_count acc)
                      (tracks_failed_count acc)) /\
        fs (snd r) = w /\
        counter (stats (snd r)) "tracks_failed" = counter (stats self) "tracks_failed"
    | (Raise e, w) =>
        fst r = Ok (mkAcc (copied_tracks acc) (tracks_copied_count acc)
                      (S (tracks_failed_count acc))) /\
        fs (snd r) = w /\
        counter (stats (snd r)) "tracks_failed"
        = (counter (stats self) "tracks_failed" + 1)%Z
    end
  else
    fst r = Ok (mkAcc (copied_tracks acc) (tracks_copied_count acc)
                  (S (tracks_failed_count acc))) /\
    fs (snd r) = fs self /\
    counter (stats (snd r)) "tracks_failed"
    = (counter (stats self) "tracks_failed" + 1)%Z.
Proof.
  intros Hint dest_path r. subst r. unfold copy_track, bind.
  stat_step. cbn [fst snd].
  destruct (exists_ track); cbn [negb].
  - unfold get, try_except, on_fs. cbn [fs set_stats fst snd].
    fold dest_path.
    destruct (FileSys.atomic_copy_file env (original_path track) dest_path (fs self))
      as [[was_copied|e] w] eqn:Hcopy.
    + destruct was_copied.
      * rewrite log_run. cbn [fst snd stats set_stats set_fs].
        stat_step. cbn [fst snd stats set_stats set_fs]. stat_step. cbn [fst snd ret stats set_stats set_fs state fs].
        split; [repeat apply stats_int_set; done|]. split; [done|].
        split; [done|]. split; [done|].
        rewrite !counter_set_ne by done. done.
      * rewrite log_run. cbn [fst snd stats set_stats set_fs].
        stat_step. cbn [fst snd ret stats set_stats set_fs state fs].
        split; [repeat apply stats_int_set; done|]. split; [done|].
        split; [done|]. split; [done|].
        rewrite !counter_set_ne by done. done.
    + rewrite log_run. cbn [fst snd stats set_stats set_fs].
      stat_step. cbn [fst snd ret stats set_stats set_fs state fs].
      split; [repeat apply stats_int_set; done|]. split; [done|].
      split; [done|]. split; [done|].
      rewrite counter_set_eq, counter_set_ne by done. done.
  - rewrite log_run. cbn [fst snd].
    stat_step. cbn [fst snd ret stats set_stats set_fs state fs].
    split; [repeat apply stats_int_set; done|]. split; [done|].
    split; [done|]. split; [done|].
    rewrite counter_set_eq, counter_set_ne by done. done.
Qed.

(** The track loop goes through every track: each one ends up in the list
    for the manifest or in the count of failures. *)
Lemma copy_tracks_returns (tracks : list TrackInfo) (acc : Acc) (self : T) :
  stats_int (stats self) ->
  exists acc', fst (copy_tracks env cfg acc tracks self) = Ok acc' /\
    stats_int (stats (snd (copy_tracks env cfg acc tracks self))) /\
    state (snd (copy_tracks env cfg acc tracks self)) = state self /\
    length (copied_tracks acc') + tracks_failed_count acc'
    = length (copied_tracks acc) + tracks_failed_count acc + length tracks.
Proof.
  revert acc self. induction tracks as [|t tracks IH]; intros acc self Hint.
  - exists acc. simpl. repeat split; [done | lia].
  - cbn [copy_tracks]. unfold bind.
    destruct (copy_track_cases acc t self Hint) as (H1 & H2 & H3).
    destruct (copy_track env cfg acc t self) as [r s1] eqn:Hr. cbn [fst snd] in *.
    assert (Hacc : exists acc1, r = Ok acc1 /\
              length (copied_tracks acc1) + tracks_failed_count acc1
              = S (length (copied_tracks acc) + tracks_failed_count acc)).
    { destruct (exists_ t).
      - destruct (FileSys.atomic_copy_file _ _ _ _) as [[b|e] w];
          destruct H3 as (-> & _); eexists; (split; [done|]); simpl;
          rewrite ?length_app; simpl; lia.
      - destruct H3 as (-> & _). eexists. split; [done|]. simpl. lia. }
    destruct Hacc as (acc1 & -> & Hlen).
    destruct (IH acc1 s1 H1) as (acc' & Hr' & Hi' & Hs' & Hlen').
    exists acc'. repeat split; [done | done | congruence | simpl; lia].
Qed.


End TrackFacts.


(** The same on a whole run: one track copied, one source missing, no copy
    failed, and the record of the playlist says [tracks_failed = 1]. *)
Example run_counts_missing_source :
  Copier.entry_of
    (Copier.state (snd (Copier.run Demo.env Demo.db Demo.ccfg
                          (Copier.init Demo.music_fs [] 0)))) "2"
  = Py.Ok (Py.VDict
      [("completed", Py.VBool true); ("name", Py.VStr "P");
       ("tracks_total", Py.VInt 2); ("tracks_copied", Py.VInt 1);
       ("tracks_failed", Py.VInt 1);
       ("playlist_file", Py.VStr "/usb/PLAYLISTS/Folder/P.m3u8")]).
Proof. vm_compute. reflexivity. Qed.


(** ** The file system only grows *)
Section GrowFacts.
Import Py FileSys.
Variable env : Env.

Lemma grows_refl (w : FS) : grows w w.
Proof. done. Qed.

Lemma grows_trans (w1 w2 w3 : FS) : grows w1 w2 -> grows w2 w3 -> grows w1 w3.
Proof.
  intros (Hc & Hf & Hd) (Hc' & Hf' & Hd').
  split; [congruence|]. split; auto.
Qed.

Lemma grows_renamed (w : FS) (k : list string) (c : content) :
  grows w (renamed_onto k c w).
Proof.
  split; [done|]. split; [|done].
  intros k'. unfold is_file. simpl. rewrite !bool_decide_eq_true.
  rewrite lookup_insert. case_decide; eauto.
Qed.

Lemma grows_mkdir_p (d : PyPath.Path) (w : FS) : grows w (snd (mkdir_p d w)).
Proof.
  unfold mkdir_p. repeat (destruct (_ : bool); try apply grows_refl).
  split; [done|]. split; [done|].
  intros k. unfold is_dir. simpl. rewrite !orb_true_iff, !bool_decide_eq_true.
  set_solver.
Qed.

Lemma grows_open_temp_in (d : PyPath.Path) (w : FS) :
  grows w (snd (open_temp_in d w)).
Proof. unfold open_temp_in. repeat (destruct (_ : bool); try apply grows_refl). Qed.

Lemma grows_replace_onto (d : PyPath.Path) (c : content) (w : FS) :
  grows w (snd (replace_onto d c w)).
Proof.
  unfold replace_onto. destruct (is_dir w _); [apply grows_refl|].
  apply grows_renamed.
Qed.

Lemma grows_bind {A B} (m : M FS A) (k : A -> M FS B) (w : FS) :
  (forall w, grows w (snd (m w))) -> (forall a w, grows w (snd (k a w))) ->
  grows w (snd (bind m k w)).
Proof.
  intros Hm Hk. unfold bind. specialize (Hm w).
  destruct (m w) as [[a|e] w1]; simpl in *; [|done].
  eapply grows_trans; [exact Hm | apply Hk].
Qed.

Lemma grows_atomic_write (dest : PyPath.Path) (c : content) (w : FS) :
  grows w (snd (atomic_write dest c w)).
Proof.
  unfold atomic_write. apply grows_bind; [apply grows_mkdir_p|]. intros _ w1.
  apply grows_bind; [apply grows_open_temp_in|]. intros _ w2.
  apply grows_replace_onto.
Qed.

Lemma grows_copy_file_atomic (src dest : PyPath.Path) (w : FS) :
  grows w (snd (copy_file_atomic src dest w)).
Proof.
  unfold copy_file_atomic. apply grows_bind; [apply grows_mkdir_p|]. intros _ w1.
  apply grows_bind; [apply grows_open_temp_in|]. intros _ w2.
  apply grows_bind; [intros; apply grows_refl|]. intros fs w3.
  apply grows_bind; [intros; apply grows_refl|]. intros c w4.
  apply grows_replace_onto.
Qed.

(** A writer that returns has put [c] under the final path. *)
Lemma atomic_write_ok (dest : PyPath.Path) (c : content) (w w' : FS) :
  atomic_write dest c w = (Ok tt, w') ->
  files w' !! PyPath.key (cwd w) dest = Some c.
Proof.
  unfold atomic_write, bind.
  destruct (mkdir_p _ w) as [[[]|e] w1] eqn:H1; [|discriminate].
  pose proof (grows_mkdir_p (PyPath.parent dest) w) as (Hc & _). rewrite H1 in Hc.
  destruct (open_temp_in _ w1) as [[[]|e] w2] eqn:H2; [|discriminate].
  assert (w2 = w1) as ->.
  { unfold open_temp_in in H2.
    repeat (destruct (_ : bool) in H2; try discriminate). by injection H2. }
  unfold replace_onto. simpl in Hc. rewrite Hc.
  destruct (is_dir w1 _); [discriminate|].
  intros [= <-]. simpl. apply lookup_insert_eq.
Qed.

End GrowFacts.

(** ** The exporter: what a run leaves behind *)
Section ExporterFacts.
Import Py Exporter.
Variable env : Env.
Variable db : Catalog.DB.
Variable cfg : Config.

(** The tracks of a playlist depend on the working directory alone. *)
Lemma playlist_tracks_cwd (w w' : FileSys.FS) (pid : string) :
  FileSys.cwd w = FileSys.cwd w' ->
  playlist_tracks env db w pid = playlist_tracks env db w' pid.
Proof.
  intros Hc. unfold playlist_tracks.
  destruct (Catalog.song_rows db pid) as [rows|e]; [|done]. simpl.
  induction rows as [|ct rows IH]; [done|]. simpl. rewrite IH.
  unfold track_of_row, Resolver._normalize_rb_path. by rewrite Hc.
Qed.

Lemma flag_le_refl (s : pyval) : flag_le s s.
Proof. intros pid v Hv. eauto. Qed.

Lemma flag_le_trans (s1 s2 s3 : pyval) : flag_le s1 s2 -> flag_le s2 s3 -> flag_le s1 s3.
Proof.
  intros H12 H23 pid v Hv.
  destruct (H12 pid v Hv) as (v2 & Hv2 & Ht2).
  destruct (H23 pid v2 Hv2) as (v3 & Hv3 & Ht3). eauto.
Qed.

(** Storing the status of a playlist whose flag could be read: the store
    succeeds, the flag of the playlist is the record's, every other flag is
    what it was. *)
Lemma flag_store (st : pyval) (pid : string) (record : list (string * pyval))
  (v0 : pyval) :
  completed_flag st pid = Ok v0 ->
  exists st', py_setdefault_setitem st "playlists" pid (VDict record) = Ok st' /\
    (forall pid', pid' <> pid -> completed_flag st' pid' = completed_flag st pid') /\
    completed_flag st' pid = py_get (VDict record) "completed" VNone.
Proof.
  unfold completed_flag, py_setdefault_setitem.
  destruct st as [| | | | |d]; try discriminate. simpl.
  destruct (assoc_get d "playlists") as [inner|] eqn:Hp.
  - destruct inner as [| | | | |inner]; try discriminate. simpl. intros _.
    eexists. split; [done|]. simpl. rewrite assoc_get_set_eq. simpl. split.
    + intros pid' Hne. by rewrite assoc_get_set_ne.
    + by rewrite assoc_get_set_eq.
  - intros _. eexists. split; [done|]. simpl. rewrite assoc_get_set_eq. simpl.
    rewrite String.eqb_refl. split; [|done].
    intros pid' Hne. destruct (String.eqb pid pid') eqn:He; [|done].
    apply String.eqb_eq in He. congruence.
Qed.

Section Invariants.
(** An invariant of the exporter that growth of the file system and the
    stores of the records in [stored] for the playlist [p] respect. *)
Variable I : T -> Prop.
Variable p : Graph.PlaylistNode.
Variable stored : pyval -> Prop.
Hypothesis I_fs : forall self w',
  FileSys.grows (fs self) w' -> I self -> I (set_fs w' self).
Hypothesis I_store : forall self record st',
  stored record -> I self ->
  py_setdefault_setitem (state self) "playlists" (Graph.id p) record = Ok st' ->
  I (set_state st' self).

Lemma inv_x_on_fs {A} (m : M FileSys.FS A) :
  (forall w, FileSys.grows w (snd (m w))) -> inv I (on_fs m).
Proof.
  intros Hm self HI. unfold on_fs. specialize (Hm (fs self)).
  destruct (m (fs self)) as [r w]. simpl in *. by apply I_fs.
Qed.

Lemma inv_x_store_status (record : pyval) :
  stored record -> inv I (store_status p record).
Proof.
  intros Hrec self HI. unfold store_status, bind, get, lift, modify.
  destruct (py_setdefault_setitem _ _ _ _) eqn:Hst; [|done].
  simpl. by eapply I_store.
Qed.

Lemma inv_x_save_state : inv I (save_state cfg).
Proof.
  unfold save_state. destruct (negb (resume cfg)); [apply inv_ret|].
  apply inv_bind; [apply inv_get|]. intros self.
  apply inv_x_on_fs. intros w. apply grows_atomic_write.
Qed.

Hint Resolve inv_x_save_state inv_x_store_status inv_x_on_fs
  grows_copy_file_atomic grows_atomic_write : inv_db.

Lemma inv_x_export_track (total : nat) (acc : list (string * PyPath.Path) * nat)
  (t : string * PyPath.Path) :
  (forall copied, stored (progress_record p total copied)) ->
  inv I (export_track env cfg p total acc t).
Proof.
  intros Hrec. unfold export_track. destruct acc as [exported copied], t as [title src].
  inv_auto.
Qed.

Lemma inv_x_export_tracks (total : nat) (tr : list (string * PyPath.Path))
  (acc : list (string * PyPath.Path) * nat) :
  (forall copied, stored (progress_record p total copied)) ->
  inv I (export_tracks env cfg p total acc tr).
Proof.
  intros Hrec. revert acc. induction tr as [|t tr IH]; intros acc; simpl.
  - apply inv_ret.
  - apply inv_bind; [by apply inv_x_export_track | done].
Qed.

End Invariants.

Lemma state_path_cwd (w w' : FileSys.FS) :
  FileSys.cwd w = FileSys.cwd w' -> state_path cfg w = state_path cfg w'.
Proof. intros H. unfold state_path, usb_root. by rewrite H. Qed.

Lemma store_status_run (p : Graph.PlaylistNode) (record : list (string * pyval))
  (self : T) (v0 : pyval) :
  completed_flag (state self) (Graph.id p) = Ok v0 ->
  exists st', store_status p (VDict record) self = (Ok tt, set_state st' self) /\
    (forall pid', pid' <> Graph.id p ->
       completed_flag st' pid' = completed_flag (state self) pid') /\
    completed_flag st' (Graph.id p) = py_get (VDict record) "completed" VNone.
Proof.
  intros Hv. destruct (flag_store _ _ record _ Hv) as (st' & Hst & H1 & H2).
  exists st'. split; [|done].
  unfold store_status, bind, get, lift, modify. by rewrite Hst.
Qed.

Lemma save_state_run (self self' : T) :
  resume cfg = true ->
  save_state cfg self = (Ok tt, self') ->
  persisted cfg self' /\ state self' = state self /\
  FileSys.grows (fs self) (fs self').
Proof.
  intros Hres. unfold save_state, bind, get, on_fs. rewrite Hres. simpl.
  pose proof (grows_atomic_write (state_path cfg (fs self))
                (FileSys.JsonText (state self)) (fs self)) as Hg.
  destruct (FileSys.atomic_write _ _ (fs self)) as [[[]|e] w] eqn:Hw;
    [|discriminate].
  intros [= <-]. simpl in *. split; [|done].
  unfold persisted. simpl. destruct Hg as (Hc & _).
  rewrite (state_path_cwd w (fs self) Hc), Hc.
  by apply (atomic_write_ok _ _ _ _ Hw).
Qed.

(** The track loop stores progress records for its own playlist only, and
    their flag can be read. *)
Lemma export_tracks_flags (p : Graph.PlaylistNode) (total : nat)
  (tr : list (string * PyPath.Path)) (acc : list (string * PyPath.Path) * nat)
  (self : T) (v : pyval) :
  completed_flag (state self) (Graph.id p) = Ok v ->
  FileSys.grows (fs self) (fs (snd (export_tracks env cfg p total acc tr self))) /\
  (forall pid', pid' <> Graph.id p ->
     completed_flag (state (snd (export_tracks env cfg p total acc tr self))) pid'
     = completed_flag (state self) pid') /\
  exists v1,
    completed_flag (state (snd (export_tracks env cfg p total acc tr self)))
      (Graph.id p) = Ok v1.
Proof.
  intros Hv.
  apply (inv_x_export_tracks
    (fun s => FileSys.grows (fs self) (fs s) /\
              (forall pid', pid' <> Graph.id p ->
                 completed_flag (state s) pid' = completed_flag (state self) pid') /\
              exists v1, completed_flag (state s) (Graph.id p) = Ok v1)
    p (fun record => exists copied, record = progress_record p total copied)).
  - intros s w' Hg (Hg0 & H1 & H2). split; [by eapply grows_trans | done].
  - intros s record st' (copied & ->) (Hg0 & H1 & (v1 & H2)) Hst.
    unfold progress_record in Hst.
    destruct (flag_store _ _
                [("completed", VBool false);
                 ("tracks_total", VInt (Z.of_nat total));
                 ("tracks_exported", VInt (Z.of_nat copied));
                 ("name", VStr (Graph.name p))] _ H2) as (st1 & Hst1 & Ho & Hp).
    rewrite Hst1 in Hst. injection Hst as <-. simpl. split; [done|]. split.
    + intros pid' Hne. rewrite Ho by done. by apply H1.
    + rewrite Hp. eauto.
  - eauto.
  - split; [apply grows_refl|]. split; [done | eauto].
Qed.

(** One playlist that [export] got through: the file system has grown, the
    state is saved unless nothing was touched, no flag is lost, and a
    later run that knows these flags passes the playlist by. *)
Lemma export_playlist_spec (filters : list string) (p : Graph.PlaylistNode)
  (tr : list (string * PyPath.Path)) (self self' : T) :
  resume cfg = true ->
  export_playlist env db cfg filters p tr self = (Ok tt, self') ->
  FileSys.grows (fs self) (fs self') /\
  (self' = self \/ persisted cfg self') /\
  flag_le (state self) (state self') /\
  (forall self2, flag_le (state self') (state self2) ->
     export_playlist env db cfg filters p tr self2 = (Ok tt, self2)).
Proof.
  intros Hres. unfold export_playlist at 1. unfold bind at 1 2. unfold get, lift.
  destruct (completed_flag (state self) (Graph.id p)) as [v|] eqn:Hv;
    [|discriminate].
  (* what a later run does when it reads the flag [v2] *)
  assert (Hlater : forall self2 v2,
            completed_flag (state self2) (Graph.id p) = Ok v2 ->
            truthy v2 = true \/
            path_filtered_out filters
              (fst (Graph.playlist_path (Catalog.playlist_rows db) (Graph.id p)))
              (snd (Graph.playlist_path (Catalog.playlist_rows db) (Graph.id p)))
            = true ->
            export_playlist env db cfg filters p tr self2 = (Ok tt, self2)).
  { intros self2 v2 Hv2 Hcase. unfold export_playlist, bind, get, lift.
    rewrite Hv2. destruct (truthy v2); [done|].
    destruct Hcase as [|Hf]; [done|].
    destruct (Graph.playlist_path _ _) as [rel_dir display]. simpl in Hf.
    by rewrite Hf. }
  destruct (truthy v) eqn:Ht.
  { intros [= <-]. split; [apply grows_refl|]. split; [by left|].
    split; [apply flag_le_refl|].
    intros self2 Hle. destruct (Hle _ _ Hv) as (v2 & Hv2 & Ht2).
    eapply Hlater; [done|]. left. by apply Ht2. }
  destruct (Graph.playlist_path _ _) as [rel_dir display] eqn:Hpp.
  simpl in Hlater.
  destruct (path_filtered_out filters rel_dir display) eqn:Hf.
  { intros [= <-]. split; [apply grows_refl|]. split; [by left|].
    split; [apply flag_le_refl|].
    intros self2 Hle. destruct (Hle _ _ Hv) as (v2 & Hv2 & Ht2).
    eapply Hlater; [done|]. by right. }
  (* the playlist is exported *)
  unfold bind.
  pose proof (export_tracks_flags p (length tr) tr ([], 0) self v Hv) as Hinv.
  destruct (export_tracks env cfg p (length tr) ([], 0) tr self)
    as [[[exported copied]|e] s1]; [|discriminate].
  simpl in Hinv. destruct Hinv as (Hg1 & Hother1 & (v1 & Hv1)).
  set (m3u8_path := PyPath.joinpath _ _).
  (* the manifest *)
  assert (Hman : exists r2 s2,
    (match exported with
     | [] => ret tt
     | _ => on_fs (FileSys.atomic_write_text m3u8_path
                     (Manifest.build_m3u8 display exported))
     end) s1 = (r2, s2) /\ state s2 = state s1 /\
    FileSys.grows (fs s1) (fs s2)).
  { destruct exported.
    - eexists _, _. split; [done|]. split; [done | apply grows_refl].
    - unfold on_fs, FileSys.atomic_write_text.
      pose proof (grows_atomic_write m3u8_path
        (FileSys.Bytes (Manifest.build_m3u8 display (p0 :: exported))) (fs s1)) as Hg.
      destruct (FileSys.atomic_write _ _ (fs s1)) as [r w].
      eexists _, _. split; [done|]. split; [done|]. exact Hg. }
  destruct Hman as (r2 & s2 & -> & Hs2 & Hg2).
  destruct r2 as [[]|e]; [|discriminate].
  rewrite <- Hs2 in Hv1, Hother1.
  destruct (store_status_run p
              [("completed", VBool true);
               ("tracks_total", VInt (Z.of_nat (length tr)));
               ("tracks_exported", VInt (Z.of_nat copied));
               ("m3u8_path", VStr (PyPath.to_str m3u8_path));
               ("name", VStr (Graph.name p))] s2 v1 Hv1)
    as (st' & Hstore & Ho & Hp).
  unfold completed_record. rewrite Hstore.
  intros Hsave. destruct (save_state_run _ _ Hres Hsave) as (Hper & Hst & Hg3).
  simpl in Hst, Hg3, Hp.
  assert (Hflag : completed_flag (state self') (Graph.id p) = Ok (VBool true)).
  { by rewrite Hst. }
  assert (Hoth : forall pid', pid' <> Graph.id p ->
            completed_flag (state self') pid' = completed_flag (state self) pid').
  { intros pid' Hne. rewrite Hst, Ho by done. by apply Hother1. }
  split; [eapply grows_trans; [exact Hg1|]; eapply grows_trans; [exact Hg2 | exact Hg3]|].
  split; [by right|]. split.
  - intros pid' v' Hv'. destruct (decide (pid' = Graph.id p)) as [->|Hne].
    + exists (VBool true). split; [done|]. congruence.
    + exists v'. split; [|done]. by rewrite Hoth.
  - intros self2 Hle. destruct (Hle _ _ Hflag) as (v2 & Hv2 & Ht2).
    eapply Hlater; [done|]. left. by apply Ht2.
Qed.

(** The loop of [export], when it returns: nothing is lost, the state is
    saved unless nothing was touched, and the same loop over a state that
    knows the flags of the end changes nothing. *)
Lemma export_loop_spec (limit : option nat) (filters : list string)
  (l : list Graph.PlaylistNode) (processed : nat) (self self1 : T) :
  resume cfg = true ->
  export_loop env db cfg limit filters processed l self = (Ok tt, self1) ->
  FileSys.grows (fs self) (fs self1) /\
  (self1 = self \/ persisted cfg self1) /\
  flag_le (state self) (state self1) /\
  (forall self2, FileSys.cwd (fs self2) = FileSys.cwd (fs self) ->
     flag_le (state self1) (state self2) ->
     export_loop env db cfg limit filters processed l self2 = (Ok tt, self2)).
Proof.
  intros Hres. revert processed self.
  induction l as [|p rest IH]; intros processed self.
  { intros [= <-]. split; [apply grows_refl|]. split; [by left|].
    split; [apply flag_le_refl | done]. }
  cbn [export_loop]. destruct (limit_reached limit processed).
  { intros [= <-]. split; [apply grows_refl|]. split; [by left|].
    split; [apply flag_le_refl | done]. }
  unfold bind at 1. unfold get, lift. unfold bind at 1.
  destruct (playlist_tracks env db (fs self) (Graph.id p)) as [tr|e] eqn:Htr;
    [|discriminate].
  destruct tr as [|t tr'].
  - intros Hrun. destruct (IH _ _ Hrun) as (Hg & Hp & Hle & Hnoop).
    split; [done|]. split; [done|]. split; [done|].
    intros self2 Hc Hle2. unfold bind, get, lift.
    rewrite (playlist_tracks_cwd (fs self2) (fs self) _ Hc), Htr.
    by apply Hnoop.
  - unfold bind.
    destruct (export_playlist env db cfg filters p (t :: tr') self)
      as [[[]|e] s'] eqn:Hep; [|discriminate].
    destruct (export_playlist_spec _ _ _ _ _ Hres Hep) as (Hg1 & Hp1 & Hle1 & Hnoop1).
    intros Hrun. destruct (IH _ _ Hrun) as (Hg & Hp & Hle & Hnoop).
    split; [by eapply grows_trans|]. split.
    { destruct Hp as [-> | Hp]; [|by right]. done. }
    split; [by eapply flag_le_trans|].
    intros self2 Hc Hle2. unfold bind, get, lift.
    rewrite (playlist_tracks_cwd (fs self2) (fs self) _ Hc), Htr.
    rewrite Hnoop1 by (by eapply flag_le_trans).
    apply Hnoop; [|done]. destruct Hg1 as (Hc1 & _). congruence.
Qed.

Lemma mkdir_p_ok (d : PyPath.Path) (w w' : FileSys.FS) :
  FileSys.mkdir_p d w = (Ok tt, w') ->
  FileSys.is_dir w' (PyPath.key (FileSys.cwd w) d) = true.
Proof.
  unfold FileSys.mkdir_p.
  destruct (FileSys.is_dir w _) eqn:Hd; [by intros [= <-]|].
  destruct (FileSys.is_file w _); [discriminate|].
  destruct (existsb _ _); [discriminate|].
  intros [= <-]. unfold FileSys.is_dir. simpl.
  apply orb_true_iff. left. apply bool_decide_eq_true.
  apply elem_of_union_r, elem_of_list_to_set.
  unfold FileSys.prefixes. apply list_elem_of_In, in_map_iff.
  set (k := PyPath.key (FileSys.cwd w) d) in *.
  destruct k as [|x k'] eqn:Hk.
  { unfold FileSys.is_dir in Hd. rewrite orb_false_iff in Hd.
    destruct Hd as [_ Hd]. by rewrite bool_decide_eq_true_2 in Hd. }
  exists (length (x :: k')). split; [by rewrite firstn_all|].
  apply in_seq. simpl. lia.
Qed.

Lemma load_state_run (self : T) :
  exists st, load_state cfg self = (Ok tt, set_state st self).
Proof.
  unfold load_state, bind, get, try_except, lift, modify, ret.
  destruct (resume cfg && _); [|by exists (state self); destruct self].
  destruct (FileSys.read_file _ _) as [c|e];
    [|by exists (state self); destruct self].
  destruct (FileSys.json_loads c) as [v|e];
    [by exists v | by exists (state self); destruct self].
Qed.

Lemma load_state_persisted (self : T) (st : pyval) :
  resume cfg = true ->
  FileSys.files (fs self) !! PyPath.key (FileSys.cwd (fs self)) (state_path cfg (fs self))
  = Some (FileSys.JsonText st) ->
  load_state cfg self = (Ok tt, set_state st self).
Proof.
  intros Hres Hf.
  unfold load_state, bind, get, try_except, lift, modify, ret.
  unfold FileSys.exists_, FileSys.is_file, FileSys.read_file.
  rewrite Hres, Hf. simpl. done.
Qed.

Lemma exists_grows (w w' : FileSys.FS) (d : PyPath.Path) :
  FileSys.grows w w' -> FileSys.exists_ w d = true -> FileSys.exists_ w' d = true.
Proof.
  intros (Hc & Hf & Hd). unfold FileSys.exists_. rewrite Hc, !orb_true_iff.
  intros [H|H]; auto.
Qed.

(** The second run of [export]: when a run with resume enabled returns,
    the same run on the file system it leaves returns too, and leaves the
    file system (files, directories and the journal of renames) and the
    state as they are. *)
Lemma export_twice (limit : option nat) (filters : list string)
  (w : FileSys.FS) (self1 : T) :
  resume cfg = true ->
  export env db cfg limit filters (init w) = (Ok tt, self1) ->
  exists self2,
    export env db cfg limit filters (init (fs self1)) = (Ok tt, self2) /\
    fs self2 = fs self1 /\ state self2 = state self1.
Proof.
  intros Hres. unfold export at 1. unfold bind at 1. unfold get at 1.
  cbn [init fs].
  destruct (negb (FileSys.exists_ w (usb_root cfg w))) eqn:Hex;
    [discriminate|]. apply negb_false_iff in Hex.
  unfold bind at 1. unfold ret at 1. unfold bind at 1. unfold on_fs at 1.
  cbn [fs init].
  destruct (FileSys.mkdir_p (music_dest_root cfg w) w) as [[[]|e] wa] eqn:Hma;
    [|discriminate].
  unfold bind at 1. unfold on_fs at 1. cbn [fs set_fs].
  destruct (FileSys.mkdir_p (playlists_root cfg w) wa) as [[[]|e] wb] eqn:Hmb;
    [|discriminate].
  pose proof (grows_mkdir_p (music_dest_root cfg w) w) as Hga. rewrite Hma in Hga.
  pose proof (grows_mkdir_p (playlists_root cfg w) wa) as Hgb. rewrite Hmb in Hgb.
  cbn [snd] in Hga, Hgb.
  unfold bind at 1.
  destruct (load_state_run (set_fs wb (set_fs wa (init w)))) as (sl & Hload).
  rewrite Hload. cbn [set_fs set_state init fs state smart_playlist_ids].
  unfold bind at 1. destruct (Catalog.connects db) eqn:Hconn; [|discriminate].
  unfold ret at 1. unfold bind at 1. unfold fetch_playlists.
  unfold bind at 1. unfold modify, ret. unfold bind at 1. unfold get at 1.
  cbn [set_smart smart_playlist_ids state fs].
  set (smart := match Catalog.smart_rows db with Ok ids => ids | Raise _ => [] end).
  set (eligible := List.filter _ _).
  intros Hloop.
  destruct (export_loop_spec _ _ _ _ _ _ Hres Hloop) as (Hg & Hp & Hle & Hnoop).
  cbn [fs state] in Hg, Hnoop.
  assert (Hg1 : FileSys.grows w (fs self1)).
  { eapply grows_trans; [exact Hga|]. eapply grows_trans; [exact Hgb | exact Hg]. }
  assert (Hc1 : FileSys.cwd (fs self1) = FileSys.cwd w) by apply Hg1.
  assert (Hc1b : FileSys.cwd (fs self1) = FileSys.cwd wb) by apply Hg.
  (* the second run, up to [load_state] *)
  assert (Hur : usb_root cfg (fs self1) = usb_root cfg w).
  { unfold usb_root. by rewrite Hc1. }
  assert (Hmr : music_dest_root cfg (fs self1) = music_dest_root cfg w).
  { unfold music_dest_root. by rewrite Hur. }
  assert (Hpr : playlists_root cfg (fs self1) = playlists_root cfg w).
  { unfold playlists_root. by rewrite Hur. }
  assert (Hm1 : FileSys.mkdir_p (music_dest_root cfg w) (fs self1) = (Ok tt, fs self1)).
  { apply mkdir_p_existing. rewrite Hc1.
    destruct Hgb as (_ & _ & Hdb), Hg as (_ & _ & Hd).
    apply Hd, Hdb. by apply mkdir_p_ok in Hma. }
  assert (Hm2 : FileSys.mkdir_p (playlists_root cfg w) (fs self1) = (Ok tt, fs self1)).
  { apply mkdir_p_existing. rewrite Hc1.
    destruct Hga as (Hca & _), Hg as (_ & _ & Hd).
    apply Hd. rewrite <- Hca. by apply mkdir_p_ok in Hmb. }
  assert (Hstart : forall st,
    load_state cfg (init (fs self1)) = (Ok tt, set_state st (init (fs self1))) ->
    export_loop env db cfg limit filters 0 eligible (mkT st smart (fs self1))
    = (Ok tt, mkT st smart (fs self1)) ->
    export env db cfg limit filters (init (fs self1))
    = (Ok tt, mkT st smart (fs self1))).
  { intros st Hl Hlp. unfold export, bind, get, ret, on_fs. cbn [init fs].
    rewrite Hur, Hmr, Hpr, (exists_grows _ _ _ Hg1 Hex). cbn [negb].
    unfold init, set_fs in *. cbn [fs]. rewrite Hm1. cbn [fs smart_playlist_ids state].
    rewrite Hm2. cbn [fs smart_playlist_ids state].
    rewrite Hl. unfold set_state. cbn [smart_playlist_ids state fs]. rewrite Hconn.
    unfold fetch_playlists, bind, modify, ret, get.
    cbn [set_smart smart_playlist_ids state fs]. exact Hlp. }
  destruct Hp as [-> | Hper].
  - (* nothing was touched: the second run starts where the first did *)
    cbn [fs state] in *. exists (mkT sl smart wb).
    split; [|done]. apply Hstart; [exact Hload | exact Hloop].
  - (* the state was saved: the second run loads it *)
    exists (mkT (state self1) smart (fs self1)). split; [|done].
    apply Hstart.
    + apply load_state_persisted; [done|]. exact Hper.
    + apply Hnoop; [done | apply flag_le_refl].
Qed.

End ExporterFacts.

(** ** Pre- and postconditions *)
Section TripleFacts.
Import Py.
Context {S : Type}.

Lemma triple_ret {A} (P : S -> Prop) (a : A) (R : A -> S -> Prop) (E : S -> Prop) :
  (forall s, P s -> R a s) -> triple P (ret a) R E.
Proof. intros H s Hs. by apply H. Qed.

Lemma triple_bind {A B} (P : S -> Prop) (m : M S A) (k : A -> M S B)
  (R : A -> S -> Prop) (R' : B -> S -> Prop) (E : S -> Prop) :
  triple P m R E -> (forall a, triple (R a) (k a) R' E) ->
  triple P (bind m k) R' E.
Proof.
  intros Hm Hk s Hs. specialize (Hm s Hs). unfold bind.
  destruct (m s) as [[a|e] s1]; simpl in *; [by apply Hk | done].
Qed.

Lemma triple_get (P : S -> Prop) (E : S -> Prop) :
  triple P get (fun a s => a = s /\ P s) E.
Proof. intros s Hs. done. Qed.

Lemma triple_inv {A} (I : S -> Prop) (m : M S A) :
  inv I m -> triple I m (fun _ => I) I.
Proof.
  intros Hm s Hs. specialize (Hm s Hs). destruct (m s) as [[a|e] s1]; done.
Qed.

Lemma triple_conseq {A} (P P' : S -> Prop) (m : M S A) (R R' : A -> S -> Prop)
  (E E' : S -> Prop) :
  triple P' m R' E' -> (forall s, P s -> P' s) ->
  (forall a s, R' a s -> R a s) -> (forall s, E' s -> E s) ->
  triple P m R E.
Proof.
  intros Hm HP HR HE s Hs. specialize (Hm s (HP s Hs)).
  destruct (fst (m s)); auto.
Qed.

Lemma triple_try {A} (P : S -> Prop) (m : M S A) (h : exn -> M S A)
  (R : A -> S -> Prop) (E E' : S -> Prop) :
  triple P m R E' -> (forall e, triple E' (h e) R E) ->
  triple P (try_except m h) R E.
Proof.
  intros Hm Hh s Hs. specialize (Hm s Hs). unfold try_except.
  destruct (m s) as [[a|e] s1]; simpl in *; [done | by apply Hh].
Qed.

Lemma triple_get_bind {A} (P : S -> Prop) (k : S -> M S A)
  (R : A -> S -> Prop) (E : S -> Prop) :
  (forall s0, P s0 -> triple (fun s => s = s0) (k s0) R E) ->
  triple P (bind get k) R E.
Proof. intros H s Hs. exact (H s Hs s eq_refl). Qed.

Lemma triple_pure {A} (P : S -> Prop) (Q : Prop) (m : M S A)
  (R : A -> S -> Prop) (E : S -> Prop) :
  (Q -> triple P m R E) -> triple (fun s => P s /\ Q) m R E.
Proof. intros H s [Hs HQ]. by apply H. Qed.

End TripleFacts.

(** ** The copier: a run over completed playlists *)
Section CopierSecondRun.
Import Py Copier.
Variable env : Env.
Variable db : Catalog.DB.
Variable cfg : Config.

(** Steps that leave the file system and [self.state] alone. *)
Section Quiet.
Variable w0 : FileSys.FS.
Variable st0 : pyval.
Let I (s : T) : Prop := fs s = w0 /\ state s = st0.

Lemma quiet_log_ (message level : string) : inv I (log_ env message level).
Proof. intros s Hs. done. Qed.

Lemma quiet_stat_add (k : string) (n : Z) : inv I (stat_add k n).
Proof.
  intros s Hs. unfold stat_add.
  destruct (assoc_get (stats s) k); [|done]. destruct (py_add _ _); done.
Qed.

Lemma quiet_print_stats : inv I print_stats.
Proof.
  intros s Hs. unfold print_stats, bind, get.
  destruct (assoc_get _ _) as [[]|]; done.
Qed.

Lemma quiet_set_stats (f : T -> list (string * pyval)) :
  inv I (modify (fun self => set_stats (f self) self)).
Proof. intros s Hs. done. Qed.

Hint Resolve quiet_log_ quiet_stat_add quiet_print_stats quiet_set_stats : inv_db.

Lemma quiet_get_playlist_tracks (playlist_id : string) :
  inv I (get_playlist_tracks env db playlist_id).
Proof. unfold get_playlist_tracks. inv_auto. Qed.

(** A playlist whose flag is truthy is passed by. *)
Lemma quiet_copy_playlist (playlist : PlaylistInfo) :
  is_completed st0 (id playlist) = true ->
  inv I (copy_playlist env db cfg playlist).
Proof.
  unfold is_completed. destruct (completed_flag st0 (id playlist)) as [v|] eqn:Hv;
    [|done].
  intros Ht s [Hfs Hst]. unfold copy_playlist.
  unfold bind at 1. rewrite log_run. cbn [fst snd].
  unfold bind at 1. unfold get at 1. unfold bind at 1. unfold lift at 1.
  cbn [state]. rewrite Hst, Hv, Ht.
  match goal with |- I (snd (?m ?s')) => assert (Hm : inv I m) end.
  { inv_auto. }
  by apply Hm.
Qed.

Lemma quiet_run_one (n i : nat) (playlist : PlaylistInfo) :
  is_completed st0 (id playlist) = true ->
  inv I (run_one env db cfg n i playlist).
Proof.
  intros Hflag. unfold run_one.
  pose proof (quiet_copy_playlist playlist Hflag). inv_auto.
Qed.

Lemma quiet_run_loop (n i : nat) (playlists : list PlaylistInfo) :
  (forall p, p ∈ playlists -> is_completed st0 (id p) = true) ->
  inv I (run_loop env db cfg n i playlists).
Proof.
  revert i. induction playlists as [|p rest IH]; intros i Hall; simpl.
  - apply inv_ret.
  - apply inv_bind.
    + apply quiet_run_one, Hall. by left.
    + intros _. apply IH. intros q Hq. apply Hall. by right.
Qed.

Lemma quiet_detect_smart_playlists : inv I (detect_smart_playlists env db).
Proof.
  unfold detect_smart_playlists. destruct (Catalog.smart_rows db).
  - apply inv_bind; [|intros _; apply quiet_log_]. intros s Hs. done.
  - apply inv_bind; [apply quiet_log_|]. intros _ s Hs. done.
Qed.

(** What [get_all_playlists] returns has tracks in the catalog, as seen
    from the file system [w0]. *)
Lemma playlist_info_of_spec (node : Graph.PlaylistNode) :
  triple I (playlist_info_of env db node)
    (fun o s => I s /\
       forall p, o = Some p -> id p = Graph.id node /\
         ((0 <? track_count p) = true -> has_tracks env db w0 node = true))
    I.
Proof.
  intros s [Hfs Hst]. unfold playlist_info_of, get_playlist_tracks, bind, get, ret,
    has_tracks, log_, modify.
  cbn [fst snd]. destruct (bool_decide _); cbn [fst snd].
  - split; [done|]. intros p Hp. done.
  - destruct (Catalog.song_rows db (Graph.id node)) as [rows|e]; cbn [fst snd].
    + split; [done|]. intros p [= <-]. cbn [id track_count]. by rewrite <- Hfs.
    + split; [done|]. intros p [= <-]. cbn [id track_count]. done.
Qed.

Lemma collect_infos_spec (nodes : list Graph.PlaylistNode) :
  triple I (collect_infos env db nodes)
    (fun infos s => I s /\
       forall p, p ∈ infos -> (0 <? track_count p) = true ->
       exists node, node ∈ nodes /\ id p = Graph.id node /\
                    has_tracks env db w0 node = true)
    I.
Proof.
  induction nodes as [|node rest IH]; simpl.
  - apply triple_ret. intros s Hs. split; [done|]. intros p Hp. by inversion Hp.
  - eapply triple_bind; [apply playlist_info_of_spec|]. intros o.
    apply triple_pure. intros Ho.
    eapply triple_bind; [apply IH|].
    intros infos. apply triple_ret. intros s [Hs Hrest]. split; [done|].
    intros p Hp Hc. destruct o as [i|].
    + apply elem_of_cons in Hp as [->|Hp].
      * exists node. destruct (Ho i eq_refl) as [Hid Ht].
        split; [by left|]. split; [done | by apply Ht].
      * destruct (Hrest p Hp Hc) as (nd & Hnd & Hid & Ht).
        exists nd. split; [by right | done].
    + destruct (Hrest p Hp Hc) as (nd & Hnd & Hid & Ht).
      exists nd. split; [by right | done].
Qed.

Lemma get_all_playlists_spec :
  all_completed env db w0 st0 = true ->
  triple I (get_all_playlists env db)
    (fun playlists s => I s /\
       forall p, p ∈ playlists -> is_completed st0 (id p) = true)
    I.
Proof.
  intros Hall. unfold get_all_playlists.
  eapply triple_bind; [apply triple_inv, quiet_log_|]. intros u. cbv beta.
  eapply triple_bind; [apply collect_infos_spec|]. intros infos.
  apply triple_pure. intros Hi.
  eapply triple_bind; [apply triple_inv, quiet_log_|].
  intros u'. cbv beta. apply triple_ret. intros s Hs. split; [done|].
  intros p Hp. apply list_elem_of_In, filter_In in Hp as [Hp Hf].
    apply andb_prop in Hf as [_ Hc].
    destruct (Hi p (proj2 (list_elem_of_In _ _) Hp) Hc) as (nd & Hnd & Hid & Ht).
    unfold all_completed in Hall. rewrite forallb_forall in Hall.
    specialize (Hall nd (proj1 (list_elem_of_In _ _) Hnd)).
    rewrite Ht in Hall. simpl in Hall. by rewrite Hid.
Qed.

End Quiet.

(** The first steps of [run] when the state file reads as [st]. *)
Lemma quiet_load_state (w : FileSys.FS) (st : pyval) :
  resume cfg = true ->
  FileSys.read_file w (state_file cfg w) = Ok (FileSys.JsonText st) ->
  triple (fun s => fs s = w) (load_state env cfg)
         (fun _ s => fs s = w /\ state s = st) (fun s => fs s = w /\ state s = st).
Proof.
  intros Hres Hread s Hs.
  assert (Hex : FileSys.exists_ w (state_file cfg w) = true).
  { unfold FileSys.read_file in Hread. unfold FileSys.exists_, FileSys.is_file.
    destruct (FileSys.files w !! _) eqn:Hf; [|by destruct (FileSys.is_dir _ _)].
    rewrite bool_decide_eq_true_2; [done | by eexists]. }
  assert (H : fs (snd (load_state env cfg s)) = w /\
              state (snd (load_state env cfg s)) = st).
  { unfold load_state, try_except, bind, get, lift, modify, log_.
    cbn [fst snd]. rewrite Hres, Hs, Hex. cbn [andb]. rewrite Hread.
    cbn [FileSys.json_loads fst snd].
    destruct (py_get st "stats" (VDict [])) as [stored|e]; cbn [fst snd state fs].
    - destruct stored; cbn [fst snd state fs set_state set_stats raise]; by rewrite <- Hs.
    - by rewrite <- Hs. }
  by destruct (fst (load_state env cfg s)).
Qed.

(** A run over a destination whose state file marks every playlist with
    tracks as completed touches no file: no copy, no manifest, no state
    write. *)
Lemma copier_second_run (w : FileSys.FS) (lg : list string) (clk : nat) (st : pyval) :
  resume cfg = true ->
  FileSys.is_dir w (PyPath.key (FileSys.cwd w) (music_root cfg w)) = true ->
  FileSys.is_dir w (PyPath.key (FileSys.cwd w) (playlists_root cfg w)) = true ->
  FileSys.read_file w (state_file cfg w) = Ok (FileSys.JsonText st) ->
  all_completed env db w st = true ->
  fs (snd (run env db cfg (init w lg clk))) = w.
Proof.
  intros Hres Hmusic Hlists Hread Hall.
  set (F := fun s : T => fs s = w).
  set (I := fun s : T => fs s = w /\ state s = st).
  assert (HIF : forall s, I s -> F s) by (by intros s [? _]).
  assert (Hmk : forall d, FileSys.is_dir w (PyPath.key (FileSys.cwd w) d) = true ->
                inv F (on_fs (FileSys.mkdir_p d))).
  { intros d Hd s Hs. unfold on_fs. rewrite Hs, (mkdir_p_existing _ _ Hd). done. }
  assert (Hbody : triple F (run_body env db cfg) (fun _ => F) F).
  { unfold run_body. apply triple_get_bind. intros s0 Hs0. red in Hs0.
    rewrite Hs0.
    eapply triple_conseq with (P' := F) (R' := fun _ => F) (E' := F);
      [|by intros s -> |done|done].
    eapply triple_bind.
    { apply triple_inv. destruct (negb _); [apply inv_raise | apply inv_ret]. }
    intros u1. cbv beta.
    eapply triple_bind; [apply triple_inv, Hmk, Hmusic|]. intros u2. cbv beta.
    eapply triple_bind; [apply triple_inv, Hmk, Hlists|]. intros u3. cbv beta.
    eapply triple_bind.
    { eapply triple_conseq; [apply (quiet_load_state w st Hres Hread)| | |];
        [done | intros a s Hs; exact Hs | exact HIF]. }
    intros u4. cbv beta.
    eapply triple_conseq with (P' := I) (R' := fun _ => I) (E' := I);
      [|done|intros _; exact HIF|exact HIF].
    eapply triple_bind.
    { apply triple_inv. destruct (Catalog.connects db);
        [apply quiet_log_ | apply inv_raise]. }
    intros u5. cbv beta.
    eapply triple_bind; [apply triple_inv, quiet_detect_smart_playlists|].
    intros u6. cbv beta.
    eapply triple_bind; [apply (get_all_playlists_spec w st Hall)|].
    intros playlists. apply triple_pure. intros Hdone.
    apply triple_inv.
    apply inv_bind; [apply quiet_set_stats|]. intros _.
    apply inv_bind; [destruct (test_mode cfg); [apply quiet_log_ | apply inv_ret]|].
    intros _.
    apply inv_bind; [apply quiet_log_|]. intros _.
    apply inv_bind.
    { apply quiet_run_loop. intros p Hp. apply Hdone.
      destruct (test_mode cfg); [|done].
      apply list_elem_of_In. apply list_elem_of_In in Hp.
      rewrite <- (firstn_skipn 5 playlists). apply in_or_app. by left. }
    intros _.
    apply inv_bind; [apply quiet_print_stats|]. intros _. apply quiet_log_. }
  assert (Hrun : triple F (run env db cfg) (fun _ => F) F).
  { unfold run. eapply triple_try; [exact Hbody|]. intros e.
    apply triple_inv. apply inv_bind; [intros s Hs; done|]. intros _. apply inv_raise. }
  specialize (Hrun (init w lg clk) eq_refl).
  by destruct (fst (run env db cfg (init w lg clk))).
Qed.

End CopierSecondRun.

(** ** Both engines on a second run *)

(** The exporter passes by a playlist whose flag is truthy. *)
Lemma export_playlist_skips (env : Env) (db : Catalog.DB) (cfg : Exporter.Config)
  (filters : list string) (p : Graph.PlaylistNode)
  (tr : list (string * PyPath.Path)) (self : Exporter.T) :
  Py.is_completed (Exporter.state self) (Graph.id p) = true ->
  Exporter.export_playlist env db cfg filters p tr self = (Py.Ok tt, self).
Proof.
  unfold Py.is_completed, Exporter.export_playlist, Py.bind, Py.get, Py.lift.
  destruct (Py.completed_flag _ _) as [v|]; [|done]. by intros ->.
Qed.

(** The copier passes by a playlist whose flag is truthy: it logs and
    counts, and leaves files and state alone. *)
Lemma copy_playlist_skips (env : Env) (db : Catalog.DB) (cfg : Copier.Config)
  (playlist : Copier.PlaylistInfo) (self : Copier.T) :
  Py.is_completed (Copier.state self) (Copier.id playlist) = true ->
  Copier.fs (snd (Copier.copy_playlist env db cfg playlist self)) = Copier.fs self /\
  Copier.state (snd (Copier.copy_playlist env db cfg playlist self))
  = Copier.state self.
Proof.
  intros H.
  exact (quiet_copy_playlist env db cfg (Copier.fs self) (Copier.state self)
           playlist H self (conj eq_refl eq_refl)).
Qed.



(** ** Splitting and joining at slashes *)
Section SlashFacts.
Import PyStr PyPath.

Lemma prefix_slash (c : ascii) (s : string) :
  String.prefix "/" (String c s) = Ascii.eqb c slash.
Proof.
  change (String.prefix "/" (String c s))
    with (if ascii_dec "/" c then String.prefix "" s else false).
  destruct (ascii_dec "/" c) as [<-|Hne].
  - by destruct s.
  - symmetry. apply Ascii.eqb_neq. intros ->. by apply Hne.
Qed.

Lemma str_app_cons (c : ascii) (a b : string) :
  String c a +:+ b = String c (a +:+ b).
Proof. reflexivity. Qed.

Lemma str_app_nil_r (s : string) : s +:+ "" = s.
Proof. induction s as [|c s IH]; [done | by rewrite str_app_cons, IH]. Qed.

Lemma str_app_assoc (a b c : string) : (a +:+ b) +:+ c = a +:+ (b +:+ c).
Proof. induction a as [|x a IH]; [done | by rewrite !str_app_cons, IH]. Qed.

Lemma split_go_free (x rest cur : string) :
  slash_free x = true ->
  split_go "/" (x +:+ rest) 0 cur = split_go "/" rest 0 (cur +:+ x).
Proof.
  revert cur. induction x as [|c x IH]; intros cur Hx.
  - by rewrite str_app_nil_r.
  - simpl in Hx. apply andb_prop in Hx as [Hc Hx].
    rewrite str_app_cons. cbn [split_go]. rewrite prefix_slash.
    destruct (Ascii.eqb c slash); [done|].
    rewrite (IH _ Hx). by rewrite str_app_assoc.
Qed.

Lemma split_go_slash (rest cur : string) :
  split_go "/" ("/" +:+ rest) 0 cur = cur :: split_go "/" rest 0 "".
Proof.
  change ("/" +:+ rest) with (String slash rest). cbn [split_go].
  by rewrite prefix_slash.
Qed.

Lemma split_join (p : string) (ps : list string) (cur : string) :
  forallb slash_free (p :: ps) = true ->
  split_go "/" (join "/" (p :: ps)) 0 cur = (cur +:+ p) :: ps.
Proof.
  revert p cur. induction ps as [|q ps IH]; intros p cur Hall.
  - simpl in Hall. apply andb_prop in Hall as [Hp _].
    cbn [join]. rewrite <- (str_app_nil_r p) at 1.
    by rewrite (split_go_free _ _ _ Hp).
  - cbn [forallb] in Hall. apply andb_prop in Hall as [Hp Hall].
    change (join "/" (p :: q :: ps)) with (p +:+ "/" +:+ join "/" (q :: ps)).
    rewrite (split_go_free _ _ _ Hp), split_go_slash, (IH _ _ Hall). done.
Qed.

(** The pieces of a split hold no slash. *)
Lemma slash_free_app (a b : string) :
  slash_free (a +:+ b) = slash_free a && slash_free b.
Proof.
  induction a as [|c a IH]; [done|]. rewrite str_app_cons. cbn [slash_free].
  rewrite IH. by rewrite andb_assoc.
Qed.

Lemma split_go_pieces (s cur : string) :
  slash_free cur = true -> forallb slash_free (split_go "/" s 0 cur) = true.
Proof.
  revert cur. induction s as [|c s IH]; intros cur Hcur.
  - simpl. by rewrite Hcur.
  - cbn [split_go]. rewrite prefix_slash.
    destruct (Ascii.eqb c slash) eqn:Hc.
    + cbn [forallb String.length Nat.sub]. rewrite Hcur. by apply IH.
    + apply IH. rewrite slash_free_app, Hcur. simpl. by rewrite Hc.
Qed.

Lemma seg_ok_keep (x : string) : seg_ok x = true -> keep_seg x = true.
Proof.
  unfold seg_ok, keep_seg. intros H. apply andb_prop in H as [H H3].
  apply andb_prop in H as [H1 _]. by rewrite H1, H3.
Qed.

Lemma filter_keeps_all {A} (f : A -> bool) (l : list A) :
  forallb f l = true -> List.filter f l = l.
Proof.
  induction l as [|x l IH]; simpl; [done|]. intros H.
  apply andb_prop in H as [-> H]. by rewrite IH.
Qed.

Lemma forallb_weaken {A} (f g : A -> bool) (l : list A) :
  (forall x, f x = true -> g x = true) -> forallb f l = true -> forallb g l = true.
Proof.
  intros Hfg. induction l as [|x l IH]; simpl; [done|]. intros H.
  apply andb_prop in H as [Hx H]. by rewrite (Hfg _ Hx), IH.
Qed.

(** Parsing a joined list of segments gives the segments back. *)
Lemma of_str_join (l : list string) :
  forallb seg_ok l = true ->
  of_str (match l with [] => "." | _ => join "/" l end) = mkPath "" l.
Proof.
  destruct l as [|p ps]; [done|]. intros Hall.
  assert (Hfree : forallb slash_free (p :: ps) = true).
  { revert Hall. apply forallb_weaken. unfold seg_ok. intros x H.
    apply andb_prop in H as [H _]. by apply andb_prop in H as [_ H]. }
  assert (Hroot : split_root (join "/" (p :: ps)) = ("", join "/" (p :: ps))).
  { cbn [forallb] in Hall. apply andb_prop in Hall as [Hp _].
    unfold seg_ok in Hp. apply andb_prop in Hp as [Hp _].
    apply andb_prop in Hp as [Hp1 Hp2].
    destruct p as [|c p]; [done|]. simpl in Hp2.
    apply andb_prop in Hp2 as [Hc _].
    destruct ps; simpl; by destruct (Ascii.eqb c slash). }
  unfold of_str. rewrite Hroot. unfold split.
  rewrite (split_join _ _ _ Hfree). simpl ("" +:+ p).
  rewrite filter_keeps_all; [done|]. revert Hall. apply forallb_weaken, seg_ok_keep.
Qed.

(** A parsed path has well-formed segments. *)
Lemma of_str_segs_ok (s : string) : forallb seg_ok (segs (of_str s)) = true.
Proof.
  unfold of_str. destruct (split_root s) as [r rel]. cbn [segs].
  unfold split. pose proof (split_go_pieces rel "" eq_refl) as H.
  induction (split_go "/" rel 0 "") as [|x l IH]; simpl; [done|].
  simpl in H. apply andb_prop in H as [Hx H].
  destruct (keep_seg x) eqn:Hk; [|by apply IH].
  simpl. rewrite (IH H), andb_true_r. unfold seg_ok. unfold keep_seg in Hk.
  apply andb_prop in Hk as [-> ->]. by rewrite Hx.
Qed.

End SlashFacts.

(** ** Normalised paths and the way back from a relative path *)
Section RelpathFacts.
Import PyStr PyPath Manifest.

Lemma norm_go_app (st a b : list string) :
  norm_go st (a ++ b) = norm_go (rev (norm_go st a)) b.
Proof.
  revert st. induction a as [|x a IH]; intros st; simpl.
  - by rewrite rev_involutive.
  - destruct (String.eqb x ".."); apply IH.
Qed.

Lemma norm_go_names (st l : list string) :
  forallb name_ok l = true -> norm_go st l = rev st ++ l.
Proof.
  revert st. induction l as [|x l IH]; intros st H; simpl.
  - by rewrite app_nil_r.
  - simpl in H. apply andb_prop in H as [Hx H].
    unfold name_ok in Hx. apply andb_prop in Hx as [_ Hx].
    apply negb_true_iff in Hx. rewrite Hx, (IH _ H). simpl.
    by rewrite <- app_assoc.
Qed.

Lemma norm_go_ok (st l : list string) :
  forallb name_ok st = true -> forallb seg_ok l = true ->
  forallb name_ok (norm_go st l) = true.
Proof.
  revert st. induction l as [|x l IH]; intros st Hst Hl; simpl.
  - rewrite forallb_forall in *. intros y Hy. apply Hst. by apply in_rev.
  - simpl in Hl. apply andb_prop in Hl as [Hx Hl].
    destruct (String.eqb x "..") eqn:Hdd.
    + apply IH; [|done]. destruct st; [done|]. simpl in Hst.
      by apply andb_prop in Hst as [_ ?].
    + apply IH; [|done]. simpl. unfold name_ok at 1. by rewrite Hx, Hdd, Hst.
Qed.

Lemma key_ok (cwd : list string) (p : Path) :
  forallb name_ok cwd = true -> forallb seg_ok (segs p) = true ->
  forallb name_ok (key cwd p) = true.
Proof.
  intros Hcwd Hp. unfold key. apply norm_go_ok; [done|].
  rewrite forallb_app, Hp, andb_true_r.
  destruct (is_absolute p); [done|]. revert Hcwd. apply forallb_weaken.
  unfold name_ok. intros x H. by apply andb_prop in H as [? _].
Qed.

Lemma norm_go_up (st : list string) (n : nat) (l : list string) :
  norm_go st (repeat ".." n ++ l) = norm_go (List.skipn n st) l.
Proof.
  revert st. induction n as [|n IH]; intros st; simpl; [done|].
  rewrite IH. by destruct st; [destruct n|].
Qed.

Lemma common_len_le (a b : list string) :
  common_len a b <= length a /\ common_len a b <= length b.
Proof.
  revert b. induction a as [|x a IH]; intros [|y b]; simpl; try lia.
  destruct (String.eqb x y); simpl; [|lia]. specialize (IH b). lia.
Qed.

Lemma common_len_take (a b : list string) :
  List.firstn (common_len a b) a = List.firstn (common_len a b) b.
Proof.
  revert b. induction a as [|x a IH]; intros [|y b]; simpl; try done.
  destruct (String.eqb x y) eqn:Hxy; [|done].
  apply String.eqb_eq in Hxy as ->. simpl. by rewrite IH.
Qed.

Lemma skipn_rev_take {A} (l : list A) (i : nat) :
  i <= length l -> List.skipn (length l - i) (rev l) = rev (List.firstn i l).
Proof.
  intros Hi. rewrite <- (firstn_skipn i l) at 2.
  rewrite rev_app_distr.
  assert (Hlen : length l - i = length (rev (List.skipn i l))).
  { rewrite length_rev, length_skipn. done. }
  rewrite Hlen, skipn_app, skipn_all, Nat.sub_diag. done.
Qed.

(** The segments of [relpath] are well formed. *)
Lemma rel_list_ok (cwd : list string) (path start : Path) :
  forallb name_ok (key cwd path) = true ->
  forallb seg_ok (rel_list cwd path start) = true.
Proof.
  intros Hp. unfold rel_list. rewrite forallb_app. apply andb_true_intro. split.
  - induction (length _ - _) as [|n IH]; simpl; [done | by rewrite IH].
  - rewrite forallb_forall in *. intros x Hx.
    assert (Hin : In x (key cwd path)).
    { rewrite <- (firstn_skipn (common_len (key cwd start) (key cwd path))).
      apply in_or_app. by right. }
    specialize (Hp x Hin). unfold name_ok in Hp. by apply andb_prop in Hp as [? _].
Qed.

(** Resolving the relative path against the start gives the path. *)
Lemma relpath_back (cwd : list string) (path start : Path) :
  forallb name_ok (key cwd path) = true ->
  key cwd (joinpath start (of_str (relpath cwd path start))) = key cwd path.
Proof.
  intros Hp.
  assert (Hof : of_str (relpath cwd path start) = mkPath "" (rel_list cwd path start)).
  { rewrite <- (of_str_join _ (rel_list_ok cwd path start Hp)). unfold relpath.
    by destruct (rel_list cwd path start). }
  rewrite Hof. unfold joinpath. cbn [root is_empty segs].
  unfold key at 1. unfold is_absolute. cbn [root segs].
  rewrite app_assoc, norm_go_app.
  change (norm_go [] ((if negb (is_empty (root start)) then [] else cwd) ++ segs start))
    with (key cwd start).
  unfold rel_list. rewrite norm_go_up.
  pose proof (common_len_le (key cwd start) (key cwd path)) as [Hle1 Hle2].
  rewrite (skipn_rev_take _ _ Hle1).
  rewrite norm_go_names.
  - rewrite rev_involutive, common_len_take. apply firstn_skipn.
  - rewrite forallb_forall in *. intros x Hx. apply Hp.
    rewrite <- (firstn_skipn (common_len (key cwd start) (key cwd path))).
    apply in_or_app. by right.
Qed.

(** The relative path does not start at the root. *)
Lemma relpath_not_absolute (cwd : list string) (path start : Path) :
  forallb name_ok (key cwd path) = true ->
  startswith (relpath cwd path start) "/" = false.
Proof.
  intros Hp. pose proof (rel_list_ok cwd path start Hp) as Hok.
  unfold relpath. destruct (rel_list cwd path start) as [|x l]; [done|].
  cbn [forallb] in Hok. apply andb_prop in Hok as [Hx _].
  unfold seg_ok in Hx. apply andb_prop in Hx as [Hx _].
  apply andb_prop in Hx as [Hx1 Hx2].
  destruct x as [|c x]; [done|]. simpl in Hx2. apply andb_prop in Hx2 as [Hc _].
  unfold startswith.
  assert (Hj : exists r, join "/" (String c x :: l) = String c r).
  { destruct l; simpl; eauto. }
  destruct Hj as [r ->]. rewrite prefix_slash. by apply negb_true_iff.
Qed.

End RelpathFacts.

(** ** The path lines of the manifests *)
Section ManifestFacts.
Import PyStr PyPath Manifest.
Variable env : Env.

Lemma joinpath_segs_ok (p q : Path) :
  forallb seg_ok (segs p) = true -> forallb seg_ok (segs q) = true ->
  forallb seg_ok (segs (joinpath p q)) = true.
Proof.
  intros Hp Hq. unfold joinpath. destruct (is_empty (root q)); [|done].
  cbn [segs]. by rewrite forallb_app, Hp, Hq.
Qed.

(** The destination [copy_track] computes has a well-formed name. *)
Lemma copier_dest_ok (cfg : Copier.Config) (w : FileSys.FS) (rel : string) :
  forallb name_ok (FileSys.cwd w) = true ->
  forallb name_ok
    (key (FileSys.cwd w) (joinpath (Copier.music_root cfg w) (of_str rel))) = true.
Proof.
  intros Hcwd. apply key_ok; [done|].
  apply joinpath_segs_ok; [|apply of_str_segs_ok].
  unfold Copier.music_root. apply joinpath_segs_ok; [|apply of_str_segs_ok].
  unfold Copier.usb_root, resolve. cbn [segs].
  eapply forallb_weaken; [|apply key_ok; [exact Hcwd | apply of_str_segs_ok]].
  unfold name_ok. intros x H. by apply andb_prop in H as [? _].
Qed.

Lemma pair_lines_lookup {A} (f g : A -> string) (l : list A) (k : nat) (x : A) :
  l !! k = Some x ->
  flat_map (fun a => [f a; g a]) l !! (2 * k) = Some (f x) /\
  flat_map (fun a => [f a; g a]) l !! (2 * k + 1) = Some (g x).
Proof.
  revert k. induction l as [|a l IH]; intros [|k] Hk; simplify_eq/=; [done|].
  replace (k + S (k + 0)) with (S (2 * k)) by lia.
  replace (k + S (k + 0) + 1) with (S (2 * k + 1)) by lia.
  simpl. replace (k + (k + 0)) with (2 * k) by lia. by apply IH.
Qed.


End ManifestFacts.



(** ** A failing playlist in each engine *)

(** The counters of a new copier are integers. *)
Lemma stats_int_init (w : FileSys.FS) (lg : list string) (clk : nat) (st : Py.pyval) :
  Copier.stats_int (Copier.stats (Copier.set_state st (Copier.init w lg clk))).
Proof.
  intros k Hk. vm_compute in Hk.
  repeat (apply elem_of_cons in Hk as [-> | Hk]; [eexists; reflexivity|]).
  by apply elem_of_nil in Hk.
Qed.



(** The three loaders on a stick whose state files hold [{not json]. *)
Lemma corrupt_state_witness :
  Exporter.load_state Demo.xcfg (Exporter.init Demo.corrupt_fs)
  = (Py.Ok tt, Exporter.init Demo.corrupt_fs) /\
  Copier.state (snd (Copier.load_state Demo.env Demo.ccfg
                       (Copier.init Demo.corrupt_fs [] 0))) = Copier.state0 /\
  Copier.fs (snd (Copier.load_state Demo.env Demo.ccfg
                    (Copier.init Demo.corrupt_fs [] 0))) = Demo.corrupt_fs /\
  Copier.log (snd (Copier.load_state Demo.env Demo.ccfg
                     (Copier.init Demo.corrupt_fs [] 0)))
  = ["[2025-01-01 00:00:00] WARN: Warning: Could not load state file: JSONDecodeError"].
Proof.
  destruct (corrupt_state_is_ignored Demo.env Demo.corrupt_fs "{not json")
    as (Hx & Hc & _ & _).
  split; [apply Hx; vm_compute; reflexivity|].
  destruct (Hc Demo.ccfg [] 0) as (_ & Hst & _ & Hfs); [vm_compute; reflexivity|].
  split; [exact Hst|]. split; [exact Hfs|]. vm_compute. reflexivity.
Defined.

(** ** Characters of a string *)
Section CharFacts.
Import PyStr.

Lemma has_char_app (c : ascii) (a b : string) :
  has_char c (a +:+ b) = has_char c a || has_char c b.
Proof.
  induction a as [|x a IH]; [done|]. rewrite str_app_cons. cbn [has_char].
  by rewrite IH, orb_assoc.
Qed.

Lemma prefix_one (c a : ascii) (s : string) :
  String.prefix (String c "") (String a s) = Ascii.eqb a c.
Proof.
  change (String.prefix (String c "") (String a s))
    with (if ascii_dec c a then String.prefix "" s else false).
  destruct (ascii_dec c a) as [<-|Hne].
  - rewrite Ascii.eqb_refl. by destruct s.
  - symmetry. apply Ascii.eqb_neq. intros ->. by apply Hne.
Qed.

(** A replacement brings in no character that neither the string nor the
    new text holds. *)
Lemma replace_go_keeps_out (c : ascii) (old new s : string) (k : nat) :
  has_char c new = false -> has_char c s = false ->
  has_char c (replace_go old new s k) = false.
Proof.
  intros Hnew. revert k. induction s as [|a s IH]; intros k Hs; [done|].
  cbn [has_char] in Hs. apply orb_false_elim in Hs as [Ha Hs].
  cbn [replace_go]. destruct k as [|k]; [|by apply IH].
  destruct (String.prefix old (String a s)).
  - rewrite has_char_app, Hnew. by apply IH.
  - cbn [has_char]. rewrite Ha. by apply IH.
Qed.

Lemma replace_keeps_out (c : ascii) (old new s : string) :
  has_char c new = false -> has_char c s = false ->
  has_char c (replace old new s) = false.
Proof. apply replace_go_keeps_out. Qed.

(** Replacing a character removes it. *)
Lemma replace_removes (c : ascii) (new s : string) :
  has_char c new = false -> has_char c (replace (String c "") new s) = false.
Proof.
  intros Hnew. unfold replace. induction s as [|a s IH]; [done|].
  cbn [replace_go]. rewrite prefix_one. destruct (Ascii.eqb a c) eqn:Ha.
  - rewrite has_char_app, Hnew. exact IH.
  - cbn [has_char]. rewrite Ha. exact IH.
Qed.

(** Replacing a character that does not occur changes nothing. *)
Lemma replace_absent (c : ascii) (new s : string) :
  has_char c s = false -> replace (String c "") new s = s.
Proof.
  unfold replace. induction s as [|a s IH]; [done|]. intros Hs.
  cbn [has_char] in Hs. apply orb_false_elim in Hs as [Ha Hs].
  cbn [replace_go]. rewrite prefix_one, Ha. by rewrite IH.
Qed.

Lemma has_char_take (c : ascii) (n : nat) (s : string) :
  has_char c s = false -> has_char c (take n s) = false.
Proof.
  revert n. induction s as [|a s IH]; intros [|n] Hs; try done.
  cbn [has_char] in Hs. apply orb_false_elim in Hs as [Ha Hs].
  cbn [take has_char]. rewrite Ha. by apply IH.
Qed.

Lemma has_char_lstrip (c : ascii) (s : string) :
  has_char c s = false -> has_char c (lstrip s) = false.
Proof.
  induction s as [|a s IH]; [done|]. intros Hs. cbn [lstrip].
  destruct (is_space a); [|done].
  cbn [has_char] in Hs. apply orb_false_elim in Hs as [_ Hs]. by apply IH.
Qed.

Lemma has_char_rstrip (c : ascii) (s : string) :
  has_char c s = false -> has_char c (rstrip s) = false.
Proof.
  induction s as [|a s IH]; [done|]. intros Hs.
  cbn [has_char] in Hs. apply orb_false_elim in Hs as [Ha Hs].
  specialize (IH Hs). cbn [rstrip]. destruct (rstrip s) as [|b r].
  - destruct (is_space a); [done|]. cbn [has_char]. by rewrite Ha.
  - cbn [has_char] in *. by rewrite Ha.
Qed.

Lemma has_char_strip (c : ascii) (s : string) :
  has_char c s = false -> has_char c (strip s) = false.
Proof. intros Hs. by apply has_char_rstrip, has_char_lstrip. Qed.

Lemma length_take (n : nat) (s : string) : String.length (take n s) <= n.
Proof.
  revert n. induction s as [|a s IH]; intros [|n]; simpl; try lia.
  specialize (IH n). lia.
Qed.

Lemma take_all (n : nat) (s : string) : String.length s <= n -> take n s = s.
Proof.
  revert n. induction s as [|a s IH]; intros [|n] Hn; simpl in *; try done; try lia.
  rewrite IH; [done | lia].
Qed.

End CharFacts.

(** ** [safe_filename] *)
Section SafeFilenameFacts.
Import PyStr Copier.

Ltac char_out :=
  repeat first
    [ apply replace_removes; reflexivity
    | apply replace_keeps_out; [reflexivity|] ].

Lemma safe_filename_keeps_out (name : string) (c : ascii) :
  c ∈ unsafe_chars -> has_char c (safe_filename name) = false.
Proof.
  intros Hc. unfold safe_filename. apply has_char_take, has_char_strip.
  unfold unsafe_chars in Hc.
  repeat (apply elem_of_cons in Hc as [-> | Hc]; [char_out|]).
  by apply elem_of_nil in Hc.
Qed.

(** X1.  [safe_filename] never returns one of the nine characters it
    replaces or deletes: slash, backslash, colon, the two angle brackets,
    bar, question mark, star and double quote.  For an ASCII name the
    result has at most 100 characters, and a name that holds none of the
    nine, has no white space at either end and is at most 100 characters
    long comes back as it is. *)
Theorem safe_filename_is_safe (name : string) :
  (forall c, c ∈ unsafe_chars -> has_char c (safe_filename name) = false) /\
  (is_ascii name = true ->
   String.length (safe_filename name) <= 100 /\
   ((forall c, c ∈ unsafe_chars -> has_char c name = false) ->
    strip name = name -> String.length name <= 100 ->
    safe_filename name = name)).
Proof.
  split; [|intros _; split].
  - intros c. apply safe_filename_keeps_out.
  - apply length_take.
  - intros Hsafe Hstrip Hlen. unfold safe_filename, Resolver.backslash, dquote.
    assert (Hin : forall c new, c ∈ unsafe_chars ->
              replace (String c "") new name = name).
    { intros c new Hc. by apply replace_absent, Hsafe. }
    rewrite (Hin "/"%char), (Hin (ascii_of_nat 92)), (Hin ":"%char),
      (Hin "<"%char), (Hin ">"%char), (Hin "|"%char), (Hin "?"%char),
      (Hin "*"%char), (Hin (ascii_of_nat 34));
      try (unfold unsafe_chars; set_solver).
    by rewrite Hstrip, take_all.
Qed.

End SafeFilenameFacts.

(** ** Suffixes, occurrences and the first piece of a split *)
Section OccurrenceFacts.
Import PyStr.

Lemma last_char_cons (c : ascii) (s : string) :
  s <> "" -> last_char (String c s) = last_char s.
Proof. by destruct s. Qed.

Lemma last_char_app (a b : string) : b <> "" -> last_char (a +:+ b) = last_char b.
Proof.
  intros Hb. induction a as [|c a IH]; [done|].
  rewrite str_app_cons, last_char_cons; [done|]. by destruct a, b.
Qed.

Lemma endswith_unfold (s suf : string) :
  endswith s suf
  = String.eqb s suf || match s with
                        | EmptyString => false
                        | String _ s' => endswith s' suf
                        end.
Proof. by destruct s. Qed.

(** A string ends like its suffix. *)
Lemma endswith_last_char (s suf : string) :
  suf <> "" -> endswith s suf = true -> last_char s = last_char suf.
Proof.
  intros Hsuf. induction s as [|c s IH]; rewrite endswith_unfold.
  - intros H. apply orb_prop in H as [H|H]; [|done].
    apply String.eqb_eq in H. by subst.
  - intros H. apply orb_prop in H as [H|H].
    + apply String.eqb_eq in H. by subst.
    + rewrite last_char_cons; [by apply IH|].
      intros ->. rewrite endswith_unfold in H. apply orb_prop in H as [H|H]; [|done].
      apply String.eqb_eq in H. by subst.
Qed.

Lemma prefix_app_same (p t : string) : String.prefix p (p +:+ t) = true.
Proof.
  induction p as [|c p IH]; [by destruct t|].
  rewrite str_app_cons.
  change (String.prefix (String c p) (String c (p +:+ t)))
    with (if ascii_dec c c then String.prefix p (p +:+ t) else false).
  by destruct (ascii_dec c c).
Qed.

(** Whether [p] starts a string is read off its first [length p] characters. *)
Lemma prefix_app_long (p s t : string) :
  String.length p <= String.length s ->
  String.prefix p (s +:+ t) = String.prefix p s.
Proof.
  revert s. induction p as [|c p IH]; intros s Hlen.
  - by destruct s, t.
  - destruct s as [|a s]; [simpl in Hlen; lia|].
    rewrite str_app_cons.
    change (String.prefix (String c p) (String a (s +:+ t)))
      with (if ascii_dec c a then String.prefix p (s +:+ t) else false).
    change (String.prefix (String c p) (String a s))
      with (if ascii_dec c a then String.prefix p s else false).
    destruct (ascii_dec c a); [|done]. apply IH. simpl in Hlen. lia.
Qed.

Lemma contains_unfold (sub s : string) :
  contains sub s
  = String.prefix sub s || match s with
                           | EmptyString => false
                           | String _ s' => contains sub s'
                           end.
Proof. by destruct s. Qed.

Lemma contains_app_same (sub a t : string) : contains sub (a +:+ sub +:+ t) = true.
Proof.
  induction a as [|c a IH].
  - change ("" +:+ sub +:+ t) with (sub +:+ t).
    by rewrite contains_unfold, prefix_app_same.
  - rewrite str_app_cons, contains_unfold, IH. by rewrite orb_true_r.
Qed.

Lemma length_app_str (a b : string) :
  String.length (a +:+ b) = String.length a + String.length b.
Proof. induction a as [|c a IH]; [done|]. rewrite str_app_cons. simpl. by rewrite IH. Qed.

(** The first piece of a split is what stands before the first occurrence
    of the separator: [u +:+ String z ""] is the separator, and it occurs
    nowhere in [a +:+ u]. *)
Lemma split_go_first (u : string) (z : ascii) (a t cur : string) :
  contains (u +:+ String z "") (a +:+ u) = false ->
  List.hd "" (split_go (u +:+ String z "") (a +:+ (u +:+ String z "") +:+ t) 0 cur)
  = cur +:+ a.
Proof.
  set (sep := u +:+ String z "").
  assert (Hsep : exists c r, sep = String c r).
  { unfold sep. destruct u; [by eexists _, _|]. rewrite str_app_cons. by eexists _, _. }
  revert cur. induction a as [|c a IH]; intros cur Hno.
  - change ("" +:+ sep +:+ t) with (sep +:+ t).
    destruct Hsep as (c & r & Hc). rewrite str_app_nil_r.
    assert (Hp : String.prefix sep (sep +:+ t) = true) by apply prefix_app_same.
    assert (Hst : sep +:+ t = String c (r +:+ t)) by (by rewrite Hc).
    rewrite Hst in Hp |- *. cbn [split_go]. by rewrite Hp.
  - rewrite contains_unfold in Hno. rewrite str_app_cons in Hno.
    apply orb_false_elim in Hno as [Hp Hno].
    rewrite str_app_cons. cbn [split_go].
    assert (Hp' : String.prefix sep (String c (a +:+ sep +:+ t)) = false).
    { unfold sep at 2. rewrite <- str_app_cons.
      replace (String c a +:+ (u +:+ String z "") +:+ t)
        with ((String c a +:+ u) +:+ (String z "" +:+ t))
        by (by rewrite !str_app_assoc).
      rewrite prefix_app_long; [by rewrite str_app_cons|].
      unfold sep. rewrite !length_app_str. simpl. lia. }
    rewrite Hp'. rewrite (IH _ Hno). by rewrite str_app_assoc.
Qed.

End OccurrenceFacts.

(** ** The path construction of the two normalisers *)
Section ConstructFacts.
Import PyStr Resolver.

(** What both normalisers make of the folder before they look at the name. *)
Lemma slashed_ends_in_slash (folder : string) :
  folder <> "" ->
  last_char (if negb (endswith folder "/") then folder +:+ "/" else folder)
  = Some PyPath.slash.
Proof.
  intros Hne. destruct (endswith folder "/") eqn:He; cbn [negb].
  - by rewrite (endswith_last_char _ "/" ltac:(done) He).
  - by rewrite last_char_app.
Qed.

(** X2.  The path construction of [normalize_rekordbox_path], for a folder
    that is not empty and a file name that does not end in a slash.  The
    folder has got its trailing slash when the two [endswith] tests run, so
    neither of them holds.  What is returned is the folder, slash-ended,
    followed by the name when the folder holds no occurrence of the name
    between two slashes, and otherwise what precedes the first such
    occurrence, followed by a slash and the name. *)
Theorem construct_full_path_cuts_after_name (folder filename : string) (c : ascii) :
  folder <> "" -> last_char filename = Some c -> c <> PyPath.slash ->
  let folder_path :=
    if negb (endswith folder "/") then folder +:+ "/" else folder in
  (contains ("/" +:+ filename +:+ "/") folder_path = false ->
   construct_full_path folder filename = folder_path +:+ filename) /\
  (forall a t,
     folder_path = a +:+ ("/" +:+ filename +:+ "/") +:+ t ->
     contains ("/" +:+ filename +:+ "/") (a +:+ "/" +:+ filename) = false ->
     construct_full_path folder filename = a +:+ "/" +:+ filename).
Proof.
  intros Hne Hlast Hc folder_path.
  assert (Hfn : filename <> "") by (by intros ->).
  assert (Hslash : last_char folder_path = Some PyPath.slash)
    by (by apply slashed_ends_in_slash).
  assert (Hdead : forall x, endswith folder_path (x +:+ filename) = false).
  { intros x. destruct (endswith folder_path (x +:+ filename)) eqn:He; [|done].
    apply endswith_last_char in He.
    - rewrite Hslash, last_char_app, Hlast in He by done. congruence.
    - destruct x; [done|]. by rewrite str_app_cons. }
  assert (Hunf : construct_full_path folder filename
                 = if contains ("/" +:+ filename +:+ "/") folder_path
                   then List.hd "" (split ("/" +:+ filename +:+ "/") folder_path)
                        +:+ "/" +:+ filename
                   else folder_path +:+ filename).
  { unfold construct_full_path. fold folder_path.
    destruct folder; [done|]. cbn [is_empty negb].
    rewrite (Hdead "/").
    replace (filename +:+ "/" +:+ filename) with ((filename +:+ "/") +:+ filename)
      by (by rewrite str_app_assoc).
    by rewrite (Hdead (filename +:+ "/")). }
  split.
  - intros Hno. by rewrite Hunf, Hno.
  - intros a t Hfp Hfirst. rewrite Hunf, Hfp, contains_app_same.
    unfold split.
    replace ("/" +:+ filename +:+ "/")
      with (("/" +:+ filename) +:+ String PyPath.slash "")
      in * by (by rewrite str_app_assoc).
    rewrite split_go_first; [done|].
    exact Hfirst.
Qed.

(** X3.  The string [_normalize_rb_path] hands to [Path], for a name that
    does not end in a slash: the guard against a double join never holds,
    and the string is always the folder, with a slash added when it is not
    empty and has none at its end, followed by the name. *)
Theorem rb_full_guard_is_dead (folder name : string) (c : ascii) :
  last_char name = Some c -> c <> PyPath.slash ->
  rb_full folder name
  = (if negb (is_empty folder) && negb (endswith folder "/")
     then folder +:+ "/" else folder) +:+ name.
Proof.
  intros Hlast Hc. unfold rb_full.
  set (fp := if negb (is_empty folder) && negb (endswith folder "/")
             then folder +:+ "/" else folder).
  destruct (endswith fp ("/" +:+ name)) eqn:He; [|done].
  apply endswith_last_char in He; [|done].
  rewrite last_char_app, Hlast in He by (by intros ->).
  assert (Hfp : last_char fp = Some PyPath.slash \/ fp = "").
  { unfold fp. destruct folder as [|x f]; [by right|]. left. cbn [is_empty negb andb].
    apply slashed_ends_in_slash. done. }
  destruct Hfp as [Hfp|Hfp]; rewrite Hfp in He; simpl in He; congruence.
Qed.

End ConstructFacts.

Lemma construct_full_path_witness :
  Resolver.construct_full_path "/music/Song.flac/cd1" "Song.flac" = "/music/Song.flac".
Proof.
  pose proof (construct_full_path_cuts_after_name "/music/Song.flac/cd1" "Song.flac"
                "c"%char ltac:(discriminate) eq_refl ltac:(discriminate)) as H.
  cbv zeta in H. destruct H as [_ H]. apply (H "/music" "cd1/"); reflexivity.
Defined.

Lemma rb_full_witness :
  Resolver.rb_full "/music/Song.flac" "Song.flac" = "/music/Song.flac/Song.flac".
Proof.
  apply (rb_full_guard_is_dead "/music/Song.flac" "Song.flac" "c"%char eq_refl).
  discriminate.
Defined.

(** ** Paths built from well-formed segments *)
Section SegmentFacts.
Import PyStr PyPath.

Lemma of_str_seg (x : string) : seg_ok x = true -> of_str x = mkPath "" [x].
Proof.
  intros Hx. apply (of_str_join [x]). simpl. by rewrite Hx.
Qed.

Lemma of_parts_from (l : list string) (r : string) (s : list string) :
  forallb seg_ok l = true ->
  fold_left (fun acc a => joinpath acc (of_str a)) l (mkPath r s) = mkPath r (s ++ l).
Proof.
  revert s. induction l as [|x l IH]; intros s Hl; simpl.
  - by rewrite app_nil_r.
  - simpl in Hl. apply andb_prop in Hl as [Hx Hl].
    rewrite (of_str_seg _ Hx). unfold joinpath at 2. cbn [root segs is_empty].
    rewrite (IH _ Hl). by rewrite <- app_assoc.
Qed.

Lemma of_parts_segs (l : list string) :
  forallb seg_ok l = true -> of_parts l = mkPath "" l.
Proof. intros Hl. unfold of_parts. by rewrite of_parts_from. Qed.

Lemma seg_ok_nonempty (x : string) : seg_ok x = true -> is_empty x = false.
Proof.
  unfold seg_ok. intros H. apply andb_prop in H as [H _].
  apply andb_prop in H as [H _]. by apply negb_true_iff.
Qed.

Lemma seg_ok_not_slash (x : string) : seg_ok x = true -> String.eqb x "/" = false.
Proof.
  intros H. apply String.eqb_neq. intros ->. done.
Qed.

Lemma name_ok_seg_ok (x : string) : name_ok x = true -> seg_ok x = true.
Proof. unfold name_ok. intros H. by apply andb_prop in H as [? _]. Qed.

Lemma names_are_segs (l : list string) :
  forallb name_ok l = true -> forallb seg_ok l = true.
Proof. apply forallb_weaken, name_ok_seg_ok. Qed.

Lemma strip_prefix_app (base l rest : list string) :
  strip_prefix base l = Some rest -> l = base ++ rest.
Proof.
  revert l. induction base as [|b base IH]; intros l H; simpl in H.
  - by injection H as ->.
  - destruct l as [|x l]; [done|]. destruct (String.eqb b x) eqn:Hbx; [|done].
    apply String.eqb_eq in Hbx as ->. simpl. f_equal. by apply IH.
Qed.

Lemma strip_prefix_same (base rest : list string) :
  strip_prefix base (base ++ rest) = Some rest.
Proof.
  induction base as [|b base IH]; [done|]. simpl. by rewrite String.eqb_refl.
Qed.

(** The string of a relative path of well-formed segments parses back. *)
Lemma of_str_to_str (l : list string) :
  forallb seg_ok l = true -> of_str (to_str (mkPath "" l)) = mkPath "" l.
Proof.
  intros Hl. unfold to_str. cbn [root segs]. destruct l as [|x l].
  - exact (of_str_join [] eq_refl).
  - exact (of_str_join (x :: l) Hl).
Qed.

End SegmentFacts.

(** ** Where the exporter puts a source *)
Section MirrorFacts.
Import PyStr PyPath Exporter.

(** X4.  [map_src_to_usb_tree], for a source whose segments are proper
    path segments.  A source rooted at one slash (or relative) goes to the
    music root followed by all the segments of the source, so that the path
    of the copy relative to the music root is the path of the source; two
    distinct absolute sources never share a destination.  A source rooted
    at two slashes is returned as it is, outside the music root: the first
    of its parts is not [os.sep], and joining an absolute path drops what
    is on the left. *)
Theorem map_src_to_usb_tree_mirrors (music_root src : Path) :
  forallb seg_ok (segs src) = true ->
  (root src = "/" \/ root src = "" ->
   map_src_to_usb_tree music_root src
   = mkPath (root music_root) (segs music_root ++ segs src) /\
   relative_to (map_src_to_usb_tree music_root src) music_root
   = Some (mkPath "" (segs src))) /\
  (root src = "//" -> map_src_to_usb_tree music_root src = src) /\
  (forall src',
     root src = "/" -> root src' = "/" -> forallb seg_ok (segs src') = true ->
     map_src_to_usb_tree music_root src = map_src_to_usb_tree music_root src' ->
     src = src').
Proof.
  intros Hsegs.
  assert (Hkeep : forall l, forallb seg_ok l = true ->
            List.filter (fun p => negb (is_empty p)) l = l).
  { intros l Hl. apply filter_keeps_all. revert Hl. apply forallb_weaken.
    intros x Hx. by rewrite (seg_ok_nonempty x Hx). }
  assert (Hmirror : forall s, forallb seg_ok (segs s) = true ->
            root s = "/" \/ root s = "" ->
            map_src_to_usb_tree music_root s
            = mkPath (root music_root) (segs music_root ++ segs s)).
  { intros s Hs Hroot. unfold map_src_to_usb_tree, parts.
    destruct Hroot as [Hr|Hr]; rewrite Hr; cbn [is_empty app List.filter negb].
    - rewrite (Hkeep _ Hs). cbn [String.eqb Ascii.eqb].
      change ("/" =? "/")%string with true. cbv iota.
      rewrite (of_parts_segs _ Hs). done.
    - rewrite (Hkeep _ Hs).
      destruct (segs s) as [|p0 rest] eqn:Hl.
      + reflexivity.
      + cbn [forallb] in Hs. apply andb_prop in Hs as [Hp0 Hrest].
        rewrite (seg_ok_not_slash _ Hp0).
        rewrite of_parts_segs; [done|]. simpl. by rewrite Hp0, Hrest. }
  split; [|split].
  - intros Hroot. rewrite (Hmirror src Hsegs Hroot). split; [done|].
    unfold relative_to. cbn [root segs]. rewrite String.eqb_refl.
    by rewrite strip_prefix_same.
  - intros Hr. unfold map_src_to_usb_tree, parts. rewrite Hr.
    cbn [is_empty app List.filter negb]. rewrite (Hkeep _ Hsegs).
    change ("//" =? "/")%string with false. cbv iota.
    unfold of_parts. cbn [fold_left].
    change (joinpath (mkPath "" []) (of_str "//")) with (mkPath "//" []).
    rewrite (of_parts_from _ _ _ Hsegs). cbn [app].
    unfold joinpath. cbn [root is_empty]. destruct src as [r s]. simpl in *.
    by subst.
  - intros src' Hr Hr' Hsegs' Heq.
    rewrite (Hmirror src Hsegs (or_introl Hr)) in Heq.
    rewrite (Hmirror src' Hsegs' (or_introl Hr')) in Heq.
    injection Heq as Heq. apply app_inv_head in Heq.
    destruct src as [r s], src' as [r' s']. simpl in *. by subst.
Qed.

End MirrorFacts.

Lemma map_src_to_usb_tree_witness :
  Exporter.map_src_to_usb_tree (PyPath.of_str "/usb/ALLDJ_MUSIC")
    (PyPath.of_str "/music/a.flac")
  = PyPath.of_str "/usb/ALLDJ_MUSIC/music/a.flac".
Proof.
  apply (proj1 (proj1 (map_src_to_usb_tree_mirrors (PyPath.of_str "/usb/ALLDJ_MUSIC")
                         (PyPath.of_str "/music/a.flac") eq_refl)
                  (or_introl eq_refl))).
Defined.

(** ** Where the copier puts a source *)
Section RelativePathFacts.
Import PyStr PyPath Copier.
Variable env : Env.
Variable cfg : Config.

Lemma find_first {A} (f : A -> bool) (pre post : list A) (x : A) :
  (forall y, y ∈ pre -> f y = false) -> f x = true ->
  List.find f (pre ++ x :: post) = Some x.
Proof.
  intros Hpre Hx. induction pre as [|y pre IH]; simpl.
  - by rewrite Hx.
  - rewrite (Hpre y) by (by left). apply IH. intros z Hz. apply Hpre. by right.
Qed.

Lemma find_none {A} (f : A -> bool) (l : list A) :
  (forall y, y ∈ l -> f y = false) -> List.find f l = None.
Proof.
  intros Hl. induction l as [|y l IH]; simpl; [done|].
  rewrite (Hl y) by (by left). apply IH. intros z Hz. apply Hl. by right.
Qed.



End RelativePathFacts.



(** ** The two hierarchy walks side by side *)
Section WalkFacts.
Import PyStr Graph.

Lemma walks_agree_from (m : gmap string PlaylistNode) :
  index_ok m ->
  forall (f1 f2 : nat) (cid : string) (visited : gset string)
         (parts r1 r2 : list string),
    is_empty cid = false -> String.eqb cid "root" = false ->
    path_walk f1 m (m !! cid) visited parts = Some r1 ->
    full_path_walk f2 m (Some cid) visited parts = Some r2 ->
    r1 = r2.
Proof.
  intros Hm. induction f1 as [|f1 IH];
    intros f2 cid visited parts r1 r2 Hne Hroot H1 H2; [done|].
  destruct f2 as [|f2]; [done|].
  cbn [path_walk full_path_walk] in H1, H2.
  rewrite Hne, Hroot in H2. cbn [orb] in H2.
  destruct (m !! cid) as [c|] eqn:Hc.
  - rewrite (Hm _ _ Hc) in H1.
    destruct (bool_decide (cid ∈ visited)); [congruence|].
    destruct (parent_id c) as [q|] eqn:Hq; cbn [parent_falsy parent_str] in H1, H2.
    + destruct (is_empty q) eqn:Hqe; cbn [orb] in H1.
      * destruct f2; [done|]. cbn [full_path_walk] in H2. congruence.
      * destruct (String.eqb q "root") eqn:Hqr.
        -- destruct f2; [done|]. cbn [full_path_walk] in H2.
           rewrite Hqe, Hqr in H2. cbn [orb] in H2. congruence.
        -- by eapply IH.
    + cbn [orb] in H1. destruct f2; [done|]. cbn [full_path_walk] in H2. congruence.
  - destruct (bool_decide (cid ∈ visited)); congruence.
Qed.

Lemma path_walk_extends (fuel : nat) (m : gmap string PlaylistNode)
  (cur : option PlaylistNode) (visited : gset string) (parts r : list string) :
  path_walk fuel m cur visited parts = Some r -> exists suffix, r = parts ++ suffix.
Proof.
  revert cur visited parts.
  induction fuel as [|fuel IH]; intros cur visited parts H; [done|].
  cbn [path_walk] in H. destruct cur as [c|].
  - destruct (bool_decide (id c ∈ visited)).
    + injection H as <-. exists []. by rewrite app_nil_r.
    + destruct (parent_falsy (parent_id c) || _).
      * injection H as <-. by exists [name c].
      * apply IH in H as [suffix ->]. exists (name c :: suffix).
        by rewrite <- app_assoc.
  - injection H as <-. exists []. by rewrite app_nil_r.
Qed.

Lemma fold_index_has (rows : list PlaylistNode) (node : PlaylistNode)
  (m : gmap string PlaylistNode) :
  is_Some (m !! id node) \/ node ∈ rows ->
  is_Some (fold_left (fun m p => <[id p := p]> m) rows m !! id node).
Proof.
  revert m. induction rows as [|r rows IH]; intros m [Hm|Hr]; simpl.
  - done.
  - by apply elem_of_nil in Hr.
  - apply IH. left. rewrite lookup_insert_is_Some.
    destruct (decide (id r = id node)); auto.
  - apply elem_of_cons in Hr as [->|Hr].
    + apply IH. left. rewrite lookup_insert_is_Some. auto.
    + apply IH. by right.
Qed.

(** Every row is found in the index under its id. *)
Lemma build_index_has (rows : list PlaylistNode) (node : PlaylistNode) :
  node ∈ rows -> is_Some (build_index rows !! id node).
Proof. intros H. apply fold_index_has. by right. Qed.

(** X7.  The two hierarchy walks agree.  For a row whose id is neither
    empty nor [root], the walk of the exporter's [playlist_path] and the
    walk of the copier's [get_all_playlists] collect the same names, at
    least one; the exporter returns all but the last as the directory and
    the last as the display name, the copier joins them all with [ / ]. *)
Theorem hierarchy_walks_agree (rows : list PlaylistNode) (node : PlaylistNode) :
  node ∈ rows -> id node <> "" -> id node <> "root" ->
  path_parts rows (id node) = full_path_parts rows (id node) /\
  exists parts, path_parts rows (id node) = Some parts /\ parts <> [] /\
    playlist_path rows (id node)
    = (PyPath.of_parts (removelast (rev parts)), List.last (rev parts) "") /\
    full_path rows node = join " / " (rev parts).
Proof.
  intros Hin Hne Hroot.
  pose proof (build_index_ok rows) as Hok.
  pose proof (build_index_size rows) as Hsz.
  assert (Hfuel : size (dom (build_index rows) ∖ (∅ : gset string))
                  < S (length rows)).
  { rewrite difference_empty_L, size_dom. lia. }
  destruct (path_walk_total (S (length rows)) (build_index rows)
              (build_index rows !! id node) ∅ [] Hok) as (r1 & H1 & _); [|done|].
  { intros c Hc. by rewrite (Hok _ _ Hc). }
  destruct (full_path_walk_total (S (length rows)) (build_index rows)
              (Some (id node)) ∅ [] Hfuel) as (r2 & H2 & _).
  assert (Hne' : is_empty (id node) = false) by (by destruct (id node)).
  assert (Hroot' : String.eqb (id node) "root" = false) by (by apply String.eqb_neq).
  pose proof (walks_agree_from _ Hok _ _ _ _ _ _ _ Hne' Hroot' H1 H2) as <-.
  assert (Hparts : path_parts rows (id node) = Some r1) by exact H1.
  assert (Hfull : full_path_parts rows (id node) = Some r1) by exact H2.
  split; [by rewrite Hparts, Hfull|].
  pose proof (build_index_has rows node Hin) as Hsome.
  assert (Hr1 : r1 <> []).
  { destruct Hsome as [c Hc]. unfold path_parts in Hparts. rewrite Hc in Hparts.
    cbn [path_walk] in Hparts. rewrite bool_decide_eq_false_2 in Hparts by set_solver.
    intros ->.
    destruct (parent_falsy (parent_id c) || String.eqb (parent_str (parent_id c)) "root").
    - by injection Hparts.
    - apply path_walk_extends in Hparts as [suffix Hs]. by destruct suffix. }
  exists r1. split; [done|]. split; [done|].
  unfold playlist_path, full_path. rewrite Hparts, Hfull.
  change (default [] (Some r1)) with r1.
  destruct (rev r1) eqn:Hrev; [|split; reflexivity].
  apply (f_equal (@rev string)) in Hrev. rewrite rev_involutive in Hrev. done.
Qed.

End WalkFacts.

Lemma hierarchy_walks_agree_witness :
  Graph.path_parts (Catalog.playlist_rows Demo.db) "2"
  = Graph.full_path_parts (Catalog.playlist_rows Demo.db) "2" /\
  Graph.playlist_path (Catalog.playlist_rows Demo.db) "2"
  = (PyPath.of_str "Folder", "P") /\
  Graph.full_path (Catalog.playlist_rows Demo.db) (Graph.mkNode "2" "P" (Some "1"))
  = "Folder / P".
Proof.
  destruct (hierarchy_walks_agree (Catalog.playlist_rows Demo.db)
              (Graph.mkNode "2" "P" (Some "1"))) as (H1 & parts & H2 & _ & H3 & H4).
  - apply list_elem_of_further, list_elem_of_here.
  - discriminate.
  - discriminate.
  - split; [exact H1|]. vm_compute in H2. injection H2 as <-.
    split; [exact H3 | exact H4].
Defined.

(** ** The copier's track counters *)
Section CounterFacts.
Import Py Copier.
Variable env : Env.
Variable cfg : Config.

Ltac key_in := repeat (first [apply list_elem_of_here | apply list_elem_of_further]).

Ltac add_step :=
  rewrite stat_add_run;
  [ | repeat apply stats_int_set; assumption | key_in ].

Ltac read_counters :=
  repeat (first [ rewrite counter_set_eq
                | rewrite counter_set_ne by discriminate ]).

Lemma copy_track_counts (acc : Acc) (track : TrackInfo) (self : T) :
  stats_int (stats self) ->
  exists copied skipped failed : Z,
    (0 <= copied /\ 0 <= skipped /\ 0 <= failed /\ copied + skipped + failed = 1)%Z /\
    counted self (snd (copy_track env cfg acc track self)) 1 copied skipped failed.
Proof.
  intros Hint. unfold copy_track, bind, counted.
  add_step. cbn [fst snd].
  assert (Hkeys : forall (P : string -> Prop),
            P "playlists_total" -> P "playlists_completed" ->
            P "playlists_skipped" -> P "playlists_failed" ->
            forall k, k ∈ ["playlists_total"; "playlists_completed";
                           "playlists_skipped"; "playlists_failed"] -> P k).
  { intros P H1 H2 H3 H4 k Hk.
    repeat (apply elem_of_cons in Hk as [-> | Hk]; [assumption|]).
    by apply elem_of_nil in Hk. }
  destruct (exists_ track); cbn [negb].
  - unfold get, try_except, on_fs. cbn [fs set_stats fst snd].
    destruct (FileSys.atomic_copy_file env _ _ (fs self)) as [[was_copied|e] w].
    + destruct was_copied.
      * rewrite log_run. cbn [fst snd stats set_stats set_fs].
        add_step. cbn [fst snd stats set_stats set_fs]. add_step.
        cbn [fst snd ret stats set_stats set_fs state fs].
        exists 1%Z, 0%Z, 0%Z. split; [lia|]. read_counters.
        repeat split; try lia. apply Hkeys; read_counters; done.
      * rewrite log_run. cbn [fst snd stats set_stats set_fs].
        add_step. cbn [fst snd ret stats set_stats set_fs state fs].
        exists 0%Z, 1%Z, 0%Z. split; [lia|]. read_counters.
        repeat split; try lia. apply Hkeys; read_counters; done.
    + rewrite log_run. cbn [fst snd stats set_stats set_fs].
      add_step. cbn [fst snd ret stats set_stats set_fs state fs].
      exists 0%Z, 0%Z, 1%Z. split; [lia|]. read_counters.
      repeat split; try lia. apply Hkeys; read_counters; done.
  - rewrite log_run. cbn [fst snd].
    add_step. cbn [fst snd ret stats set_stats set_fs state fs].
    exists 0%Z, 0%Z, 1%Z. split; [lia|]. read_counters.
    repeat split; try lia. apply Hkeys; read_counters; done.
Qed.

Lemma copy_track_ok (acc : Acc) (track : TrackInfo) (self : T) :
  stats_int (stats self) ->
  exists acc1, fst (copy_track env cfg acc track self) = Ok acc1 /\
    stats_int (stats (snd (copy_track env cfg acc track self))).
Proof.
  intros Hint. destruct (copy_track_cases env cfg acc track self Hint) as (H1 & _ & H3).
  cbv zeta in H3. destruct (exists_ track).
  - destruct (FileSys.atomic_copy_file _ _ _ _) as [[b|e] w];
      destruct H3 as (-> & _); eauto.
  - destruct H3 as (-> & _). eauto.
Qed.

Lemma counted_refl (s : T) : counted s s 0 0 0 0.
Proof. unfold counted. repeat split; try lia. Qed.

Lemma counted_trans (s1 s2 s3 : T) (t c k f t' c' k' f' : Z) :
  counted s1 s2 t c k f -> counted s2 s3 t' c' k' f' ->
  counted s1 s3 (t + t') (c + c') (k + k') (f + f').
Proof.
  unfold counted. intros (H1 & H2 & H3 & H4 & H5) (G1 & G2 & G3 & G4 & G5).
  repeat split; try lia. intros x Hx. rewrite (G5 x Hx). by apply H5.
Qed.

(** X8.  The track loop of [copy_playlist] counts every track once: over a
    list of tracks, [tracks_total] grows by the length of the list, and
    [tracks_copied], [tracks_skipped] and [tracks_failed] grow by three
    numbers, none negative, whose sum is that length.  The playlist
    counters are not touched. *)
Theorem track_counters_add_up (tracks : list TrackInfo) (acc : Acc) (self : T) :
  stats_int (stats self) ->
  exists copied skipped failed : Z,
    (0 <= copied /\ 0 <= skipped /\ 0 <= failed /\
     copied + skipped + failed = Z.of_nat (length tracks))%Z /\
    counted self (snd (copy_tracks env cfg acc tracks self))
      (Z.of_nat (length tracks)) copied skipped failed.
Proof.
  revert acc self. induction tracks as [|t tracks IH]; intros acc self Hint.
  - exists 0%Z, 0%Z, 0%Z. split; [simpl; lia|]. apply counted_refl.
  - cbn [copy_tracks]. unfold bind.
    destruct (copy_track_ok acc t self Hint) as (acc1 & Hok & Hint1).
    destruct (copy_track_counts acc t self Hint) as (c & k & f & Hsum & Hcount).
    destruct (copy_track env cfg acc t self) as [r s1]. cbn [fst snd] in *. subst r.
    destruct (IH acc1 s1 Hint1) as (c' & k' & f' & Hsum' & Hcount').
    exists (c + c')%Z, (k + k')%Z, (f + f')%Z. split; [simpl length; lia|].
    replace (Z.of_nat (length (t :: tracks))) with (1 + Z.of_nat (length tracks))%Z
      by (simpl length; lia).
    by eapply counted_trans.
Qed.

End CounterFacts.

Lemma track_counters_witness :
  exists copied skipped failed : Z,
    (0 <= copied /\ 0 <= skipped /\ 0 <= failed /\ copied + skipped + failed = 2)%Z /\
    Copier.counted (Copier.init Demo.music_fs [] 0)
      (snd (Copier.copy_tracks Demo.env Demo.ccfg (Copier.mkAcc [] 0 0)
              [Copier.mkTrackInfo "T" "Art" (PyPath.of_str "/music/a.flac") "/a.flac" 3 true;
               Copier.mkTrackInfo "U" "Unknown" (PyPath.of_str "/music/gone.flac")
                 "/gone.flac" 0 false]
              (Copier.init Demo.music_fs [] 0)))
      2 copied skipped failed.
Proof.
  apply (track_counters_add_up Demo.env Demo.ccfg
           [Copier.mkTrackInfo "T" "Art" (PyPath.of_str "/music/a.flac") "/a.flac" 3 true;
            Copier.mkTrackInfo "U" "Unknown" (PyPath.of_str "/music/gone.flac")
              "/gone.flac" 0 false]
           (Copier.mkAcc [] 0 0) (Copier.init Demo.music_fs [] 0)).
  exact (stats_int_init Demo.music_fs [] 0
           (Copier.state (Copier.init Demo.music_fs [] 0))).
Defined.

(** ** The playlists the copier works on *)
Section PlaylistListFacts.
Import Py Copier.
Variable env : Env.
Variable db : Catalog.DB.

Lemma same_but_log_refl (s : T) : same_but_log s s.
Proof. done. Qed.

Lemma same_but_log_trans (s1 s2 s3 : T) :
  same_but_log s1 s2 -> same_but_log s2 s3 -> same_but_log s1 s3.
Proof.
  unfold same_but_log. intros (H1 & H2 & H3 & H4) (G1 & G2 & G3 & G4).
  repeat split; congruence.
Qed.

Lemma playlist_info_of_run (node : Graph.PlaylistNode) (self : T) :
  exists s', same_but_log self s' /\
    playlist_info_of env db node self
    = (Ok (if bool_decide (Graph.id node ∈ smart_playlist_ids self) then None
           else
             let n := match Catalog.song_rows db (Graph.id node) with
                      | Ok rows => length (omap (track_of_row env (fs self)) rows)
                      | Raise _ => 0
                      end in
             Some (mkPlaylistInfo (Graph.id node) (Graph.name node)
                     (Graph.parent_str (Graph.parent_id node))
                     (Graph.full_path (Catalog.playlist_rows db) node)
                     n false (n =? 0))), s').
Proof.
  unfold playlist_info_of, get_playlist_tracks, bind, get, ret. cbn [fst snd].
  destruct (bool_decide _); [by exists self|].
  destruct (Catalog.song_rows db (Graph.id node)) as [rows|e].
  - by exists self.
  - rewrite log_run. cbn [fst snd]. eexists. split; [|reflexivity]. done.
Qed.

Lemma collect_infos_run (nodes : list Graph.PlaylistNode) (self : T) :
  exists s', same_but_log self s' /\
    collect_infos env db nodes self
    = (Ok (omap (fun node =>
                   if bool_decide (Graph.id node ∈ smart_playlist_ids self)
                   then None else Some (info_for env db (fs self) node)) nodes), s').
Proof.
  revert self. induction nodes as [|node nodes IH]; intros self.
  - by exists self.
  - cbn [collect_infos]. unfold bind.
    destruct (playlist_info_of_run node self) as (s1 & Hs1 & ->).
    destruct (IH s1) as (s2 & Hs2 & ->).
    exists s2. split; [by eapply same_but_log_trans|].
    destruct Hs1 as (_ & _ & Hsmart & Hfs). rewrite Hsmart, Hfs.
    unfold ret. destruct (bool_decide (Graph.id node ∈ smart_playlist_ids self)) eqn:Hb.
    + simpl. rewrite Hb. reflexivity.
    + simpl. rewrite Hb. reflexivity.
Qed.


End PlaylistListFacts.

(** ** Files change by rename only *)
Section RenameFacts.
Import Py FileSys.
Variable env : Env.

Lemma only_renamed_refl (w : FS) : only_renamed w w.
Proof.
  repeat split; try done. exists []. repeat split; try done.
  intros k Hk. by apply elem_of_nil in Hk.
Qed.

Lemma only_renamed_trans (w1 w2 w3 : FS) :
  only_renamed w1 w2 -> only_renamed w2 w3 -> only_renamed w1 w3.
Proof.
  intros (Hc1 & Hd1 & Hs1 & l1 & Hr1 & Hin1 & Hout1)
         (Hc2 & Hd2 & Hs2 & l2 & Hr2 & Hin2 & Hout2).
  split; [congruence|]. split; [congruence|]. split; [set_solver|].
  exists (l2 ++ l1). split; [by rewrite Hr2, Hr1, app_assoc|]. split.
  - intros k Hk. destruct (decide (k ∈ l2)) as [H2|H2]; [by apply Hin2|].
    rewrite (Hout2 k H2). apply Hin1. set_solver.
  - intros k Hk. rewrite Hout2, Hout1; set_solver.
Qed.

Lemma only_renamed_mkdir_p (d : PyPath.Path) (w : FS) :
  only_renamed w (snd (mkdir_p d w)).
Proof.
  unfold mkdir_p. destruct (is_dir w _); [apply only_renamed_refl|].
  destruct (is_file w _); [apply only_renamed_refl|].
  destruct (existsb _ _); [apply only_renamed_refl|].
  repeat split; try done; [simpl; set_solver|].
  exists []. repeat split; try done. intros k Hk. by apply elem_of_nil in Hk.
Qed.

Lemma only_renamed_open_temp_in (d : PyPath.Path) (w : FS) :
  only_renamed w (snd (open_temp_in d w)).
Proof.
  unfold open_temp_in. destruct (negb _); [apply only_renamed_refl|].
  destruct (bool_decide _); apply only_renamed_refl.
Qed.

Lemma only_renamed_replace_onto (d : PyPath.Path) (c : content) (w : FS) :
  only_renamed w (snd (replace_onto d c w)).
Proof.
  unfold replace_onto. destruct (is_dir w _); [apply only_renamed_refl|].
  repeat split; try done. exists [PyPath.key (cwd w) d]. simpl.
  repeat split; try done.
  - intros k Hk. apply list_elem_of_singleton in Hk as ->.
    rewrite lookup_insert_eq. eauto.
  - intros k Hk. rewrite lookup_insert_ne; [done|]. set_solver.
Qed.

Lemma only_renamed_bind {A B} (m : M FS A) (k : A -> M FS B) (w : FS) :
  (forall w, only_renamed w (snd (m w))) ->
  (forall a w, only_renamed w (snd (k a w))) ->
  only_renamed w (snd (bind m k w)).
Proof.
  intros Hm Hk. unfold bind. specialize (Hm w).
  destruct (m w) as [[a|e] w1]; simpl in *; [|done].
  eapply only_renamed_trans; [exact Hm | apply Hk].
Qed.

Lemma only_renamed_lift {A} (o : outcome A) (w : FS) :
  only_renamed w (snd (lift o w)).
Proof. apply only_renamed_refl. Qed.

Lemma only_renamed_atomic_write (dest : PyPath.Path) (c : content) (w : FS) :
  only_renamed w (snd (atomic_write dest c w)).
Proof.
  unfold atomic_write. apply only_renamed_bind; [apply only_renamed_mkdir_p|].
  intros _ w1. apply only_renamed_bind; [apply only_renamed_open_temp_in|].
  intros _ w2. apply only_renamed_replace_onto.
Qed.

Lemma only_renamed_copy_file_atomic (src dest : PyPath.Path) (w : FS) :
  only_renamed w (snd (copy_file_atomic src dest w)).
Proof.
  unfold copy_file_atomic. apply only_renamed_bind; [apply only_renamed_mkdir_p|].
  intros _ w1. apply only_renamed_bind; [apply only_renamed_open_temp_in|].
  intros _ w2. apply only_renamed_bind; [intros; apply only_renamed_refl|].
  intros w3 w4. apply only_renamed_bind; [intros; apply only_renamed_refl|].
  intros c w5. apply only_renamed_replace_onto.
Qed.

Lemma only_renamed_atomic_copy_file (src dest : PyPath.Path) (w : FS) :
  only_renamed w (snd (atomic_copy_file env src dest w)).
Proof.
  unfold atomic_copy_file. apply only_renamed_bind; [intros; apply only_renamed_refl|].
  intros w0 w1. destruct (negb _); [apply only_renamed_refl|].
  apply only_renamed_bind; [apply only_renamed_mkdir_p|].
  intros _ w2. apply only_renamed_bind; [intros; apply only_renamed_refl|].
  intros w3 w4. apply only_renamed_bind.
  { intros w5. destruct (exists_ w3 dest); [|apply only_renamed_refl].
    apply only_renamed_bind; [intros; apply only_renamed_refl|].
    intros a w6. apply only_renamed_bind; intros; apply only_renamed_refl. }
  intros same w5. destruct same; [apply only_renamed_refl|].
  apply only_renamed_bind; [apply only_renamed_open_temp_in|].
  intros _ w6. apply only_renamed_bind; [intros; apply only_renamed_refl|].
  intros c w7. apply only_renamed_bind; [apply only_renamed_replace_onto|].
  intros; apply only_renamed_refl.
Qed.

(** What stays of a file system that changed by renames only. *)
Lemma only_renamed_keeps (w w' : FS) :
  only_renamed w w' ->
  (forall k, is_file w k = true -> is_file w' k = true) /\
  (forall k, is_dir w k = true -> is_dir w' k = true) /\
  (forall k c, files w !! k = Some c -> files w' !! k <> Some c ->
     k ∈ List.firstn (length (renames w') - length (renames w)) (renames w')).
Proof.
  intros (Hc & Hd & Hs & l & Hr & Hin & Hout). split; [|split].
  - intros k Hk. unfold is_file in *. apply bool_decide_eq_true in Hk.
    apply bool_decide_eq_true. destruct (decide (k ∈ l)); [by apply Hin|].
    by rewrite Hout.
  - intros k Hk. unfold is_dir in *. apply orb_true_iff in Hk as [Hk|Hk].
    + apply bool_decide_eq_true in Hk. apply orb_true_iff. left.
      apply bool_decide_eq_true. set_solver.
    + by rewrite Hk, orb_true_r.
  - intros k c Hk Hne. rewrite Hr, length_app.
    replace (length l + length (renames w) - length (renames w)) with (length l) by lia.
    rewrite firstn_app, firstn_all, Nat.sub_diag. simpl. rewrite app_nil_r.
    destruct (decide (k ∈ l)); [done|]. rewrite Hout in Hne by done. congruence.
Qed.

End RenameFacts.

(** ** The copier changes files by rename only *)
Section CopierRenames.
Import Py Copier.
Variable env : Env.
Variable db : Catalog.DB.
Variable cfg : Config.
Variable w0 : FileSys.FS.

Let I (self : T) : Prop := FileSys.only_renamed w0 (fs self).

Lemma rn_on_fs {A} (m : M FileSys.FS A) :
  (forall w, FileSys.only_renamed w (snd (m w))) -> inv I (on_fs m).
Proof.
  intros Hm self HI. unfold on_fs. specialize (Hm (fs self)).
  destruct (m (fs self)) as [r w]. simpl in *.
  eapply only_renamed_trans; [exact HI | exact Hm].
Qed.

Lemma rn_modify (f : T -> T) : (forall s, fs (f s) = fs s) -> inv I (modify f).
Proof. intros Hf s Hs. unfold modify, I. simpl. by rewrite Hf. Qed.

Lemma rn_log_ (message level : string) : inv I (log_ env message level).
Proof. by apply rn_modify. Qed.

Lemma rn_stat_add (k : string) (n : Z) : inv I (stat_add k n).
Proof.
  intros s Hs. unfold stat_add. destruct (assoc_get _ _); [|done].
  by destruct (py_add _ _).
Qed.

Lemma rn_store_status (pid : string) (record : pyval) :
  inv I (store_status pid record).
Proof.
  intros s Hs. unfold store_status, bind, get, lift, modify.
  by destruct (py_setdefault_setitem _ _ _ _).
Qed.

Lemma rn_print_stats : inv I print_stats.
Proof.
  intros s Hs. unfold print_stats, bind, get. by destruct (assoc_get _ _) as [[]|].
Qed.

Hint Resolve rn_log_ rn_stat_add rn_store_status rn_print_stats : inv_db.

Ltac rn_auto :=
  inv_auto;
  try (apply rn_modify; intros; reflexivity);
  try (apply rn_on_fs; intros;
       first [ apply only_renamed_mkdir_p | apply only_renamed_atomic_write
             | apply only_renamed_atomic_copy_file ]).

Lemma rn_save_state : inv I (save_state env cfg).
Proof. unfold save_state. rn_auto. Qed.

Lemma rn_load_state : inv I (load_state env cfg).
Proof. unfold load_state. rn_auto. Qed.

Lemma rn_get_playlist_tracks (playlist_id : string) :
  inv I (get_playlist_tracks env db playlist_id).
Proof. unfold get_playlist_tracks. rn_auto. Qed.

Lemma rn_create_m3u8 playlist tracks playlist_file :
  inv I (create_m3u8_playlist env playlist tracks playlist_file).
Proof. unfold create_m3u8_playlist, FileSys.atomic_write_text. rn_auto. Qed.

Hint Resolve rn_save_state rn_load_state rn_get_playlist_tracks rn_create_m3u8 : inv_db.

Lemma rn_copy_track acc track : inv I (copy_track env cfg acc track).
Proof. unfold copy_track. rn_auto. Qed.

Hint Resolve rn_copy_track : inv_db.

Lemma rn_copy_tracks acc tracks : inv I (copy_tracks env cfg acc tracks).
Proof.
  revert acc. induction tracks as [|t tracks IH]; intros acc; simpl; rn_auto.
Qed.

Hint Resolve rn_copy_tracks : inv_db.

Lemma rn_copy_playlist playlist : inv I (copy_playlist env db cfg playlist).
Proof. unfold copy_playlist. rn_auto. Qed.

Hint Resolve rn_copy_playlist : inv_db.

Lemma rn_run_loop n i playlists : inv I (run_loop env db cfg n i playlists).
Proof.
  revert i. induction playlists as [|p rest IH]; intros i; simpl; [rn_auto|].
  apply inv_bind; [unfold run_one; rn_auto | intros _; apply IH].
Qed.

Lemma rn_collect_infos nodes : inv I (collect_infos env db nodes).
Proof.
  induction nodes as [|node nodes IH]; simpl; [rn_auto|].
  apply inv_bind; [unfold playlist_info_of; rn_auto|].
  intros o. apply inv_bind; [exact IH | rn_auto].
Qed.

Hint Resolve rn_run_loop rn_collect_infos : inv_db.

Lemma rn_run : inv I (run env db cfg).
Proof.
  unfold run, run_body, detect_smart_playlists, get_all_playlists. rn_auto.
Qed.

End CopierRenames.

(** ** The exporter changes files by rename only *)
Section ExporterRenames.
Import Py Exporter.
Variable env : Env.
Variable db : Catalog.DB.
Variable cfg : Config.
Variable w0 : FileSys.FS.

Let I (self : T) : Prop := FileSys.only_renamed w0 (fs self).

Lemma rx_on_fs {A} (m : M FileSys.FS A) :
  (forall w, FileSys.only_renamed w (snd (m w))) -> inv I (on_fs m).
Proof.
  intros Hm self HI. unfold on_fs. specialize (Hm (fs self)).
  destruct (m (fs self)) as [r w]. simpl in *.
  eapply only_renamed_trans; [exact HI | exact Hm].
Qed.

Lemma rx_modify (f : T -> T) : (forall s, fs (f s) = fs s) -> inv I (modify f).
Proof. intros Hf s Hs. unfold modify, I. simpl. by rewrite Hf. Qed.

Lemma rx_store_status (p : Graph.PlaylistNode) (record : pyval) :
  inv I (store_status p record).
Proof.
  intros s Hs. unfold store_status, bind, get, lift, modify.
  by destruct (py_setdefault_setitem _ _ _ _).
Qed.

Hint Resolve rx_store_status : inv_db.

Ltac rx_auto :=
  inv_auto;
  try (apply rx_modify; intros; reflexivity);
  try (apply rx_on_fs; intros;
       first [ apply only_renamed_mkdir_p | apply only_renamed_atomic_write
             | apply only_renamed_copy_file_atomic ]).

Lemma rx_save_state : inv I (save_state cfg).
Proof. unfold save_state. rx_auto. Qed.

Lemma rx_load_state : inv I (load_state cfg).
Proof. unfold load_state. rx_auto. Qed.

Hint Resolve rx_save_state rx_load_state : inv_db.

Lemma rx_export_track p total acc t : inv I (export_track env cfg p total acc t).
Proof. unfold export_track. destruct acc, t. rx_auto. Qed.

Hint Resolve rx_export_track : inv_db.

Lemma rx_export_tracks p total acc tr : inv I (export_tracks env cfg p total acc tr).
Proof. revert acc. induction tr as [|t tr IH]; intros acc; simpl; rx_auto. Qed.

Hint Resolve rx_export_tracks : inv_db.

Lemma rx_export_playlist filters p tr :
  inv I (export_playlist env db cfg filters p tr).
Proof.
  unfold export_playlist, FileSys.atomic_write_text.
  destruct (Graph.playlist_path _ _). rx_auto.
Qed.

Hint Resolve rx_export_playlist : inv_db.

Lemma rx_export_loop limit filters processed l :
  inv I (export_loop env db cfg limit filters processed l).
Proof.
  revert processed. induction l as [|p rest IH]; intros processed; simpl; rx_auto.
Qed.

Hint Resolve rx_export_loop : inv_db.

Lemma rx_export limit filters : inv I (export env db cfg limit filters).
Proof. unfold export, fetch_playlists. rx_auto. Qed.

End ExporterRenames.

(** ** Both engines, whatever happens *)

(** What a reader of the disk sees of a run that changed it by renames
    only: every directory and, away from the rename destinations, every
    file with its content. *)
Lemma only_renamed_kept (but : list (list string)) (w w' : FileSys.FS) :
  FileSys.only_renamed w w' ->
  FileSys.dirs w ⊆ FileSys.dirs w' /\
  exists l, FileSys.renames w' = l ++ FileSys.renames w /\
    (forall k, k ∈ l -> is_Some (FileSys.files w' !! k)) /\
    FileSys.files_kept (but ++ l) w w'.
Proof.
  intros (_ & _ & Hd & l & Hr & Hin & Hout). split; [done|].
  exists l. split; [done|]. split; [done|].
  intros k c Hk Hc. rewrite Hout; [done|]. intros Hl. apply Hk.
  apply elem_of_app. by right.
Qed.

(** X10.  Whatever happens in [run] of the copier or [export] of the
    exporter, raising or not: no directory disappears, and there is a list
    of paths, the destinations of the renames the run made, each of which
    holds a file at the end, such that every file that was on the disk at
    another path is still there with the content it had.  For the copier
    the log file, which [log] appends to in place, is left out. *)
Theorem engines_change_files_by_rename_only (env : Env) (db : Catalog.DB)
  (w : FileSys.FS) :
  (forall cfg lg clk,
     let w' := Copier.fs (snd (Copier.run env db cfg (Copier.init w lg clk))) in
     FileSys.dirs w ⊆ FileSys.dirs w' /\
     exists l, FileSys.renames w' = l ++ FileSys.renames w /\
       (forall k, k ∈ l -> is_Some (FileSys.files w' !! k)) /\
       FileSys.files_kept
         ([PyPath.key (FileSys.cwd w) (Copier.log_file cfg w)] ++ l) w w') /\
  (forall cfg limit filters,
     let w' := Exporter.fs (snd (Exporter.export env db cfg limit filters
                                   (Exporter.init w))) in
     FileSys.dirs w ⊆ FileSys.dirs w' /\
     exists l, FileSys.renames w' = l ++ FileSys.renames w /\
       (forall k, k ∈ l -> is_Some (FileSys.files w' !! k)) /\
       FileSys.files_kept l w w').
Proof.
  split.
  - intros cfg lg clk w'. apply only_renamed_kept.
    apply (rn_run env db cfg w). apply only_renamed_refl.
  - intros cfg limit filters w'. apply (only_renamed_kept [] w w').
    apply (rx_export env db cfg w). apply only_renamed_refl.
Qed.

Section EarlyStopFacts.
Import Py.
Variable env : Env.
Variable db : Catalog.DB.

Lemma mkdir_p_files (d : PyPath.Path) (w : FileSys.FS) :
  FileSys.files (snd (FileSys.mkdir_p d w)) = FileSys.files w /\
  FileSys.renames (snd (FileSys.mkdir_p d w)) = FileSys.renames w.
Proof.
  unfold FileSys.mkdir_p. destruct (FileSys.is_dir w _); [done|].
  destruct (FileSys.is_file w _); [done|]. by destruct (existsb _ _).
Qed.

Lemma copier_load_state_fs (cfg : Copier.Config) (self : Copier.T) :
  fst (Copier.load_state env cfg self) = Ok tt /\
  Copier.fs (snd (Copier.load_state env cfg self)) = Copier.fs self.
Proof.
  unfold Copier.load_state, bind, get, try_except, lift, modify.
  destruct (Copier.resume cfg && _); [|done].
  destruct (FileSys.read_file _ _) as [c|e]; [|by rewrite log_run].
  destruct (FileSys.json_loads c) as [v|e]; [|by rewrite log_run]. cbn [fst snd].
  destruct (py_get v "stats" (VDict [])) as [stored|e]; [|by rewrite log_run].
  destruct stored; cbn [fst snd raise]; by rewrite log_run.
Qed.

(** X11.  The early exits.  When the USB path does not exist, [run] of the
    copier raises with the file system and the state as they were, and
    [export] of the exporter raises [SystemExit] with the object as it
    was.  When the database cannot be opened, both raise, no file is
    renamed onto, and every path holds what it held (for the copier, apart
    from the log file); directories may have been created. *)
Theorem engines_stop_early_without_writing (w : FileSys.FS) :
  (forall cfg lg clk,
     FileSys.exists_ w (Copier.usb_root cfg w) = false ->
     is_ok (fst (Copier.run env db cfg (Copier.init w lg clk))) = false /\
     Copier.fs (snd (Copier.run env db cfg (Copier.init w lg clk))) = w /\
     Copier.state (snd (Copier.run env db cfg (Copier.init w lg clk)))
     = Copier.state0) /\
  (forall cfg limit filters,
     FileSys.exists_ w (Exporter.usb_root cfg w) = false ->
     Exporter.export env db cfg limit filters (Exporter.init w)
     = (Raise SystemExit, Exporter.init w)) /\
  (Catalog.connects db = false ->
   (forall cfg lg clk,
      is_ok (fst (Copier.run env db cfg (Copier.init w lg clk))) = false /\
      (forall k, k <> PyPath.key (FileSys.cwd w) (Copier.log_file cfg w) ->
         FileSys.files (Copier.fs (snd (Copier.run env db cfg (Copier.init w lg clk))))
           !! k
         = FileSys.files w !! k) /\
      FileSys.renames (Copier.fs (snd (Copier.run env db cfg (Copier.init w lg clk))))
      = FileSys.renames w) /\
   (forall cfg limit filters,
      is_ok (fst (Exporter.export env db cfg limit filters (Exporter.init w))) = false /\
      FileSys.files (Exporter.fs (snd (Exporter.export env db cfg limit filters
                                         (Exporter.init w))))
      = FileSys.files w /\
      FileSys.renames (Exporter.fs (snd (Exporter.export env db cfg limit filters
                                           (Exporter.init w))))
      = FileSys.renames w)).
Proof.
  split; [|split].
  - intros cfg lg clk Hex.
    unfold Copier.run, Copier.run_body, try_except, bind, get, raise.
    cbn [Copier.init Copier.fs]. rewrite Hex. cbn [negb fst snd].
    rewrite log_run. done.
  - intros cfg limit filters Hex.
    unfold Exporter.export, bind, get, raise. cbn [Exporter.init Exporter.fs].
    by rewrite Hex.
  - intros Hdb. split.
    + intros cfg lg clk.
      set (F := fun s : Copier.T =>
                  FileSys.files (Copier.fs s) = FileSys.files w /\
                  FileSys.renames (Copier.fs s) = FileSys.renames w).
      assert (Hmk : forall d, inv F (Copier.on_fs (FileSys.mkdir_p d))).
      { intros d s [Hf Hr]. unfold F, Copier.on_fs.
        destruct (mkdir_p_files d (Copier.fs s)) as [Hf' Hr'].
        destruct (FileSys.mkdir_p d (Copier.fs s)) as [r w'].
        cbn [fst snd Copier.fs Copier.set_fs] in *. split; congruence. }
      assert (Hbody : triple F (Copier.run_body env db cfg)
                        (fun _ _ => False) F).
      { unfold Copier.run_body. apply triple_get_bind. intros s0 Hs0.
        eapply triple_conseq with (P' := F) (R' := fun _ _ => False) (E' := F);
          [|by intros s -> |done|done].
        eapply triple_bind.
        { apply triple_inv. destruct (negb _); [apply inv_raise | apply inv_ret]. }
        intros u1. cbv beta.
        eapply triple_bind; [apply triple_inv, Hmk|]. intros u2. cbv beta.
        eapply triple_bind; [apply triple_inv, Hmk|]. intros u3. cbv beta.
        eapply triple_bind.
        { apply triple_inv. intros s Hs.
          destruct (copier_load_state_fs cfg s) as [_ Hfs]. unfold F. by rewrite Hfs. }
        intros u4. cbv beta. rewrite Hdb.
        eapply triple_bind with (R := fun _ _ => False); [|by intros a s []].
        intros s Hs. exact Hs. }
      assert (Hrun : triple F (Copier.run env db cfg) (fun _ _ => False) F).
      { unfold Copier.run. eapply triple_try; [exact Hbody|]. intros e.
        eapply triple_bind with (R := fun _ => F).
        - apply triple_inv. intros s Hs. exact Hs.
        - intros _ s Hs. exact Hs. }
      specialize (Hrun (Copier.init w lg clk) (conj eq_refl eq_refl)).
      destruct (fst (Copier.run env db cfg (Copier.init w lg clk))); [done|].
      destruct Hrun as [Hf Hr]. split; [done|]. split; [|done].
      intros k _. by rewrite Hf.
    + intros cfg limit filters.
      set (F := fun s : Exporter.T =>
                  FileSys.files (Exporter.fs s) = FileSys.files w /\
                  FileSys.renames (Exporter.fs s) = FileSys.renames w).
      assert (Hmk : forall d, inv F (Exporter.on_fs (FileSys.mkdir_p d))).
      { intros d s [Hf Hr]. unfold F, Exporter.on_fs.
        destruct (mkdir_p_files d (Exporter.fs s)) as [Hf' Hr'].
        destruct (FileSys.mkdir_p d (Exporter.fs s)) as [r w'].
        cbn [fst snd Exporter.fs Exporter.set_fs] in *. split; congruence. }
      assert (Hrun : triple F (Exporter.export env db cfg limit filters)
                       (fun _ _ => False) F).
      { unfold Exporter.export. apply triple_get_bind. intros s0 Hs0.
        eapply triple_conseq with (P' := F) (R' := fun _ _ => False) (E' := F);
          [|by intros s -> |done|done].
        eapply triple_bind.
        { apply triple_inv. destruct (negb _); [apply inv_raise | apply inv_ret]. }
        intros u1. cbv beta.
        eapply triple_bind; [apply triple_inv, Hmk|]. intros u2. cbv beta.
        eapply triple_bind; [apply triple_inv, Hmk|]. intros u3. cbv beta.
        eapply triple_bind.
        { apply triple_inv. intros s Hs.
          destruct (load_state_run cfg s) as [st ->]. exact Hs. }
        intros u4. cbv beta. rewrite Hdb.
        eapply triple_bind with (R := fun _ _ => False); [|by intros a s []].
        intros s Hs. exact Hs. }
      specialize (Hrun (Exporter.init w) (conj eq_refl eq_refl)).
      destruct (fst (Exporter.export env db cfg limit filters (Exporter.init w)));
        [done|]. destruct Hrun. done.
Qed.

End EarlyStopFacts.

(** ** A playlist none of whose sources exist *)
Section AllMissingFacts.
Import Py Copier.
Variable env : Env.
Variable db : Catalog.DB.
Variable cfg : Config.

Lemma copy_tracks_all_missing (tracks : list TrackInfo) (acc : Acc) (self : T) :
  stats_int (stats self) ->
  (forall t, t ∈ tracks -> exists_ t = false) ->
  exists s',
    copy_tracks env cfg acc tracks self
    = (Ok (mkAcc (copied_tracks acc) (tracks_copied_count acc)
                 (tracks_failed_count acc + length tracks)), s') /\
    fs s' = fs self /\ state s' = state self /\ stats_int (stats s').
Proof.
  revert acc self. induction tracks as [|t tracks IH]; intros acc self Hint Hall.
  - exists self. simpl. rewrite Nat.add_0_r. by destruct acc.
  - cbn [copy_tracks]. unfold bind.
    destruct (copy_track_cases env cfg acc t self Hint) as (H1 & H2 & H3).
    cbv zeta in H3. rewrite (Hall t) in H3 by (by left).
    destruct H3 as (Hr & Hfs & _).
    destruct (copy_track env cfg acc t self) as [r s1]. cbn [fst snd] in *. subst r.
    destruct (IH (mkAcc (copied_tracks acc) (tracks_copied_count acc)
                        (S (tracks_failed_count acc))) s1 H1)
      as (s' & Hs' & Hf & Hst & Hi).
    { intros t' Ht'. apply Hall. by right. }
    exists s'. rewrite Hs'. cbn [copied_tracks tracks_copied_count tracks_failed_count].
    split; [|split; [congruence | split; [congruence | done]]].
    do 3 f_equal. simpl. lia.
Qed.

Lemma atomic_write_other_files (dest : PyPath.Path) (c : FileSys.content)
  (w : FileSys.FS) (k : list string) :
  k <> PyPath.key (FileSys.cwd w) dest ->
  FileSys.files (snd (FileSys.atomic_write dest c w)) !! k = FileSys.files w !! k.
Proof.
  intros Hk. unfold FileSys.atomic_write, bind, FileSys.mkdir_p.
  set (kp := PyPath.key (FileSys.cwd w) (PyPath.parent dest)).
  assert (Hstep : forall w1, FileSys.files w1 = FileSys.files w ->
            FileSys.cwd w1 = FileSys.cwd w ->
            FileSys.files
              (snd (match FileSys.open_temp_in (PyPath.parent dest) w1 with
                    | (Ok _, s') => FileSys.replace_onto dest c s'
                    | (Raise e, s') => (Raise e, s')
                    end)) !! k = FileSys.files w !! k).
  { intros w1 Hf Hc. unfold FileSys.open_temp_in.
    destruct (negb _); [by rewrite <- Hf|].
    destruct (bool_decide _); [by rewrite <- Hf|].
    unfold FileSys.replace_onto. destruct (FileSys.is_dir w1 _); [by rewrite <- Hf|].
    simpl. rewrite lookup_insert_ne; [by rewrite Hf|]. by rewrite Hc. }
  destruct (FileSys.is_dir w kp); [by apply Hstep|].
  destruct (FileSys.is_file w kp); [done|].
  destruct (existsb _ _); [done|]. by apply Hstep.
Qed.

Lemma flag_of_entry (st : pyval) (pid : string) :
  completed_flag st pid
  = obind (entry_of st pid) (fun status => py_get status "completed" VNone).
Proof.
  unfold completed_flag, entry_of. by destruct (py_get st "playlists" (VDict [])).
Qed.

Lemma save_state_keeps_flags (self : T) (pid : string) :
  (exists d, state self = VDict d) ->
  fst (save_state env cfg self) = Ok tt /\
  completed_flag (state (snd (save_state env cfg self))) pid
  = completed_flag (state self) pid /\
  stats (snd (save_state env cfg self)) = stats self /\
  (forall k, k <> PyPath.key (FileSys.cwd (fs self)) (state_file cfg (fs self)) ->
     FileSys.files (fs (snd (save_state env cfg self))) !! k
     = FileSys.files (fs self) !! k).
Proof.
  intros [d Hd]. unfold save_state. destruct (negb (resume cfg)); [done|].
  unfold bind, get, lift, modify, try_except, on_fs. rewrite Hd.
  cbn [py_setitem fst snd fs state stats].
  pose proof (atomic_write_other_files (state_file cfg (fs self))
                (FileSys.JsonText
                   (VDict (assoc_set (assoc_set d "stats" (VDict (stats self)))
                             "timestamp" (VStr (isoformat env (clock self))))))
                (fs self)) as Hfiles.
  assert (Hflag : completed_flag
                    (VDict (assoc_set (assoc_set d "stats" (VDict (stats self)))
                              "timestamp" (VStr (isoformat env (clock self))))) pid
                  = completed_flag (VDict d) pid).
  { rewrite !flag_of_entry.
    rewrite (setitem_keeps_entries (VDict (assoc_set d "stats" (VDict (stats self))))
               _ "timestamp" pid (VStr (isoformat env (clock self)))
               ltac:(done) eq_refl).
    by rewrite (setitem_keeps_entries (VDict d) _ "stats" pid (VDict (stats self))
                  ltac:(done) eq_refl). }
  destruct (FileSys.atomic_write _ _ (fs self)) as [[[]|e] w1];
    cbn [fst snd] in *.
  - repeat split; try done.
  - rewrite log_run. cbn [fst snd state stats fs set_fs]. repeat split; try done.
Qed.


End AllMissingFacts.


(** ** The tag exporter: choosing tracks by tags *)
Section TagFilterFacts.
Import TagExporter.

Lemma tag_test_spec (tags_all : list string) (tr : TrackMetadata) :
  bool_decide ((list_to_set tags_all : gset string)
               ⊆ list_to_set (default [] (assigned_tags tr))) = true
  <-> has_all_tags tags_all tr.
Proof.
  rewrite bool_decide_eq_true. unfold has_all_tags. split.
  - intros H t Ht. specialize (H t). rewrite !elem_of_list_to_set in H. auto.
  - intros H t Ht. rewrite elem_of_list_to_set in Ht.
    rewrite elem_of_list_to_set. auto.
Qed.

(** X13.  [filter_tracks_by_tags_all] keeps exactly the tracks that carry
    every wanted tag, in their order; a track without [assigned_tags]
    carries none.  With no wanted tag every track is kept, filtering by
    two lists of tags at once is filtering by one and then by the other,
    and the order and the repetitions of the wanted tags do not matter. *)
Theorem filter_tracks_by_tags_all_spec (tracks : list TrackMetadata)
  (tags_all more : list string) :
  (forall tr, tr ∈ filter_tracks_by_tags_all tracks tags_all
              <-> tr ∈ tracks /\ has_all_tags tags_all tr) /\
  sublist (filter_tracks_by_tags_all tracks tags_all) tracks /\
  filter_tracks_by_tags_all tracks [] = tracks /\
  filter_tracks_by_tags_all tracks (tags_all ++ more)
  = filter_tracks_by_tags_all (filter_tracks_by_tags_all tracks tags_all) more /\
  (forall tags', (forall t, t ∈ tags_all <-> t ∈ tags') ->
     filter_tracks_by_tags_all tracks tags'
     = filter_tracks_by_tags_all tracks tags_all).
Proof.
  unfold filter_tracks_by_tags_all. cbv zeta. split; [|split; [|split; [|split]]].
  - intros tr. rewrite list_elem_of_In, filter_In, <- list_elem_of_In.
    by rewrite tag_test_spec.
  - induction tracks as [|tr tracks IH]; cbn [List.filter]; [done|].
    destruct (bool_decide _); [by apply sublist_skip | by apply sublist_cons].
  - induction tracks as [|tr tracks IH]; cbn [List.filter]; [done|].
    rewrite bool_decide_eq_true_2 by set_solver. by rewrite IH.
  - induction tracks as [|tr tracks IH]; cbn [List.filter]; [done|].
    destruct (bool_decide (list_to_set tags_all ⊆ _)) eqn:Ha; cbn [List.filter].
    + destruct (bool_decide (list_to_set more ⊆ _)) eqn:Hb.
      * rewrite bool_decide_eq_true_2; [by rewrite IH|].
        apply bool_decide_eq_true in Ha, Hb. rewrite list_to_set_app_L. set_solver.
      * rewrite bool_decide_eq_false_2; [exact IH|].
        apply bool_decide_eq_false in Hb. rewrite list_to_set_app_L. set_solver.
    + rewrite bool_decide_eq_false_2; [exact IH|].
      apply bool_decide_eq_false in Ha. rewrite list_to_set_app_L. set_solver.
  - intros tags' Hsame.
    assert (Hset : (list_to_set tags' : gset string) = list_to_set tags_all).
    { apply set_eq. intros t. rewrite !elem_of_list_to_set. by rewrite Hsame. }
    by rewrite Hset.
Qed.

End TagFilterFacts.

(** ** The tag exporter: copying one track *)
Section TagCopyFacts.
Import Py FileSys TagExporter.
Variable env : Env.
Variable usb_root base_path : PyPath.Path.

Local Notation "'dest_abs'" := (dest_of usb_root base_path).

Lemma same_size_needs_source (w : FS) (src dest : PyPath.Path) :
  file_same_size env w src dest = Ok true -> exists_ w src = true.
Proof.
  unfold file_same_size. destruct (st_size env w src) as [n|e] eqn:Hs.
  - intros _. by eapply st_size_exists.
  - by destruct e.
Qed.

Lemma missing_source_is_not_same (w : FS) (src dest : PyPath.Path) :
  exists_ w src = false -> file_same_size env w src dest = Ok false.
Proof.
  unfold file_same_size, st_size, exists_, is_file. intros H.
  apply orb_false_elim in H as [Hf Hd]. apply bool_decide_eq_false in Hf.
  destruct (files w !! _) eqn:Hl; [exfalso; apply Hf; eauto|]. by rewrite Hd.
Qed.

Lemma file_same_size_ok (w : FS) (src dest : PyPath.Path) :
  exists b, file_same_size env w src dest = Ok b.
Proof.
  unfold file_same_size, st_size.
  destruct (files w !! PyPath.key (cwd w) src);
    [|destruct (is_dir w (PyPath.key (cwd w) src)); [|eauto]];
    (destruct (files w !! PyPath.key (cwd w) dest);
       [eauto | destruct (is_dir w (PyPath.key (cwd w) dest)); eauto]).
Qed.

(** After a copy that returned, source and destination have one size. *)
Lemma copied_is_same_size (w w' : FS) (src dest : PyPath.Path) :
  copy_file_atomic src dest w = (Ok tt, w') ->
  exists_ w' dest = true /\ file_same_size env w' src dest = Ok true.
Proof.
  unfold copy_file_atomic, bind, get, lift.
  destruct (mkdir_p (PyPath.parent dest) w) as [[[]|e] w1] eqn:Hmk; [|discriminate].
  assert (Hcwd : cwd w1 = cwd w).
  { pose proof (grows_mkdir_p (PyPath.parent dest) w) as Hg. rewrite Hmk in Hg.
    apply Hg. }
  unfold open_temp_in. destruct (negb _); [discriminate|].
  destruct (bool_decide _); [discriminate|].
  unfold read_file. destruct (files w1 !! PyPath.key (cwd w1) src) as [c|] eqn:Hsrc.
  2:{ by destruct (is_dir w1 _). }
  unfold replace_onto. destruct (is_dir w1 (PyPath.key (cwd w1) dest)); [discriminate|].
  intros [= <-].
  assert (Hd : files (renamed_onto (PyPath.key (cwd w1) dest) c w1)
               !! PyPath.key (cwd w1) dest = Some c) by apply lookup_insert_eq.
  assert (Hs : files (renamed_onto (PyPath.key (cwd w1) dest) c w1)
               !! PyPath.key (cwd w1) src = Some c).
  { simpl. destruct (decide (PyPath.key (cwd w1) dest = PyPath.key (cwd w1) src))
      as [->|Hne]; [apply lookup_insert_eq | by rewrite lookup_insert_ne]. }
  split.
  - unfold exists_, is_file. cbn [cwd renamed_onto]. rewrite Hd. done.
  - unfold file_same_size, st_size. cbn [cwd renamed_onto] in *.
    rewrite Hs, Hd, Nat.eqb_refl. done.
Qed.

Lemma last_seg_ok (l : list string) :
  forallb PyPath.seg_ok l = true ->
  List.last l "" = "" \/ PyPath.seg_ok (List.last l "") = true.
Proof.
  induction l as [|x l IH]; [by left|]. intros H. cbn [forallb] in H.
  apply andb_prop in H as [Hx Hl]. destruct l as [|y l]; [by right|].
  by apply IH.
Qed.


End TagCopyFacts.

(** ** What goes into the copier's manifest *)
Section ManifestListFacts.
Import Py Copier.
Variable env : Env.
Variable cfg : Config.

Lemma music_root_cwd (w w' : FileSys.FS) :
  FileSys.cwd w' = FileSys.cwd w -> music_root cfg w' = music_root cfg w.
Proof. intros H. unfold music_root, usb_root. by rewrite H. Qed.

Lemma copy_track_lists (acc : Acc) (track : TrackInfo) (self : T) :
  stats_int (stats self) ->
  exists acc1,
    fst (copy_track env cfg acc track self) = Ok acc1 /\
    stats_int (stats (snd (copy_track env cfg acc track self))) /\
    FileSys.cwd (fs (snd (copy_track env cfg acc track self))) = FileSys.cwd (fs self) /\
    (copied_tracks acc1 = copied_tracks acc \/
     exists_ track = true /\
     copied_tracks acc1
     = copied_tracks acc ++
       [(track, PyPath.joinpath (music_root cfg (fs self))
                  (PyPath.of_str (relative_path track)))]).
Proof.
  intros Hint.
  destruct (copy_track_cases env cfg acc track self Hint) as (H1 & _ & H3).
  cbv zeta in H3.
  assert (Hcwd : FileSys.cwd (fs (snd (copy_track env cfg acc track self)))
                 = FileSys.cwd (fs self)).
  { apply (rn_copy_track env cfg (fs self) acc track self).
    apply only_renamed_refl. }
  destruct (exists_ track).
  - destruct (FileSys.atomic_copy_file _ _ _ _) as [[b|e] w];
      destruct H3 as (-> & _); eexists; (split; [done|]); (split; [done|]);
      (split; [done|]); cbn [copied_tracks]; auto.
  - destruct H3 as (-> & _). eexists. repeat split; try done. by left.
Qed.


End ManifestListFacts.


(** ** Where the copier writes a manifest *)
Section ManifestPathFacts.
Import PyStr PyPath Copier.

Lemma slash_free_has_char (s : string) : slash_free s = negb (has_char slash s).
Proof.
  induction s as [|c s IH]; [done|]. cbn [slash_free has_char].
  rewrite IH. by destruct (Ascii.eqb c slash).
Qed.

(** A string without a slash is one segment, or none. *)
Lemma of_str_single (x : string) :
  slash_free x = true -> of_str x = mkPath "" (if keep_seg x then [x] else []).
Proof.
  intros Hx. destruct x as [|c r]; [done|].
  cbn [slash_free] in Hx. apply andb_prop in Hx as [Hc Hr].
  apply negb_true_iff in Hc. unfold of_str.
  assert (Hroot : split_root (String c r) = ("", String c r)).
  { cbn [split_root]. by rewrite Hc. }
  rewrite Hroot. unfold split.
  assert (Hsplit : split_go "/" (String c r) 0 "" = [String c r]).
  { apply (split_join (String c r) [] ""). simpl. by rewrite Hc, Hr. }
  rewrite Hsplit. cbn [List.filter]. by destruct (keep_seg (String c r)).
Qed.

Lemma of_parts_slash_free_from (l : list string) (r : string) (s : list string) :
  forallb slash_free l = true ->
  fold_left (fun acc a => joinpath acc (of_str a)) l (mkPath r s)
  = mkPath r (s ++ List.filter keep_seg l).
Proof.
  revert s. induction l as [|x l IH]; intros s Hl; simpl.
  - by rewrite app_nil_r.
  - simpl in Hl. apply andb_prop in Hl as [Hx Hl].
    rewrite (of_str_single _ Hx). unfold joinpath at 2. cbn [root segs is_empty].
    rewrite (IH _ Hl). destruct (keep_seg x); [by rewrite <- app_assoc|].
    by rewrite app_nil_r.
Qed.

Lemma safe_filename_slash_free (name : string) : slash_free (safe_filename name) = true.
Proof.
  rewrite slash_free_has_char. apply negb_true_iff.
  apply safe_filename_keeps_out. unfold unsafe_chars. apply list_elem_of_here.
Qed.

Lemma seg_ok_m3u8 (name : string) :
  seg_ok (safe_filename name +:+ ".m3u8") = true.
Proof.
  unfold seg_ok.
  assert (H1 : is_empty (safe_filename name +:+ ".m3u8") = false)
    by (by destruct (safe_filename name)).
  assert (H2 : slash_free (safe_filename name +:+ ".m3u8") = true)
    by (by rewrite slash_free_app, safe_filename_slash_free).
  assert (H3 : String.eqb (safe_filename name +:+ ".m3u8") "." = false).
  { apply String.eqb_neq. intros H. apply (f_equal String.length) in H.
    rewrite length_app_str in H. simpl in H. lia. }
  by rewrite H1, H2, H3.
Qed.

(** X16.  Where the copier puts the manifest of a playlist: under the
    playlists root, in the directories named by all but the last part of
    [full_path] (each part passed through [safe_filename], empty parts and
    dots dropped), in the file [safe_filename(name)] followed by [.m3u8].
    The file name holds none of the nine characters [safe_filename]
    removes. *)
Theorem manifest_path_of_the_copier (cfg : Config) (w : FileSys.FS)
  (playlist : PlaylistInfo) :
  let dirs :=
    List.filter keep_seg
      (List.map safe_filename (split " / " (full_path playlist))) in
  playlist_file_of cfg w playlist
  = mkPath (root (playlists_root cfg w))
      (segs (playlists_root cfg w) ++ removelast dirs
       ++ [safe_filename (Copier.name playlist) +:+ ".m3u8"]) /\
  PyPath.name (playlist_file_of cfg w playlist)
  = safe_filename (Copier.name playlist) +:+ ".m3u8" /\
  (forall c, c ∈ unsafe_chars ->
     has_char c (PyPath.name (playlist_file_of cfg w playlist)) = false).
Proof.
  intros dirs.
  assert (Hfile : playlist_file_of cfg w playlist
                  = mkPath (root (playlists_root cfg w))
                      (segs (playlists_root cfg w) ++ removelast dirs
                       ++ [safe_filename (Copier.name playlist) +:+ ".m3u8"])).
  { unfold playlist_file_of.
    assert (Hsafe : of_parts (List.map safe_filename (split " / " (full_path playlist)))
                    = mkPath "" dirs).
    { unfold of_parts. rewrite of_parts_slash_free_from; [done|].
      apply forallb_forall. intros x Hx. apply in_map_iff in Hx as (y & <- & _).
      apply safe_filename_slash_free. }
    rewrite Hsafe. rewrite (of_str_seg _ (seg_ok_m3u8 (Copier.name playlist))).
    unfold parent. cbn [root segs].
    case_bool_decide as Hp.
    - unfold joinpath. cbn [root segs is_empty]. by rewrite <- app_assoc.
    - assert (Hnil : removelast dirs = []).
      { destruct (removelast dirs) eqn:Hrl; [done|]. discriminate Hp. }
      rewrite Hnil. unfold joinpath. cbn [root segs is_empty]. done. }
  split; [exact Hfile|]. rewrite Hfile. unfold PyPath.name. cbn [segs].
  rewrite !app_assoc, last_last. split; [done|].
  intros c Hc. rewrite has_char_app, (safe_filename_keeps_out _ _ Hc).
  unfold unsafe_chars in Hc.
  repeat (apply elem_of_cons in Hc as [-> | Hc]; [reflexivity|]).
  by apply elem_of_nil in Hc.
Qed.

End ManifestPathFacts.

(** ** What a write changes *)
Section WriterFacts.
Import Py FileSys.
Variable env : Env.

Lemma mkdir_p_unchanged (d : PyPath.Path) (w : FS) :
  unchanged w (snd (mkdir_p d w)) /\ cwd (snd (mkdir_p d w)) = cwd w.
Proof.
  unfold unchanged, mkdir_p. destruct (is_dir w _); [done|].
  destruct (is_file w _); [done|]. by destruct (existsb _ _).
Qed.

Lemma rename_step (dest : PyPath.Path) (c : content) (w0 w : FS) :
  unchanged w0 w -> cwd w = cwd w0 ->
  match fst (bind (open_temp_in (PyPath.parent dest))
               (fun _ => replace_onto dest c) w) with
  | Ok _ =>
      written (PyPath.key (cwd w0) dest) c w0
        (snd (bind (open_temp_in (PyPath.parent dest))
                (fun _ => replace_onto dest c) w))
  | Raise _ =>
      unchanged w0
        (snd (bind (open_temp_in (PyPath.parent dest))
                (fun _ => replace_onto dest c) w))
  end.
Proof.
  intros [Hf Hr] Hc. unfold bind, open_temp_in, replace_onto.
  destruct (negb _); [done|]. destruct (bool_decide _); [done|].
  destruct (is_dir w _); [done|]. cbn [fst snd].
  unfold written. cbn [files renames renamed_onto]. by rewrite Hf, Hr, Hc.
Qed.

Ltac finish_copy :=
  unfold open_temp_in; destruct (negb _); [done|];
  destruct (bool_decide _); [done|];
  unfold read_file;
  match goal with Hf : files ?w1 = files ?w, Hc : cwd ?w1 = cwd ?w |- _ =>
    rewrite Hf, Hc;
    destruct (files w !! PyPath.key (cwd w) _) as [c'|] eqn:Hsrc;
    [ unfold replace_onto; rewrite Hc; destruct (is_dir w1 _); [done|];
      cbn [fst snd]; exists c'; split; [done|]; unfold written;
      cbn [files renames renamed_onto]; split; congruence
    | by destruct (is_dir w1 _) ]
  end.

Lemma unchanged_kept (w w' : FS) : unchanged w w' -> files_kept [] w w'.
Proof. intros [Hf _] k c _ Hc. by rewrite Hf. Qed.

(** X17.  One call of a writer.  [atomic_write_text] and
    [copy_file_atomic], when they return, have changed the destination and
    no other path; the destination holds the text, or what the source held
    when the call began.  [atomic_copy_file] has done the same when it
    returns [True] and has changed no file when it returns [False].  A
    call that raises has kept every file that was there, with its
    content. *)
Theorem writers_change_the_destination_or_nothing (src dest : PyPath.Path)
  (c : content) (w : FS) :
  match fst (atomic_write dest c w) with
  | Ok _ => written (PyPath.key (cwd w) dest) c w (snd (atomic_write dest c w))
  | Raise _ => files_kept [] w (snd (atomic_write dest c w))
  end /\
  match fst (copy_file_atomic src dest w) with
  | Ok _ =>
      exists c', files w !! PyPath.key (cwd w) src = Some c' /\
        written (PyPath.key (cwd w) dest) c' w (snd (copy_file_atomic src dest w))
  | Raise _ => files_kept [] w (snd (copy_file_atomic src dest w))
  end /\
  match fst (atomic_copy_file env src dest w) with
  | Ok true =>
      exists c', files w !! PyPath.key (cwd w) src = Some c' /\
        written (PyPath.key (cwd w) dest) c' w
          (snd (atomic_copy_file env src dest w))
  | Ok false => files (snd (atomic_copy_file env src dest w)) = files w
  | Raise _ => files_kept [] w (snd (atomic_copy_file env src dest w))
  end.
Proof.
  assert (Hstrong :
    match fst (atomic_write dest c w) with
    | Ok _ => written (PyPath.key (cwd w) dest) c w (snd (atomic_write dest c w))
    | Raise _ => unchanged w (snd (atomic_write dest c w))
    end /\
    match fst (copy_file_atomic src dest w) with
    | Ok _ =>
        exists c', files w !! PyPath.key (cwd w) src = Some c' /\
          written (PyPath.key (cwd w) dest) c' w (snd (copy_file_atomic src dest w))
    | Raise _ => unchanged w (snd (copy_file_atomic src dest w))
    end /\
    match fst (atomic_copy_file env src dest w) with
    | Ok true =>
        exists c', files w !! PyPath.key (cwd w) src = Some c' /\
          written (PyPath.key (cwd w) dest) c' w
            (snd (atomic_copy_file env src dest w))
    | _ => unchanged w (snd (atomic_copy_file env src dest w))
    end);
    [|destruct Hstrong as (H1 & H2 & H3); split; [|split];
      [ destruct (fst (atomic_write dest c w)); [done | by apply unchanged_kept]
      | destruct (fst (copy_file_atomic src dest w)); [done | by apply unchanged_kept]
      | destruct (fst (atomic_copy_file env src dest w)) as [[|]|e];
        [done | by destruct H3 | by apply unchanged_kept] ]].
  split; [|split].
  - unfold atomic_write. unfold bind at 1 3 5.
    destruct (mkdir_p_unchanged (PyPath.parent dest) w) as [Hu Hc].
    destruct (mkdir_p (PyPath.parent dest) w) as [[[]|e] w1]; cbn [fst snd] in *;
      [|done].
    apply (rename_step dest c w w1 Hu Hc).
  - unfold copy_file_atomic, bind, get, lift.
    destruct (mkdir_p_unchanged (PyPath.parent dest) w) as [[Hf Hr] Hc].
    destruct (mkdir_p (PyPath.parent dest) w) as [[[]|e] w1]; cbn [fst snd] in *;
      [|done].
    unfold open_temp_in. destruct (negb _); [done|].
    destruct (bool_decide _); [done|].
    unfold read_file. rewrite Hf, Hc.
    destruct (files w !! PyPath.key (cwd w) src) as [c'|] eqn:Hsrc.
    + unfold replace_onto. rewrite Hc. destruct (is_dir w1 _); [done|].
      cbn [fst snd]. exists c'. split; [done|]. unfold written.
      cbn [files renames renamed_onto]. by rewrite Hf, Hr.
    + by destruct (is_dir w1 _).
  - unfold atomic_copy_file, bind, get, lift, ret.
    destruct (negb (exists_ w src)); [done|].
    destruct (mkdir_p_unchanged (PyPath.parent dest) w) as [[Hf Hr] Hc].
    destruct (mkdir_p (PyPath.parent dest) w) as [[[]|e] w1]; cbn [fst snd] in *;
      [|done].
    destruct (exists_ w1 dest).
    + destruct (st_size env w1 src) as [a|e]; cbn [fst snd]; [|done].
      destruct (st_size env w1 dest) as [b|e]; cbn [fst snd]; [|done].
      destruct (a =? b); [done|]. finish_copy.
    + finish_copy.
Qed.

End WriterFacts.
